(** * fn-analyzer: the concurrent execution engine and its statistics

    A shallow embedding of the benchmarking core of fn-analyzer:
    - [pkg/utils/sliceutils.go]      (percentiles, standard deviation, stats),
    - [internal/analyzer/analyzer.go] ([Analyzer.Run], [executeQuery],
      [calculateSummary]),
    - [internal/analyzer/query.go]    ([QueryExecutor.ExecuteQuery],
      [QueryExecutor.ExecuteBatch]),
    - [internal/report/json.go]       (the aggregate of [SaveComparisonJSON]).

    Conventions.  Go's [int], [int64] and [time.Duration] are 64-bit two's
    complement integers: they are modelled as [Z] with the wrap-around
    written out ([wrap64]).  Go's [float64] is IEEE-754 binary64: it is
    modelled by the executable specification [spec_float] of the standard
    library, with precision 53 and maximal exponent 1024.  A run-time panic
    (index out of range) is [None]. *)

From Stdlib Require Import String Ascii.
From Stdlib Require Import ZArith List Bool Lia Permutation Sorted.
From Stdlib Require Import Floats.SpecFloat.
Import ListNotations.
Open Scope string_scope.
Open Scope list_scope.
Open Scope Z_scope.

(** ** Machine integers *)

Definition wrap64 (z : Z) : Z := (z + 2 ^ 63) mod 2 ^ 64 - 2 ^ 63.

Definition MinInt64 : Z := - 2 ^ 63.
Definition MaxInt64 : Z := 2 ^ 63 - 1.

Definition add64 (a b : Z) : Z := wrap64 (a + b).
Definition sub64 (a b : Z) : Z := wrap64 (a - b).
Definition mul64 (a b : Z) : Z := wrap64 (a * b).
(** Go's [/] on integers truncates towards zero; every division of the
    program is guarded by a test that the divisor is positive. *)
Definition quo64 (a b : Z) : Z := wrap64 (Z.quot a b).

(** [len(s)] of a slice, as a Go [int]. *)
Definition len {A : Type} (l : list A) : Z := Z.of_nat (List.length l).

(** [s[i]]: panics when [i] is out of range. *)
Definition index {A : Type} (l : list A) (i : Z) : option A :=
  if i <? 0 then None else nth_error l (Z.to_nat i).

(** ** time.Duration *)

Definition Duration := Z.

Definition Nanosecond : Duration := 1.
Definition Microsecond : Duration := 1000 * Nanosecond.
Definition Millisecond : Duration := 1000 * Microsecond.
Definition Second : Duration := 1000 * Millisecond.
Definition Minute : Duration := 60 * Second.
Definition Hour : Duration := 60 * Minute.

(** [d.Nanoseconds()] and [d.Microseconds()] *)
Definition Nanoseconds (d : Duration) : Z := d.
Definition Microseconds (d : Duration) : Z := Z.quot d 1000.

(** ** float64 *)

Definition float64 := spec_float.

Definition f64_mul : float64 -> float64 -> float64 := SFmul 53 1024.
Definition f64_div : float64 -> float64 -> float64 := SFdiv 53 1024.
Definition f64_sub : float64 -> float64 -> float64 := SFsub 53 1024.
Definition f64_sqrt : float64 -> float64 := SFsqrt 53 1024.
Definition f64_gt (x y : float64) : bool := SFltb y x.

(** [float64(n)] for an integer [n]: rounding to nearest, ties to even. *)
Definition f64_of_int (z : Z) : float64 := binary_normalize 53 1024 z 0 false.

(** The literals of the program that are not integers: the nearest binary64
    values of 0.5, 0.95 and 0.99. *)
Definition f64_0_5 : float64 := S754_finite false 4503599627370496 (-53).
Definition f64_0_95 : float64 := S754_finite false 8556839292003942 (-53).
Definition f64_0_99 : float64 := S754_finite false 8917127262193582 (-53).

(** The integer part of a finite float, rounded down ([floor]) or towards
    zero ([trunc]). *)
Definition f64_floor (f : float64) : option Z :=
  match f with
  | S754_zero _ => Some 0
  | S754_finite s m e =>
      let sm := if s then Z.neg m else Z.pos m in
      Some (if 0 <=? e then sm * 2 ^ e else sm / 2 ^ (- e))
  | _ => None
  end.

Definition f64_trunc (f : float64) : option Z :=
  match f with
  | S754_zero _ => Some 0
  | S754_finite s m e =>
      let sm := if s then Z.neg m else Z.pos m in
      Some (if 0 <=? e then sm * 2 ^ e else Z.quot sm (2 ^ (- e)))
  | _ => None
  end.

(** The conversion of a float to [int], [int64] or [time.Duration] drops the
    fraction.  When the value does not fit (or is infinite or not a number)
    the Go specification leaves the result to the implementation; amd64
    yields the smallest integer. *)
Definition int_of_option (o : option Z) : Z :=
  match o with
  | Some z => if (MinInt64 <=? z) && (z <=? MaxInt64) then z else MinInt64
  | None => MinInt64
  end.

(** [int(f)] *)
Definition int_of_f64 (f : float64) : Z := int_of_option (f64_trunc f).
(** [int(math.Floor(f))] *)
Definition int_of_floor (f : float64) : Z := int_of_option (f64_floor f).

(** ** sort.Slice with [durations[i] < durations[j]] *)

Fixpoint insert (x : Duration) (l : list Duration) : list Duration :=
  match l with
  | [] => [x]
  | y :: t => if x <=? y then x :: l else y :: insert x t
  end.

Fixpoint sort_Slice (l : list Duration) : list Duration :=
  match l with
  | [] => []
  | x :: t => insert x (sort_Slice t)
  end.

(** ** pkg/utils/sliceutils.go *)

Definition CalculatePercentile (durations : list Duration) (percentile : float64)
  : option Duration :=
  if len durations =? 0 then Some 0
  else
    let durations := sort_Slice durations in
    let idx :=
      int_of_floor
        (f64_div (f64_mul (f64_of_int (len durations)) percentile) (f64_of_int 100)) in
    let idx := if idx >=? len durations then len durations - 1 else idx in
    index durations idx.

(** The sum of the squared deviations, accumulated in an [int64]. *)
Definition sumSquares (durations : list Duration) (mean : Duration) : Z :=
  fold_left
    (fun sum d =>
       let diff := sub64 d mean in
       add64 sum (mul64 (Nanoseconds diff) (Nanoseconds diff)))
    durations 0.

Definition CalculateStandardDeviation (durations : list Duration) (mean : Duration)
  : Duration :=
  if len durations <=? 1 then 0
  else
    let sum := sumSquares durations mean in
    let variance := f64_div (f64_of_int sum) (f64_of_int (len durations - 1)) in
    int_of_f64 (f64_sqrt variance).

Record Stats : Type := mkStats {
  Min : Duration;
  Max : Duration;
  Mean : Duration;
  Median : Duration;
  StdDev : Duration;
  P95 : Duration;
  P99 : Duration;
  Samples : Z
}.

Definition zeroStats : Stats := mkStats 0 0 0 0 0 0 0 0.

Definition total (durations : list Duration) : Duration :=
  fold_left add64 durations 0.

(** [int(float64(len(durations)) * c)], clamped to the last index. *)
Definition rankIdx (n : Z) (c : float64) : Z :=
  let idx := int_of_f64 (f64_mul (f64_of_int n) c) in
  if idx >=? n then n - 1 else idx.

Definition CalculateStats (durations : list Duration) : option Stats :=
  if len durations =? 0 then Some zeroStats
  else
    let durations := sort_Slice durations in
    let n := len durations in
    let mean := quo64 (total durations) n in
    let sumSq := sumSquares durations mean in
    let variance := f64_div (f64_of_int sumSq) (f64_of_int n) in
    let stdDev := int_of_f64 (f64_sqrt variance) in
    let p50Idx := rankIdx n f64_0_5 in
    let p95Idx := rankIdx n f64_0_95 in
    let p99Idx := rankIdx n f64_0_99 in
    match index durations 0, index durations (n - 1),
          index durations p50Idx, index durations p95Idx, index durations p99Idx with
    | Some mn, Some mx, Some med, Some p95, Some p99 =>
        Some (mkStats mn mx mean med stdDev p95 p99 n)
    | _, _, _, _, _ => None
    end.

(** ** Strings (package [strings]) *)

(** [strings.ToLower].  The model maps the ASCII letters; it is exact on
    ASCII text, which is what the SQL and the query names of the tool are. *)
Definition lower_ascii (c : ascii) : ascii :=
  let n := nat_of_ascii c in
  if ((65 <=? n) && (n <=? 90))%nat then ascii_of_nat (n + 32) else c.

Fixpoint ToLower (s : string) : string :=
  match s with
  | EmptyString => EmptyString
  | String c s' => String (lower_ascii c) (ToLower s')
  end.

Fixpoint HasPrefix (s prefix : string) : bool :=
  match prefix with
  | EmptyString => true
  | String c prefix' =>
      match s with
      | EmptyString => false
      | String d s' => Ascii.eqb c d && HasPrefix s' prefix'
      end
  end.

Fixpoint Contains (s substr : string) : bool :=
  HasPrefix s substr ||
  match s with
  | EmptyString => false
  | String _ s' => Contains s' substr
  end.

(** [strings.Count] for a non-empty [substr]: the number of non-overlapping
    instances, found from left to right; [skip] characters of an instance
    just found are still to be passed. *)
Fixpoint countFrom (s substr : string) (skip : nat) : Z :=
  match s with
  | EmptyString => 0
  | String _ s' =>
      match skip with
      | S k => countFrom s' substr k
      | O =>
          if HasPrefix s substr
          then 1 + countFrom s' substr (String.length substr - 1)
          else countFrom s' substr 0
      end
  end.

Definition Count (s substr : string) : Z :=
  match substr with
  | EmptyString => Z.of_nat (String.length s) + 1
  | _ => countFrom s substr 0
  end.

(** ** internal/analyzer/complexity.go *)

Definition AnalyzeQueryComplexity (sql : string) : string :=
  let sql := ToLower sql in
  let joinCount := Count sql "join" in
  let hasAggregation :=
    Contains sql "group by" || Contains sql "count(" || Contains sql "sum(" ||
    Contains sql "avg(" || Contains sql "max(" || Contains sql "min(" in
  let hasSubquery := Count sql "select" >? 1 in
  let hasOrdering := Contains sql "order by" in
  let hasWindowFunc :=
    Contains sql "over (" || Contains sql "over(" ||
    Contains sql "rank()" || Contains sql "row_number()" in
  let conditionComplexity := add64 (Count sql " and ") (Count sql " or ") in
  let hasHaving := Contains sql "having " in
  let hasUnion := Contains sql "union " in
  let hasCTE := Contains sql "with " && (Contains sql " as (" || Contains sql " as(") in
  if ((joinCount >? 2) && (hasAggregation || hasSubquery)) ||
     hasWindowFunc || hasUnion || (hasAggregation && hasHaving) || hasCTE ||
     (conditionComplexity >? 5)
  then "high"
  else if ((joinCount >? 0) && (hasAggregation || hasSubquery)) ||
          (conditionComplexity >? 2) || (joinCount >? 1)
  then "medium"
  else if (joinCount >? 0) || hasAggregation || hasSubquery || hasOrdering
  then "low-medium"
  else "low".

(** ** internal/model/model.go *)

(** [time.Time], as nanoseconds on the process's clock. *)
Definition Time := Z.

Module Query.
Record t : Type := mk {
  Name : string;
  Description : string;
  SQL : string;
  Weight : Z
}.
End Query.

(** An [error] value is identified with its message ([err.Error()]); [nil]
    is [None]. *)
Definition error := option string.

Module QueryExecution.
Record t : Type := mk {
  SQL : string;
  StartTime : Time;
  Duration : Z;
  RowCount : Z;
  Error : error;
  ErrorMessage : string
}.
End QueryExecution.

Module QueryResult.
Record t : Type := mk {
  Name : string;
  Description : string;
  SQL : string;
  Executions : list QueryExecution.t;
  SuccessfulExecutions : Z;
  Errors : Z;
  ErrorDetails : list string;
  TotalDuration : Duration;
  AvgDuration : Duration;
  MinDuration : Duration;
  MaxDuration : Duration;
  MedianDuration : Duration;
  StdDevDuration : Duration;
  Percentile95 : Duration;
  Percentile99 : Duration;
  RowsAffected : Z;
  Weight : Z;
  QueryComplexity : string;
  FirstExecutedAt : Time;
  LastExecutedAt : Time;
  ExplainPlan : string
}.
End QueryResult.

(** A [map[string]int], read with [m[k]] (0 when the key is absent) and
    written with [m[k]++]. *)
Definition counts := list (string * Z).

Fixpoint lookupCount (m : counts) (k : string) : Z :=
  match m with
  | [] => 0
  | (k', v) :: m' => if String.eqb k k' then v else lookupCount m' k
  end.

Fixpoint incrCount (m : counts) (k : string) : counts :=
  match m with
  | [] => [(k, 1)]
  | (k', v) :: m' =>
      if String.eqb k k' then (k', add64 v 1) :: m' else (k', v) :: incrCount m' k
  end.

Module ResultSummary.
Record t : Type := mk {
  TotalQueries : Z;
  SuccessfulQueries : Z;
  FailedQueries : Z;
  TotalExecutions : Z;
  SuccessfulExecutions : Z;
  FailedExecutions : Z;
  AvgDurationMs : float64;
  MedianDurationMs : float64;
  StdDevDurationMs : float64;
  MaxDurationMs : float64;
  P95DurationMs : float64;
  P99DurationMs : float64;
  TotalRowsReturned : Z;
  QueriesByComplexity : counts;
  ErrorsByType : counts
}.
End ResultSummary.

Module QueryComparison.
Record t : Type := mk {
  Name : string;
  BeforeAvgMs : float64;
  AfterAvgMs : float64;
  ImprovementPercent : float64;
  BeforeErrors : Z;
  AfterErrors : Z;
  BeforeRows : Z;
  AfterRows : Z
}.
End QueryComparison.

(** ** internal/analyzer/analyzer.go *)

Record Analyzer : Type := mkAnalyzer {
  queries : list Query.t;
  concurrency : Z;
  iterations : Z;
  timeout : Duration;
  verbose : bool
}.

Record queryResult : Type := mkQueryResult {
  duration : Duration;
  rowCount : Z;
  err : error;
  startTime : Time
}.

(** The [QueryResult] with which [Run] and [ExecuteBatch] start a query. *)
Definition newResult (query : Query.t) : QueryResult.t :=
  {| QueryResult.Name := Query.Name query;
     QueryResult.Description := Query.Description query;
     QueryResult.SQL := Query.SQL query;
     QueryResult.Executions := [];
     QueryResult.SuccessfulExecutions := 0;
     QueryResult.Errors := 0;
     QueryResult.ErrorDetails := [];
     QueryResult.TotalDuration := 0;
     QueryResult.AvgDuration := 0;
     QueryResult.MinDuration := Hour;
     QueryResult.MaxDuration := 0;
     QueryResult.MedianDuration := 0;
     QueryResult.StdDevDuration := 0;
     QueryResult.Percentile95 := 0;
     QueryResult.Percentile99 := 0;
     QueryResult.RowsAffected := 0;
     QueryResult.Weight := Query.Weight query;
     QueryResult.QueryComplexity := AnalyzeQueryComplexity (Query.SQL query);
     QueryResult.FirstExecutedAt := 0;
     QueryResult.LastExecutedAt := 0;
     QueryResult.ExplainPlan := EmptyString |}.

(** The body of the goroutine of [Run] after [executeQuery] has returned
    [qr]: the section that runs under [resultMutex].  It updates [result]
    and the slice [durations]. *)
Definition mergeRun (query : Query.t) (st : QueryResult.t * list Duration)
  (qr : queryResult) : QueryResult.t * list Duration :=
  let (result, durations) := st in
  let first :=
    if len (QueryResult.Executions result) =? 0
    then startTime qr else QueryResult.FirstExecutedAt result in
  match err qr with
  | Some msg =>
      let execution :=
        {| QueryExecution.SQL := Query.SQL query;
           QueryExecution.StartTime := startTime qr;
           QueryExecution.Duration := duration qr;
           QueryExecution.RowCount := rowCount qr;
           QueryExecution.Error := None;
           QueryExecution.ErrorMessage := msg |} in
      (
       {| QueryResult.Name := QueryResult.Name result;
          QueryResult.Description := QueryResult.Description result;
          QueryResult.SQL := QueryResult.SQL result;
          QueryResult.Executions := QueryResult.Executions result ++ [execution];
          QueryResult.SuccessfulExecutions := QueryResult.SuccessfulExecutions result;
          QueryResult.Errors := add64 (QueryResult.Errors result) 1;
          QueryResult.ErrorDetails := (if len (QueryResult.ErrorDetails result) <? 10
           then QueryResult.ErrorDetails result ++ [msg]
           else QueryResult.ErrorDetails result);
          QueryResult.TotalDuration := QueryResult.TotalDuration result;
          QueryResult.AvgDuration := QueryResult.AvgDuration result;
          QueryResult.MinDuration := QueryResult.MinDuration result;
          QueryResult.MaxDuration := QueryResult.MaxDuration result;
          QueryResult.MedianDuration := QueryResult.MedianDuration result;
          QueryResult.StdDevDuration := QueryResult.StdDevDuration result;
          QueryResult.Percentile95 := QueryResult.Percentile95 result;
          QueryResult.Percentile99 := QueryResult.Percentile99 result;
          QueryResult.RowsAffected := QueryResult.RowsAffected result;
          QueryResult.Weight := QueryResult.Weight result;
          QueryResult.QueryComplexity := QueryResult.QueryComplexity result;
          QueryResult.FirstExecutedAt := first;
          QueryResult.LastExecutedAt := startTime qr;
          QueryResult.ExplainPlan := QueryResult.ExplainPlan result |},
       durations)
  | None =>
      let execution :=
        {| QueryExecution.SQL := Query.SQL query;
           QueryExecution.StartTime := startTime qr;
           QueryExecution.Duration := duration qr;
           QueryExecution.RowCount := rowCount qr;
           QueryExecution.Error := None;
           QueryExecution.ErrorMessage := EmptyString |} in
      (
       {| QueryResult.Name := QueryResult.Name result;
          QueryResult.Description := QueryResult.Description result;
          QueryResult.SQL := QueryResult.SQL result;
          QueryResult.Executions := QueryResult.Executions result ++ [execution];
          QueryResult.SuccessfulExecutions := add64 (QueryResult.SuccessfulExecutions result) 1;
          QueryResult.Errors := QueryResult.Errors result;
          QueryResult.ErrorDetails := QueryResult.ErrorDetails result;
          QueryResult.TotalDuration := add64 (QueryResult.TotalDuration result) (duration qr);
          QueryResult.AvgDuration := QueryResult.AvgDuration result;
          QueryResult.MinDuration := (if duration qr <? QueryResult.MinDuration result
           then duration qr else QueryResult.MinDuration result);
          QueryResult.MaxDuration := (if duration qr >? QueryResult.MaxDuration result
           then duration qr else QueryResult.MaxDuration result);
          QueryResult.MedianDuration := QueryResult.MedianDuration result;
          QueryResult.StdDevDuration := QueryResult.StdDevDuration result;
          QueryResult.Percentile95 := QueryResult.Percentile95 result;
          QueryResult.Percentile99 := QueryResult.Percentile99 result;
          QueryResult.RowsAffected := add64 (QueryResult.RowsAffected result) (rowCount qr);
          QueryResult.Weight := QueryResult.Weight result;
          QueryResult.QueryComplexity := QueryResult.QueryComplexity result;
          QueryResult.FirstExecutedAt := first;
          QueryResult.LastExecutedAt := startTime qr;
          QueryResult.ExplainPlan := QueryResult.ExplainPlan result |},
       durations ++ [duration qr])
  end.

(** What [Run] does with [result] after [wg.Wait()]: the average, and the
    95th percentile of the sorted [durations].  [None] is the panic of an
    index out of range. *)
Definition finalizeRun (st : QueryResult.t * list Duration) : option QueryResult.t :=
  let (result, durations) := st in
  let avg :=
    if QueryResult.SuccessfulExecutions result >? 0
    then quo64 (QueryResult.TotalDuration result) (QueryResult.SuccessfulExecutions result)
    else QueryResult.AvgDuration result in
  let p95 :=
    if len durations >? 0
    then index (sort_Slice durations) (rankIdx (len durations) f64_0_95)
    else Some (QueryResult.Percentile95 result) in
  match p95 with
  | Some p95 =>
      Some
        {| QueryResult.Name := QueryResult.Name result;
           QueryResult.Description := QueryResult.Description result;
           QueryResult.SQL := QueryResult.SQL result;
           QueryResult.Executions := QueryResult.Executions result;
           QueryResult.SuccessfulExecutions := QueryResult.SuccessfulExecutions result;
           QueryResult.Errors := QueryResult.Errors result;
           QueryResult.ErrorDetails := QueryResult.ErrorDetails result;
           QueryResult.TotalDuration := QueryResult.TotalDuration result;
           QueryResult.AvgDuration := avg;
           QueryResult.MinDuration := QueryResult.MinDuration result;
           QueryResult.MaxDuration := QueryResult.MaxDuration result;
           QueryResult.MedianDuration := QueryResult.MedianDuration result;
           QueryResult.StdDevDuration := QueryResult.StdDevDuration result;
           QueryResult.Percentile95 := p95;
           QueryResult.Percentile99 := QueryResult.Percentile99 result;
           QueryResult.RowsAffected := QueryResult.RowsAffected result;
           QueryResult.Weight := QueryResult.Weight result;
           QueryResult.QueryComplexity := QueryResult.QueryComplexity result;
           QueryResult.FirstExecutedAt := QueryResult.FirstExecutedAt result;
           QueryResult.LastExecutedAt := QueryResult.LastExecutedAt result;
           QueryResult.ExplainPlan := QueryResult.ExplainPlan result |}
  | None => None
  end.

(** One iteration of the outer loop of [Run]: the [QueryResult] of [query]
    when its executions complete (enter the critical section) in the order
    [completions]. *)
Definition runQuery (query : Query.t) (completions : list queryResult)
  : option QueryResult.t :=
  finalizeRun (fold_left (mergeRun query) completions (newResult query, [])).

(** [Run]: the queries are processed one after the other; [completions]
    gives, for each query, its executions in completion order.  A panic
    stops the run. *)
Fixpoint runQueries (qs : list Query.t) (completions : list (list queryResult))
  : option (list QueryResult.t) :=
  match qs with
  | [] => Some []
  | query :: qs' =>
      match runQuery query (hd [] completions) with
      | None => None
      | Some result =>
          match runQueries qs' (tl completions) with
          | None => None
          | Some results => Some (result :: results)
          end
      end
  end.

Definition Run (a : Analyzer) (completions : list (list queryResult))
  : option (list QueryResult.t) :=
  runQueries (queries a) completions.

(** *** The clock and the database

    Time passes while the goroutine waits for the database.  A computation
    reads and advances the clock; [dbResponse] is what the database does
    with one query, as [database/sql] shows it to the caller (the context's
    deadline included: a query that times out is one whose call or whose
    iteration ends with the context's error).

    Only the calls to the database take time here: the statements of the
    program between two readings of the clock ([context.WithTimeout] among
    them) take none.  What is stated about a duration is stated about the
    interval between the two readings that the function makes, not about
    its length in the running program. *)

Definition Clock (A : Type) : Type := Time -> A * Time.

Definition ret {A : Type} (a : A) : Clock A := fun t => (a, t).

Definition bind {A B : Type} (m : Clock A) (k : A -> Clock B) : Clock B :=
  fun t => let (a, t') := m t in k a t'.

Notation "x <- m ;; k" := (bind m (fun x => k))
  (at level 61, m at next level, right associativity).

Definition sat64 (z : Z) : Z := Z.max MinInt64 (Z.min MaxInt64 z).

(** [time.Now()] *)
Definition time_Now : Clock Time := fun t => (t, t).
(** [time.Since(start)]: [time.Now().Sub(start)], which saturates. *)
Definition time_Since (start : Time) : Clock Duration := fun t => (sat64 (t - start), t).
(** Waiting for the database for [d] nanoseconds. *)
Definition elapse (d : Z) : Clock unit := fun t => (tt, t + d).

Record dbResponse : Type := mkResponse {
  issueLatency : Z;        (* how long [QueryContext] takes to return *)
  issueErr : error;        (* the error it returns *)
  rowLatencies : list Z;   (* how long each [rows.Next()] that yields a row takes *)
  endLatency : Z;          (* how long the last [rows.Next()] takes *)
  rowsErr : error          (* [rows.Err()] *)
}.

(** [for rows.Next() { rowCount++ }] *)
Fixpoint drainRows (latencies : list Z) (rowCount : Z) : Clock Z :=
  match latencies with
  | [] => ret rowCount
  | d :: rest => _ <- elapse d ;; drainRows rest (add64 rowCount 1)
  end.

Definition executeQuery (resp : dbResponse) : Clock queryResult :=
  startTime <- time_Now ;;
  _ <- elapse (issueLatency resp) ;;
  duration <- time_Since startTime ;;
  match issueErr resp with
  | Some e => ret (mkQueryResult duration 0 (Some e) startTime)
  | None =>
      rowCount <- drainRows (rowLatencies resp) 0 ;;
      _ <- elapse (endLatency resp) ;;
      ret (mkQueryResult duration rowCount (rowsErr resp) startTime)
  end.

(** *** calculateSummary *)

Definition f64_zero : float64 := S754_zero false.

(** [float64(d.Microseconds()) / 1000] *)
Definition durationMs (d : Duration) : float64 :=
  f64_div (f64_of_int (Microseconds d)) (f64_of_int 1000).

Definition summaryStep (acc : ResultSummary.t * Duration * Duration)
  (result : QueryResult.t) : ResultSummary.t * Duration * Duration :=
  let '(summary, totalDuration, maxDuration) := acc in
  (
   {| ResultSummary.TotalQueries := ResultSummary.TotalQueries summary;
      ResultSummary.SuccessfulQueries := (if QueryResult.Errors result =? 0
        then add64 (ResultSummary.SuccessfulQueries summary) 1
        else ResultSummary.SuccessfulQueries summary);
      ResultSummary.FailedQueries := (if QueryResult.Errors result =? 0
        then ResultSummary.FailedQueries summary
        else add64 (ResultSummary.FailedQueries summary) 1);
      ResultSummary.TotalExecutions := add64 (ResultSummary.TotalExecutions summary) (len (QueryResult.Executions result));
      ResultSummary.SuccessfulExecutions := add64 (ResultSummary.SuccessfulExecutions summary)
        (QueryResult.SuccessfulExecutions result);
      ResultSummary.FailedExecutions := add64 (ResultSummary.FailedExecutions summary) (QueryResult.Errors result);
      ResultSummary.AvgDurationMs := ResultSummary.AvgDurationMs summary;
      ResultSummary.MedianDurationMs := ResultSummary.MedianDurationMs summary;
      ResultSummary.StdDevDurationMs := ResultSummary.StdDevDurationMs summary;
      ResultSummary.MaxDurationMs := ResultSummary.MaxDurationMs summary;
      ResultSummary.P95DurationMs := ResultSummary.P95DurationMs summary;
      ResultSummary.P99DurationMs := ResultSummary.P99DurationMs summary;
      ResultSummary.TotalRowsReturned := add64 (ResultSummary.TotalRowsReturned summary) (QueryResult.RowsAffected result);
      ResultSummary.QueriesByComplexity := incrCount (ResultSummary.QueriesByComplexity summary)
        (QueryResult.QueryComplexity result);
      ResultSummary.ErrorsByType := ResultSummary.ErrorsByType summary |},
   add64 totalDuration (QueryResult.AvgDuration result),
   if QueryResult.MaxDuration result >? maxDuration
   then QueryResult.MaxDuration result else maxDuration).

Definition emptySummary (n : Z) : ResultSummary.t :=
  {| ResultSummary.TotalQueries := n;
     ResultSummary.SuccessfulQueries := 0;
     ResultSummary.FailedQueries := 0;
     ResultSummary.TotalExecutions := 0;
     ResultSummary.SuccessfulExecutions := 0;
     ResultSummary.FailedExecutions := 0;
     ResultSummary.AvgDurationMs := f64_zero;
     ResultSummary.MedianDurationMs := f64_zero;
     ResultSummary.StdDevDurationMs := f64_zero;
     ResultSummary.MaxDurationMs := f64_zero;
     ResultSummary.P95DurationMs := f64_zero;
     ResultSummary.P99DurationMs := f64_zero;
     ResultSummary.TotalRowsReturned := 0;
     ResultSummary.QueriesByComplexity := [];
     ResultSummary.ErrorsByType := [] |}.

Definition calculateSummary (results : list QueryResult.t) : ResultSummary.t :=
  let '(summary, totalDuration, maxDuration) :=
    fold_left summaryStep results (emptySummary (len results), 0, 0) in
  if ResultSummary.TotalQueries summary >? 0 then
    let avgDuration := quo64 totalDuration (ResultSummary.TotalQueries summary) in
    {| ResultSummary.TotalQueries := ResultSummary.TotalQueries summary;
       ResultSummary.SuccessfulQueries := ResultSummary.SuccessfulQueries summary;
       ResultSummary.FailedQueries := ResultSummary.FailedQueries summary;
       ResultSummary.TotalExecutions := ResultSummary.TotalExecutions summary;
       ResultSummary.SuccessfulExecutions := ResultSummary.SuccessfulExecutions summary;
       ResultSummary.FailedExecutions := ResultSummary.FailedExecutions summary;
       ResultSummary.AvgDurationMs := durationMs avgDuration;
       ResultSummary.MedianDurationMs := ResultSummary.MedianDurationMs summary;
       ResultSummary.StdDevDurationMs := ResultSummary.StdDevDurationMs summary;
       ResultSummary.MaxDurationMs := durationMs maxDuration;
       ResultSummary.P95DurationMs := ResultSummary.P95DurationMs summary;
       ResultSummary.P99DurationMs := ResultSummary.P99DurationMs summary;
       ResultSummary.TotalRowsReturned := ResultSummary.TotalRowsReturned summary;
       ResultSummary.QueriesByComplexity := ResultSummary.QueriesByComplexity summary;
       ResultSummary.ErrorsByType := ResultSummary.ErrorsByType summary |}
  else summary.

(** ** internal/analyzer/query.go *)

Record QueryExecutor : Type := mkQueryExecutor {
  qe_timeout : Duration;
  qe_verbose : bool;
  qe_concurrency : Z
}.

Definition ExecuteQuery (query : string) (resp : dbResponse) : Clock QueryExecution.t :=
  startTime <- time_Now ;;
  start <- time_Now ;;
  _ <- elapse (issueLatency resp) ;;
  duration <- time_Since start ;;
  match issueErr resp with
  | Some e =>
      ret {| QueryExecution.SQL := query;
             QueryExecution.StartTime := startTime;
             QueryExecution.Duration := duration;
             QueryExecution.RowCount := 0;
             QueryExecution.Error := Some e;
             QueryExecution.ErrorMessage := e |}
  | None =>
      rowCount <- drainRows (rowLatencies resp) 0 ;;
      _ <- elapse (endLatency resp) ;;
      ret {| QueryExecution.SQL := query;
             QueryExecution.StartTime := startTime;
             QueryExecution.Duration := duration;
             QueryExecution.RowCount := rowCount;
             QueryExecution.Error := rowsErr resp;
             QueryExecution.ErrorMessage :=
               match rowsErr resp with Some e => e | None => EmptyString end |}
  end.

Definition succeeded (e : QueryExecution.t) : bool :=
  match QueryExecution.Error e with None => true | Some _ => false end.

(** The body of the loop of [ExecuteBatch] after [ExecuteQuery] has
    returned [execution] and the slot is released. *)
Definition mergeBatch (result : QueryResult.t) (execution : QueryExecution.t)
  : QueryResult.t :=
  let first :=
    if len (QueryResult.Executions result) =? 0
    then QueryExecution.StartTime execution else QueryResult.FirstExecutedAt result in
  match QueryExecution.Error execution with
  | Some _ =>
     {| QueryResult.Name := QueryResult.Name result;
        QueryResult.Description := QueryResult.Description result;
        QueryResult.SQL := QueryResult.SQL result;
        QueryResult.Executions := QueryResult.Executions result ++ [execution];
        QueryResult.SuccessfulExecutions := QueryResult.SuccessfulExecutions result;
        QueryResult.Errors := add64 (QueryResult.Errors result) 1;
        QueryResult.ErrorDetails := (if len (QueryResult.ErrorDetails result) <? 10
         then QueryResult.ErrorDetails result ++ [QueryExecution.ErrorMessage execution]
         else QueryResult.ErrorDetails result);
        QueryResult.TotalDuration := QueryResult.TotalDuration result;
        QueryResult.AvgDuration := QueryResult.AvgDuration result;
        QueryResult.MinDuration := QueryResult.MinDuration result;
        QueryResult.MaxDuration := QueryResult.MaxDuration result;
        QueryResult.MedianDuration := QueryResult.MedianDuration result;
        QueryResult.StdDevDuration := QueryResult.StdDevDuration result;
        QueryResult.Percentile95 := QueryResult.Percentile95 result;
        QueryResult.Percentile99 := QueryResult.Percentile99 result;
        QueryResult.RowsAffected := QueryResult.RowsAffected result;
        QueryResult.Weight := QueryResult.Weight result;
        QueryResult.QueryComplexity := QueryResult.QueryComplexity result;
        QueryResult.FirstExecutedAt := first;
        QueryResult.LastExecutedAt := QueryExecution.StartTime execution;
        QueryResult.ExplainPlan := QueryResult.ExplainPlan result |}
  | None =>
     {| QueryResult.Name := QueryResult.Name result;
        QueryResult.Description := QueryResult.Description result;
        QueryResult.SQL := QueryResult.SQL result;
        QueryResult.Executions := QueryResult.Executions result ++ [execution];
        QueryResult.SuccessfulExecutions := add64 (QueryResult.SuccessfulExecutions result) 1;
        QueryResult.Errors := QueryResult.Errors result;
        QueryResult.ErrorDetails := QueryResult.ErrorDetails result;
        QueryResult.TotalDuration := add64 (QueryResult.TotalDuration result) (QueryExecution.Duration execution);
        QueryResult.AvgDuration := QueryResult.AvgDuration result;
        QueryResult.MinDuration := (if QueryExecution.Duration execution <? QueryResult.MinDuration result
         then QueryExecution.Duration execution else QueryResult.MinDuration result);
        QueryResult.MaxDuration := (if QueryExecution.Duration execution >? QueryResult.MaxDuration result
         then QueryExecution.Duration execution else QueryResult.MaxDuration result);
        QueryResult.MedianDuration := QueryResult.MedianDuration result;
        QueryResult.StdDevDuration := QueryResult.StdDevDuration result;
        QueryResult.Percentile95 := QueryResult.Percentile95 result;
        QueryResult.Percentile99 := QueryResult.Percentile99 result;
        QueryResult.RowsAffected := add64 (QueryResult.RowsAffected result) (QueryExecution.RowCount execution);
        QueryResult.Weight := QueryResult.Weight result;
        QueryResult.QueryComplexity := QueryResult.QueryComplexity result;
        QueryResult.FirstExecutedAt := first;
        QueryResult.LastExecutedAt := QueryExecution.StartTime execution;
        QueryResult.ExplainPlan := QueryResult.ExplainPlan result |}
  end.

(** The durations of the executions without error, in the order of the
    slice. *)
Definition successDurations (executions : list QueryExecution.t) : list Duration :=
  map QueryExecution.Duration (filter succeeded executions).

(** What [ExecuteBatch] does with [result] after the loop.  [None] is the
    panic of an index out of range in [CalculateStats]. *)
Definition finalizeBatch (result : QueryResult.t) : option QueryResult.t :=
  if QueryResult.SuccessfulExecutions result >? 0 then
    let avg :=
      quo64 (QueryResult.TotalDuration result) (QueryResult.SuccessfulExecutions result) in
    let durations := successDurations (QueryResult.Executions result) in
    if len durations >? 0 then
      match CalculateStats durations with
      | Some stats =>
          Some
            {| QueryResult.Name := QueryResult.Name result;
               QueryResult.Description := QueryResult.Description result;
               QueryResult.SQL := QueryResult.SQL result;
               QueryResult.Executions := QueryResult.Executions result;
               QueryResult.SuccessfulExecutions := QueryResult.SuccessfulExecutions result;
               QueryResult.Errors := QueryResult.Errors result;
               QueryResult.ErrorDetails := QueryResult.ErrorDetails result;
               QueryResult.TotalDuration := QueryResult.TotalDuration result;
               QueryResult.AvgDuration := avg;
               QueryResult.MinDuration := QueryResult.MinDuration result;
               QueryResult.MaxDuration := QueryResult.MaxDuration result;
               QueryResult.MedianDuration := Median stats;
               QueryResult.StdDevDuration := StdDev stats;
               QueryResult.Percentile95 := P95 stats;
               QueryResult.Percentile99 := P99 stats;
               QueryResult.RowsAffected := QueryResult.RowsAffected result;
               QueryResult.Weight := QueryResult.Weight result;
               QueryResult.QueryComplexity := QueryResult.QueryComplexity result;
               QueryResult.FirstExecutedAt := QueryResult.FirstExecutedAt result;
               QueryResult.LastExecutedAt := QueryResult.LastExecutedAt result;
               QueryResult.ExplainPlan := QueryResult.ExplainPlan result |}
      | None => None
      end
    else
      Some
        {| QueryResult.Name := QueryResult.Name result;
           QueryResult.Description := QueryResult.Description result;
           QueryResult.SQL := QueryResult.SQL result;
           QueryResult.Executions := QueryResult.Executions result;
           QueryResult.SuccessfulExecutions := QueryResult.SuccessfulExecutions result;
           QueryResult.Errors := QueryResult.Errors result;
           QueryResult.ErrorDetails := QueryResult.ErrorDetails result;
           QueryResult.TotalDuration := QueryResult.TotalDuration result;
           QueryResult.AvgDuration := avg;
           QueryResult.MinDuration := QueryResult.MinDuration result;
           QueryResult.MaxDuration := QueryResult.MaxDuration result;
           QueryResult.MedianDuration := QueryResult.MedianDuration result;
           QueryResult.StdDevDuration := QueryResult.StdDevDuration result;
           QueryResult.Percentile95 := QueryResult.Percentile95 result;
           QueryResult.Percentile99 := QueryResult.Percentile99 result;
           QueryResult.RowsAffected := QueryResult.RowsAffected result;
           QueryResult.Weight := QueryResult.Weight result;
           QueryResult.QueryComplexity := QueryResult.QueryComplexity result;
           QueryResult.FirstExecutedAt := QueryResult.FirstExecutedAt result;
           QueryResult.LastExecutedAt := QueryResult.LastExecutedAt result;
           QueryResult.ExplainPlan := QueryResult.ExplainPlan result |}
  else Some result.

(** The goroutine of one query: its [QueryResult] when [ExecuteQuery]
    returns [executions], in this order. *)
Definition batchQuery (query : Query.t) (executions : list QueryExecution.t)
  : option QueryResult.t :=
  finalizeBatch (fold_left mergeBatch executions (newResult query)).

Fixpoint batchQueries (qs : list Query.t) (executions : list (list QueryExecution.t))
  : option (list QueryResult.t) :=
  match qs with
  | [] => Some []
  | query :: qs' =>
      match batchQuery query (hd [] executions) with
      | None => None
      | Some result =>
          match batchQueries qs' (tl executions) with
          | None => None
          | Some results => Some (result :: results)
          end
      end
  end.

Definition ExecuteBatch (qe : QueryExecutor) (qs : list Query.t)
  (executions : list (list QueryExecution.t)) : option (list QueryResult.t) :=
  batchQueries qs executions.

(** [sort.Slice] with [sortedQueries[i].Weight > sortedQueries[j].Weight].
    Go's sort is not stable; the model is the stable descending sort, one of
    the orders the library may produce. *)
Fixpoint insertByWeight (q : Query.t) (l : list Query.t) : list Query.t :=
  match l with
  | [] => [q]
  | y :: t =>
      if Query.Weight q >=? Query.Weight y then q :: l else y :: insertByWeight q t
  end.

Fixpoint sortByWeight (l : list Query.t) : list Query.t :=
  match l with
  | [] => []
  | q :: t => insertByWeight q (sortByWeight t)
  end.

(** [s[:limit]] when [limit > 0 && limit < len(s)], else [s]. *)
Definition applyLimit {A : Type} (s : list A) (limit : Z) : list A :=
  if (limit >? 0) && (limit <? len s) then firstn (Z.to_nat limit) s else s.

(** A result with an error: [inl] the value, [inr] the error's message. *)
Definition filterQueriesByType (allQueries : list Query.t) (queryType : string)
  (limit : Z) : list Query.t + string :=
  let filtered :=
    filter (fun q => HasPrefix (ToLower (Query.Name q)) (ToLower queryType)) allQueries in
  if len filtered =? 0
  then inr (String.append "no queries found of type: " queryType)
  else inl (applyLimit filtered limit).

Definition CreateTestQueries (allQueries : list Query.t) (testType : string)
  (limit : Z) : list Query.t + string :=
  if String.eqb testType "all" then inl allQueries
  else if String.eqb testType "consistency"
  then filterQueriesByType allQueries "consistency" limit
  else if String.eqb testType "datatype"
  then filterQueriesByType allQueries "datatype" limit
  else if String.eqb testType "relationship"
  then filterQueriesByType allQueries "relationship" limit
  else if String.eqb testType "top"
  then inl (applyLimit (sortByWeight allQueries) limit)
  else inr (String.append "unknown test type: " testType).

Definition classifyErrorMessage (errMsg : string) : string :=
  let errMsg := ToLower errMsg in
  if Contains errMsg "deadlock" then "Deadlock"
  else if Contains errMsg "lock wait timeout" then "Lock timeout"
  else if Contains errMsg "foreign key constraint" then "Foreign key constraint"
  else if Contains errMsg "duplicate entry" then "Duplicate entry"
  else if Contains errMsg "truncated" || Contains errMsg "out of range"
  then "Data truncation/range"
  else if Contains errMsg "convert" || Contains errMsg "illegal mix"
  then "Type conversion"
  else if Contains errMsg "context deadline" || Contains errMsg "timeout"
  then "Query timeout"
  else "Other error".

Definition ClassifyErrors (results : list QueryResult.t) : counts :=
  fold_left
    (fun errorTypes result =>
       fold_left
         (fun errorTypes errMsg => incrCount errorTypes (classifyErrorMessage errMsg))
         (QueryResult.ErrorDetails result) errorTypes)
    results [].

(** ** internal/report/json.go: SaveComparisonJSON *)

(** [afterMap], a [map[string]model.QueryResult]. *)
Definition resultMap := list (string * QueryResult.t).

Fixpoint mapPut (m : resultMap) (k : string) (v : QueryResult.t) : resultMap :=
  match m with
  | [] => [(k, v)]
  | (k', v') :: m' =>
      if String.eqb k k' then (k', v) :: m' else (k', v') :: mapPut m' k v
  end.

Fixpoint mapGet (m : resultMap) (k : string) : option QueryResult.t :=
  match m with
  | [] => None
  | (k', v) :: m' => if String.eqb k k' then Some v else mapGet m' k
  end.

Definition afterMapOf (after : list QueryResult.t) : resultMap :=
  fold_left (fun m q => mapPut m (QueryResult.Name q) q) after [].

Definition improvementPct (beforeAvgMs afterAvgMs : float64) : float64 :=
  if f64_gt beforeAvgMs f64_zero
  then f64_mul (f64_div (f64_sub beforeAvgMs afterAvgMs) beforeAvgMs) (f64_of_int 100)
  else f64_zero.

Definition compareQuery (beforeQ afterQ : QueryResult.t) : QueryComparison.t :=
  let beforeAvgMs := durationMs (QueryResult.AvgDuration beforeQ) in
  let afterAvgMs := durationMs (QueryResult.AvgDuration afterQ) in
  {| QueryComparison.Name := QueryResult.Name beforeQ;
     QueryComparison.BeforeAvgMs := beforeAvgMs;
     QueryComparison.AfterAvgMs := afterAvgMs;
     QueryComparison.ImprovementPercent := improvementPct beforeAvgMs afterAvgMs;
     QueryComparison.BeforeErrors := QueryResult.Errors beforeQ;
     QueryComparison.AfterErrors := QueryResult.Errors afterQ;
     QueryComparison.BeforeRows := QueryResult.RowsAffected beforeQ;
     QueryComparison.AfterRows := QueryResult.RowsAffected afterQ |}.

(** The comparisons in the order of the [before] run, as they are before
    [sort.Slice] orders them by improvement. *)
Fixpoint comparisonsOf (afterMap : resultMap) (before : list QueryResult.t)
  : list QueryComparison.t :=
  match before with
  | [] => []
  | beforeQ :: rest =>
      match mapGet afterMap (QueryResult.Name beforeQ) with
      | None => comparisonsOf afterMap rest
      | Some afterQ => compareQuery beforeQ afterQ :: comparisonsOf afterMap rest
      end
  end.

(** [sort.Slice] with [comparisons[i].ImprovementPercent >
    comparisons[j].ImprovementPercent]: the stable descending sort. *)
Fixpoint insertByImprovement (c : QueryComparison.t) (l : list QueryComparison.t)
  : list QueryComparison.t :=
  match l with
  | [] => [c]
  | y :: t =>
      if f64_gt (QueryComparison.ImprovementPercent y) (QueryComparison.ImprovementPercent c)
      then y :: insertByImprovement c t else c :: l
  end.

Fixpoint sortByImprovement (l : list QueryComparison.t) : list QueryComparison.t :=
  match l with
  | [] => []
  | c :: t => insertByImprovement c (sortByImprovement t)
  end.

Definition QueryComparisons (before after : list QueryResult.t) : list QueryComparison.t :=
  sortByImprovement (comparisonsOf (afterMapOf after) before).

(** One of the two loops that add up a run: [(total, count)] over the
    queries with a successful execution. *)
Definition sumSuccessful (qs : list QueryResult.t) : Duration * Z :=
  fold_left
    (fun (acc : Duration * Z) q =>
       let (total, count) := acc in
       if QueryResult.SuccessfulExecutions q >? 0
       then (add64 total (QueryResult.AvgDuration q), add64 count 1)
       else (total, count))
    qs (0, 0).

(** [float64(total.Microseconds()) / float64(count) / 1000] *)
Definition runAvgMs (total : Duration) (count : Z) : float64 :=
  f64_div (f64_div (f64_of_int (Microseconds total)) (f64_of_int count)) (f64_of_int 1000).

Definition avgTimeImprovement (before after : list QueryResult.t) : float64 :=
  let (beforeTotal, beforeCount) := sumSuccessful before in
  let (afterTotal, afterCount) := sumSuccessful after in
  if (beforeCount >? 0) && (afterCount >? 0) then
    let beforeAvg := runAvgMs beforeTotal beforeCount in
    let afterAvg := runAvgMs afterTotal afterCount in
    if f64_gt beforeAvg f64_zero
    then f64_mul (f64_div (f64_sub beforeAvg afterAvg) beforeAvg) (f64_of_int 100)
    else f64_zero
  else f64_zero.

(** ** internal/config/config.go *)

Record Config : Type := mkConfig {
  DSN : string;
  QueriesFile : string;
  OutputDir : string;
  Iterations : Z;
  Concurrency : Z;
  WarmupIterations : Z;
  Label : string;
  Timeout : Duration;
  Verbose : bool
}.

(** The end of [LoadConfig]: what it does with the configuration that
    [json.Unmarshal] has filled in. *)
Definition checkConfig (config : Config) : Config :=
  {| DSN := DSN config;
     QueriesFile := QueriesFile config;
     OutputDir := OutputDir config;
     Iterations := if Iterations config <=? 0 then 50 else Iterations config;
     Concurrency := if Concurrency config <=? 0 then 5 else Concurrency config;
     WarmupIterations :=
       if WarmupIterations config <? 0 then 100 else WarmupIterations config;
     Label := Label config;
     Timeout := if Timeout config =? 0 then 30 * Second else Timeout config;
     Verbose := Verbose config |}.

Definition NewAnalyzer (qs : list Query.t) (cfg : Config) : Analyzer :=
  {| queries := qs;
     concurrency := Concurrency cfg;
     iterations := Iterations cfg;
     timeout := Timeout cfg;
     verbose := Verbose cfg |}.

Definition NewQueryExecutor (cfg : Config) : QueryExecutor :=
  {| qe_timeout := Timeout cfg;
     qe_verbose := Verbose cfg;
     qe_concurrency := Concurrency cfg |}.

(** ** The goroutines of [Analyzer.Run]

    [Run] is one main goroutine and, for the query in hand, one goroutine
    per iteration.  The steps are the operations on the shared state: the
    send on [semaphore] (which blocks while the channel is full), the return
    of [executeQuery], the critical section under [resultMutex] (atomic: it
    does not block), the deferred receive from [semaphore] followed by
    [wg.Done()], and [wg.Wait()].

    [make(chan struct{}, a.concurrency)] panics for a negative concurrency
    and [make([]model.QueryExecution, 0, a.iterations)] for a negative
    number of iterations: the transition system is the program for
    [0 <= concurrency] and [0 <= iterations], and what is stated about
    progress and about the results assumes both. *)

Fixpoint update {A : Type} (l : list A) (n : nat) (x : A) : list A :=
  match l, n with
  | [], _ => []
  | _ :: t, O => x :: t
  | y :: t, S n' => y :: update t n' x
  end.

Inductive gphase : Type :=
| GExec                       (* inside [a.executeQuery] *)
| GGot (qr : queryResult)     (* [executeQuery] has returned; waits for [resultMutex] *)
| GMerged                     (* the critical section is done; the slot is still taken *)
| GDone.                      (* the slot is released and [wg.Done()] called *)

Record RunState : Type := mkRunState {
  rs_sem : Z;                              (* [len(semaphore)] *)
  rs_todo : list Query.t;                  (* the queries the outer loop has not reached *)
  rs_cur : option Query.t;                 (* the query of the outer loop *)
  rs_i : Z;                                (* the counter of the inner loop *)
  rs_go : list gphase;                     (* the goroutines of this query *)
  rs_acc : QueryResult.t * list Duration;  (* [result] and [durations] *)
  rs_results : list QueryResult.t          (* [results] *)
}.

Inductive RunLabel : Type :=
| RNext                                    (* the outer loop takes the next query *)
| RSpawn                                   (* [semaphore <- struct{}{}] and [go func] *)
| RReturn (g : nat) (qr : queryResult)     (* [executeQuery] of goroutine [g] returns *)
| RMerge (g : nat)                         (* goroutine [g] runs its critical section *)
| RRelease (g : nat)                       (* [<-semaphore] and [wg.Done()] *)
| RWait.                                   (* [wg.Wait()] returns; the result is stored *)

Definition holdsSlot (p : gphase) : bool :=
  match p with GDone => false | _ => true end.

Definition executing (p : gphase) : bool :=
  match p with GExec => true | _ => false end.

Definition runInit (a : Analyzer) : RunState :=
  {| rs_sem := 0; rs_todo := queries a; rs_cur := None; rs_i := 0; rs_go := [];
     rs_acc := (newResult (Query.mk EmptyString EmptyString EmptyString 0), []);
     rs_results := [] |}.

Definition runStep (a : Analyzer) (s : RunState) (l : RunLabel) : option RunState :=
  match l with
  | RNext =>
      match rs_cur s, rs_todo s with
      | None, query :: rest =>
          Some {| rs_sem := rs_sem s; rs_todo := rest; rs_cur := Some query; rs_i := 0;
                  rs_go := []; rs_acc := (newResult query, []);
                  rs_results := rs_results s |}
      | _, _ => None
      end
  | RSpawn =>
      match rs_cur s with
      | Some _ =>
          if (rs_i s <? iterations a) && (rs_sem s <? concurrency a)
          then Some {| rs_sem := rs_sem s + 1; rs_todo := rs_todo s; rs_cur := rs_cur s;
                       rs_i := rs_i s + 1; rs_go := rs_go s ++ [GExec];
                       rs_acc := rs_acc s; rs_results := rs_results s |}
          else None
      | None => None
      end
  | RReturn g qr =>
      match nth_error (rs_go s) g with
      | Some GExec =>
          Some {| rs_sem := rs_sem s; rs_todo := rs_todo s; rs_cur := rs_cur s;
                  rs_i := rs_i s; rs_go := update (rs_go s) g (GGot qr);
                  rs_acc := rs_acc s; rs_results := rs_results s |}
      | _ => None
      end
  | RMerge g =>
      match nth_error (rs_go s) g, rs_cur s with
      | Some (GGot qr), Some query =>
          Some {| rs_sem := rs_sem s; rs_todo := rs_todo s; rs_cur := rs_cur s;
                  rs_i := rs_i s; rs_go := update (rs_go s) g GMerged;
                  rs_acc := mergeRun query (rs_acc s) qr; rs_results := rs_results s |}
      | _, _ => None
      end
  | RRelease g =>
      match nth_error (rs_go s) g with
      | Some GMerged =>
          Some {| rs_sem := rs_sem s - 1; rs_todo := rs_todo s; rs_cur := rs_cur s;
                  rs_i := rs_i s; rs_go := update (rs_go s) g GDone;
                  rs_acc := rs_acc s; rs_results := rs_results s |}
      | _ => None
      end
  | RWait =>
      match rs_cur s with
      | Some _ =>
          if (rs_i s >=? iterations a) && forallb (fun p => negb (holdsSlot p)) (rs_go s)
          then
            match finalizeRun (rs_acc s) with
            | Some result =>
                Some {| rs_sem := rs_sem s; rs_todo := rs_todo s; rs_cur := None;
                        rs_i := rs_i s; rs_go := rs_go s; rs_acc := rs_acc s;
                        rs_results := rs_results s ++ [result] |}
            | None => None
            end
          else None
      | None => None
      end
  end.

Fixpoint runTrace (a : Analyzer) (s : RunState) (ls : list RunLabel) : option RunState :=
  match ls with
  | [] => Some s
  | l :: ls' =>
      match runStep a s l with
      | Some s' => runTrace a s' ls'
      | None => None
      end
  end.

(** The executions in flight: the goroutines inside [executeQuery]. *)
Definition runInFlight (s : RunState) : Z := len (filter executing (rs_go s)).

(** ** The goroutines of [QueryExecutor.ExecuteBatch]

    One goroutine per query; each runs its iterations one after the other:
    send on [qe.semaphore], [ExecuteQuery], receive from [qe.semaphore],
    merge under [qe.mutex].

    [make([]model.QueryExecution, 0, iterations)] panics for a negative
    number of iterations, before a goroutine is started, and [make] of the
    semaphore panics for a negative concurrency when the executor is built:
    the transition system is the program for [0 <= iterations] and
    [0 <= concurrency], and what is stated about progress and about the
    results assumes both. *)

Inductive bphase : Type :=
| BIdle                             (* at the head of the loop *)
| BExec                             (* inside [qe.ExecuteQuery], holding a slot *)
| BHold (e : QueryExecution.t)      (* [ExecuteQuery] has returned; the slot is still taken *)
| BGot (e : QueryExecution.t)       (* the slot is released; merges next *)
| BDone.                            (* the goroutine has finished *)

Record worker : Type := mkWorker {
  w_query : Query.t;
  w_iter : Z;
  w_phase : bphase;
  w_result : QueryResult.t        (* [results[idx]] *)
}.

Record BatchState : Type := mkBatchState {
  bs_sem : Z;                     (* [len(qe.semaphore)] *)
  bs_workers : list worker
}.

Inductive BatchLabel : Type :=
| BAcquire (k : nat)
| BReturn (k : nat) (e : QueryExecution.t)
| BRelease (k : nat)
| BMerge (k : nat)
| BFinish (k : nat).

Definition batchInit (qs : list Query.t) : BatchState :=
  {| bs_sem := 0;
     bs_workers := map (fun q => mkWorker q 0 BIdle (newResult q)) qs |}.

Definition setWorker (s : BatchState) (sem : Z) (k : nat) (w : worker) : BatchState :=
  {| bs_sem := sem; bs_workers := update (bs_workers s) k w |}.

Definition batchStep (qe : QueryExecutor) (iters : Z) (s : BatchState) (l : BatchLabel)
  : option BatchState :=
  match l with
  | BAcquire k =>
      match nth_error (bs_workers s) k with
      | Some w =>
          match w_phase w with
          | BIdle =>
              if (w_iter w <? iters) && (bs_sem s <? qe_concurrency qe)
              then Some (setWorker s (bs_sem s + 1) k
                           (mkWorker (w_query w) (w_iter w) BExec (w_result w)))
              else None
          | _ => None
          end
      | None => None
      end
  | BReturn k e =>
      match nth_error (bs_workers s) k with
      | Some w =>
          match w_phase w with
          | BExec => Some (setWorker s (bs_sem s) k
                             (mkWorker (w_query w) (w_iter w) (BHold e) (w_result w)))
          | _ => None
          end
      | None => None
      end
  | BRelease k =>
      match nth_error (bs_workers s) k with
      | Some w =>
          match w_phase w with
          | BHold e => Some (setWorker s (bs_sem s - 1) k
                               (mkWorker (w_query w) (w_iter w) (BGot e) (w_result w)))
          | _ => None
          end
      | None => None
      end
  | BMerge k =>
      match nth_error (bs_workers s) k with
      | Some w =>
          match w_phase w with
          | BGot e => Some (setWorker s (bs_sem s) k
                              (mkWorker (w_query w) (w_iter w + 1) BIdle
                                 (mergeBatch (w_result w) e)))
          | _ => None
          end
      | None => None
      end
  | BFinish k =>
      match nth_error (bs_workers s) k with
      | Some w =>
          match w_phase w with
          | BIdle =>
              if w_iter w >=? iters then
                match finalizeBatch (w_result w) with
                | Some result =>
                    Some (setWorker s (bs_sem s) k
                            (mkWorker (w_query w) (w_iter w) BDone result))
                | None => None
                end
              else None
          | _ => None
          end
      | None => None
      end
  end.

Fixpoint batchTrace (qe : QueryExecutor) (iters : Z) (s : BatchState)
  (ls : list BatchLabel) : option BatchState :=
  match ls with
  | [] => Some s
  | l :: ls' =>
      match batchStep qe iters s l with
      | Some s' => batchTrace qe iters s' ls'
      | None => None
      end
  end.

Definition holdsBatchSlot (w : worker) : bool :=
  match w_phase w with BExec | BHold _ => true | _ => false end.

Definition batchExecuting (w : worker) : bool :=
  match w_phase w with BExec => true | _ => false end.

Definition batchInFlight (s : BatchState) : Z := len (filter batchExecuting (bs_workers s)).

(** ** Definitions used to state the properties *)

(** Rounding [P / 2 ^ s] to the nearest integer, ties to even: what
    [binary_round_aux] computes when it drops [s] bits. *)
Definition rne (P s : Z) : Z :=
  let q := P / 2 ^ s in
  let R := P mod 2 ^ s in
  if 2 * R <? 2 ^ s then q
  else if 2 ^ s <? 2 * R then q + 1
  else if Z.even q then q else q + 1.

(** The state of [shr_1] after [k] shifts of [m]. *)
Definition shr_inv (m : Z) (k : Z) : shr_record :=
  Build_shr_record (m / 2 ^ k) (2 ^ k <=? 2 * (m mod 2 ^ k))
    (negb (m mod 2 ^ k =? 0) && negb (2 * (m mod 2 ^ k) =? 2 ^ k)).

(** The index of the nearest-rank method for the percentile [p] (a whole
    number of percent) of [n] samples: [min (floor (n * p / 100)) (n - 1)]. *)
Definition nearestRank (n p : Z) : Z := Z.min (n * p / 100) (n - 1).

(** [floor(n * percentile / 100)] as [CalculatePercentile] evaluates it, in
    binary64. *)
Definition pctIdx (n : Z) (percentile : float64) : Z :=
  int_of_floor (f64_div (f64_mul (f64_of_int n) percentile) (f64_of_int 100)).

(** The same index for a percentile given as a binary64 number, in exact
    arithmetic: [min (floor (n * p / 100)) (n - 1)] for the exact value
    [p = m * 2 ^ e] of a finite float. *)
Definition exactRank (n : Z) (p : float64) : option Z :=
  match p with
  | S754_zero _ => Some (Z.min 0 (n - 1))
  | S754_finite s m e =>
      let sm := if s then Z.neg m else Z.pos m in
      Some (Z.min (if 0 <=? e then n * sm * 2 ^ e / 100
                   else n * sm / (100 * 2 ^ (- e)))
                  (n - 1))
  | _ => None
  end.

(** The standard deviation with the population convention: the square root
    of the sum of the squared deviations divided by N. *)
Definition populationStdDev (durations : list Duration) (mean : Duration) : Duration :=
  int_of_f64
    (f64_sqrt (f64_div (f64_of_int (sumSquares durations mean)) (f64_of_int (len durations)))).

(** The outcomes of a query's executions. *)
Definition failed (qr : queryResult) : bool :=
  match err qr with Some _ => true | None => false end.

Definition okDurations (completions : list queryResult) : list Duration :=
  map duration (filter (fun qr => negb (failed qr)) completions).

Definition errMessages (completions : list queryResult) : list string :=
  flat_map (fun qr => match err qr with Some m => [m] | None => [] end) completions.

Definition batchErrMessages (executions : list QueryExecution.t) : list string :=
  map QueryExecution.ErrorMessage (filter (fun e => negb (succeeded e)) executions).

(** The smallest duration of a list, starting from [d0]. *)
Definition minFrom (d0 : Duration) (ds : list Duration) : Duration :=
  fold_left Z.min ds d0.

(** The overall average as the specification words it: the mean of the
    per-query averages of the queries whose average is defined. *)
Definition averageOfDefined (results : list QueryResult.t) : Duration :=
  let defined := filter (fun r => QueryResult.SuccessfulExecutions r >? 0) results in
  Z.quot (fold_right Z.add 0 (map QueryResult.AvgDuration defined)) (len defined).

(** The aggregate of the comparison as the specification words it: each side
    adds up the queries that have a successful execution in both runs. *)
Definition successfulIn (qs : list QueryResult.t) (name : string) : bool :=
  existsb
    (fun q => String.eqb (QueryResult.Name q) name && (QueryResult.SuccessfulExecutions q >? 0))
    qs.

Definition sumSuccessfulInBoth (qs other : list QueryResult.t) : Duration * Z :=
  sumSuccessful (filter (fun q => successfulIn other (QueryResult.Name q)) qs).

(** Sample data: the query of the end-to-end scenario of the specification,
    an execution that succeeds in [d] nanoseconds and one that fails with
    the message [m]. *)
Definition sampleQuery : Query.t := Query.mk "select-one" EmptyString "SELECT 1" 5.

Definition okRun (d : Duration) : queryResult := mkQueryResult d 0 None 0.
Definition failRun (d : Duration) (m : string) : queryResult := mkQueryResult d 0 (Some m) 0.

Definition okExec (d : Duration) : QueryExecution.t :=
  QueryExecution.mk "SELECT 1" 0 d 0 None EmptyString.
Definition failExec (d : Duration) (m : string) : QueryExecution.t :=
  QueryExecution.mk "SELECT 1" 0 d 0 (Some m) m.

(** The results of a batch of two queries: one whose two executions
    succeed, one whose two executions fail. *)
Definition sampleResults : list QueryResult.t :=
  match batchQuery sampleQuery
          [okExec (100 * Millisecond); okExec (300 * Millisecond)],
        batchQuery (Query.mk "join-two" EmptyString
                      "SELECT a FROM t JOIN u ON t.id = u.id ORDER BY a" 3)
          [failExec (2 * Millisecond) "Lock wait timeout exceeded";
           failExec Millisecond "Deadlock found"] with
  | Some r1, Some r2 => [r1; r2]
  | _, _ => []
  end.

(** The eight labels of [classifyErrorMessage] and the four tiers of
    [AnalyzeQueryComplexity]. *)
Definition errorLabels : list string :=
  ["Deadlock"; "Lock timeout"; "Foreign key constraint"; "Duplicate entry";
   "Data truncation/range"; "Type conversion"; "Query timeout"; "Other error"].

Definition complexityTiers : list string := ["high"; "medium"; "low-medium"; "low"].

(** All the error details of a list of results, in order. *)
Definition allErrorDetails (results : list QueryResult.t) : list string :=
  flat_map QueryResult.ErrorDetails results.

(** The number of messages that [classifyErrorMessage] gives the label
    [label]. *)
Definition classifiedAs (label : string) (msgs : list string) : Z :=
  len (filter (fun msg => String.eqb label (classifyErrorMessage msg)) msgs).

(** Text made of ASCII characters only. *)
Definition isASCII (s : string) : bool :=
  forallb (fun c => (nat_of_ascii c <? 128)%nat) (list_ascii_of_string s).

(** The queries whose name starts with [queryType], whatever the case. *)
Definition ofType (queryType : string) (q : Query.t) : bool :=
  HasPrefix (ToLower (Query.Name q)) (ToLower queryType).

(** The last result of a run with the name [name]. *)
Definition lastNamed (name : string) (qs : list QueryResult.t) : option QueryResult.t :=
  find (fun q => String.eqb name (QueryResult.Name q)) (rev qs).

(** An execution of [ExecuteBatch] as [Run] records it. *)
Definition asRun (e : QueryExecution.t) : queryResult :=
  mkQueryResult (QueryExecution.Duration e) (QueryExecution.RowCount e)
    (QueryExecution.Error e) (QueryExecution.StartTime e).

(** The message of an execution is the message of its error, as
    [ExecuteQuery] sets it. *)
Definition messageOfError (e : QueryExecution.t) : Prop :=
  match QueryExecution.Error e with
  | Some m => QueryExecution.ErrorMessage e = m
  | None => True
  end.

(** The sum of a list of integers, and the sum of the squared deviations of
    a list of durations from [mean], without overflow. *)
Definition sumZ (l : list Z) : Z := fold_right Z.add 0 l.

Definition sumSquaresZ (durations : list Duration) (mean : Duration) : Z :=
  sumZ (map (fun d => (d - mean) * (d - mean)) durations).

(** The sum of a list of machine integers, as a loop computes it. *)
Definition sum64 (l : list Z) : Z := fold_left add64 l 0.

(** ** Invariants and measures of the two schedulers *)

(** The invariant of [Run]: the channel holds one token per goroutine that
    has not released its slot, never more than its capacity; between two
    queries every goroutine has released its slot. *)
Definition runInv (a : Analyzer) (s : RunState) : Prop :=
  rs_sem s = len (filter holdsSlot (rs_go s)) /\
  rs_sem s <= Z.max 0 (concurrency a) /\
  (rs_cur s = None -> forallb (fun p => negb (holdsSlot p)) (rs_go s) = true).

(** The invariant of [ExecuteBatch]. *)
Definition batchInv (qe : QueryExecutor) (s : BatchState) : Prop :=
  bs_sem s = len (filter holdsBatchSlot (bs_workers s)) /\
  bs_sem s <= Z.max 0 (qe_concurrency qe).

Definition merged (p : gphase) : bool :=
  match p with GMerged | GDone => true | _ => false end.

(** The result of a query that [Run] has finished: the merge of exactly
    [iterations] executions, in some order of completion. *)
Definition finishedBy (a : Analyzer) (query : Query.t) (r : QueryResult.t) : Prop :=
  exists completions,
    len completions = Z.max 0 (iterations a) /\ runQuery query completions = Some r.

Definition curList (s : RunState) : list Query.t :=
  match rs_cur s with Some q => [q] | None => [] end.

Definition runResultsInv (a : Analyzer) (s : RunState) : Prop :=
  exists done,
    queries a = done ++ curList s ++ rs_todo s /\
    Forall2 (finishedBy a) done (rs_results s) /\
    match rs_cur s with
    | Some query =>
        exists completions,
          rs_acc s = fold_left (mergeRun query) completions (newResult query, []) /\
          len completions = len (filter merged (rs_go s)) /\
          len (rs_go s) = rs_i s /\
          rs_i s <= Z.max 0 (iterations a)
    | None => True
    end.

(** The work a goroutine has left, and the work [Run] has left. *)
Definition phaseWork (p : gphase) : Z :=
  match p with GExec => 3 | GGot _ => 2 | GMerged => 1 | GDone => 0 end.

Definition runWork (a : Analyzer) (s : RunState) : Z :=
  len (rs_todo s) * (4 * Z.max 0 (iterations a) + 2) +
  match rs_cur s with
  | Some _ => 1 + 4 * (Z.max 0 (iterations a) - rs_i s) + sumZ (map phaseWork (rs_go s))
  | None => 0
  end.

Definition batchFinishedBy (iters : Z) (query : Query.t) (r : QueryResult.t) : Prop :=
  exists executions,
    len executions = Z.max 0 iters /\ batchQuery query executions = Some r.

Definition busy (w : worker) : bool :=
  match w_phase w with BExec | BHold _ | BGot _ => true | _ => false end.

Definition finished (w : worker) : bool :=
  match w_phase w with BDone => true | _ => false end.

Definition workerInv (iters : Z) (w : worker) : Prop :=
  match w_phase w with
  | BDone => batchFinishedBy iters (w_query w) (w_result w)
  | _ =>
      exists executions,
        w_result w = fold_left mergeBatch executions (newResult (w_query w)) /\
        len executions = w_iter w /\
        w_iter w <= Z.max 0 iters /\
        (busy w = true -> w_iter w < iters)
  end.

Definition batchResultsInv (iters : Z) (qs : list Query.t) (s : BatchState) : Prop :=
  map w_query (bs_workers s) = qs /\ Forall (workerInv iters) (bs_workers s).

(** The work a goroutine of [ExecuteBatch] has left. *)
Definition workerWork (iters : Z) (w : worker) : Z :=
  match w_phase w with
  | BIdle => 1 + 4 * (Z.max 0 iters - w_iter w)
  | BExec => 4 * (Z.max 0 iters - w_iter w)
  | BHold _ => 4 * (Z.max 0 iters - w_iter w) - 1
  | BGot _ => 4 * (Z.max 0 iters - w_iter w) - 2
  | BDone => 0
  end.

Definition batchWork (iters : Z) (s : BatchState) : Z :=
  sumZ (map (workerWork iters) (bs_workers s)).

(** The executions that [ExecuteQuery] returned to the goroutine of the
    query at index [k] along a trace, in the order of their return. *)
Definition batchReturned (l : BatchLabel) (k : nat) : list QueryExecution.t :=
  match l with
  | BReturn k' e => if Nat.eqb k k' then [e] else []
  | _ => []
  end.

Definition batchReturns (k : nat) (ls : list BatchLabel) : list QueryExecution.t :=
  flat_map (fun l => batchReturned l k) ls.

(** What a goroutine of [ExecuteBatch] has made of the executions returned
    to it. *)
Definition workerTied (iters : Z) (returned : list QueryExecution.t) (w : worker) : Prop :=
  match w_phase w with
  | BIdle =>
      w_result w = fold_left mergeBatch returned (newResult (w_query w)) /\
      len returned = w_iter w /\ w_iter w <= Z.max 0 iters
  | BExec =>
      w_result w = fold_left mergeBatch returned (newResult (w_query w)) /\
      len returned = w_iter w /\ w_iter w < iters
  | BHold e | BGot e =>
      exists merged,
        returned = merged ++ [e] /\
        w_result w = fold_left mergeBatch merged (newResult (w_query w)) /\
        len merged = w_iter w /\ w_iter w < iters
  | BDone =>
      len returned = Z.max 0 iters /\
      batchQuery (w_query w) returned = Some (w_result w)
  end.

Definition batchTiedInv (iters : Z) (qs : list Query.t) (ls : list BatchLabel)
  (s : BatchState) : Prop :=
  map w_query (bs_workers s) = qs /\
  forall k w, nth_error (bs_workers s) k = Some w -> workerTied iters (batchReturns k ls) w.

(** The executions that [executeQuery] returned along a trace of [Run]: one
    list for each query that [Run] has finished, in the order of their
    return, and the list of the query in hand. *)
Definition runReturnsStep (acc : list (list queryResult) * list queryResult)
  (l : RunLabel) : list (list queryResult) * list queryResult :=
  match l with
  | RNext => (fst acc, [])
  | RReturn _ qr => (fst acc, snd acc ++ [qr])
  | RWait => (fst acc ++ [snd acc], [])
  | _ => acc
  end.

Definition runReturns (ls : list RunLabel) : list (list queryResult) :=
  fst (fold_left runReturnsStep ls ([], [])).

(** The execution a goroutine has received and not yet merged. *)
Definition pending (p : gphase) : list queryResult :=
  match p with GGot qr => [qr] | _ => [] end.

Inductive Forall3 {A B C : Type} (P : A -> B -> C -> Prop)
  : list A -> list B -> list C -> Prop :=
| Forall3_nil : Forall3 P [] [] []
| Forall3_cons x y z l1 l2 l3 :
    P x y z -> Forall3 P l1 l2 l3 -> Forall3 P (x :: l1) (y :: l2) (z :: l3).

(** The result of a query is made of the executions returned for it: the
    merge, in some order, of each of them once. *)
Definition finishedFrom (a : Analyzer) (query : Query.t) (r : QueryResult.t)
  (returned : list queryResult) : Prop :=
  exists completions,
    Permutation completions returned /\
    len returned = Z.max 0 (iterations a) /\
    runQuery query completions = Some r.

Definition runTiedInv (a : Analyzer) (acc : list (list queryResult) * list queryResult)
  (s : RunState) : Prop :=
  exists done,
    queries a = done ++ curList s ++ rs_todo s /\
    Forall3 (finishedFrom a) done (rs_results s) (fst acc) /\
    match rs_cur s with
    | Some query =>
        exists completions,
          rs_acc s = fold_left (mergeRun query) completions (newResult query, []) /\
          Permutation (completions ++ flat_map pending (rs_go s)) (snd acc) /\
          len completions = len (filter merged (rs_go s)) /\
          len (rs_go s) = rs_i s /\
          rs_i s <= Z.max 0 (iterations a)
    | None => True
    end.

(** * Properties *)

(** ** binary64: multiplication of an integer by a constant *)

Lemma iter_pos_nat {A} (f : A -> A) (p : positive) (x : A) :
  iter_pos f p x = Nat.iter (Pos.to_nat p) f x.
Proof.
  revert x. induction p as [p IH|p IH|]; intros x; cbn [iter_pos].
  - rewrite !IH. rewrite Pos2Nat.inj_xI.
    replace (S (2 * Pos.to_nat p))%nat with (Pos.to_nat p + (Pos.to_nat p + 1))%nat by lia.
    rewrite !Nat.iter_add. reflexivity.
  - rewrite !IH. rewrite Pos2Nat.inj_xO.
    replace (2 * Pos.to_nat p)%nat with (Pos.to_nat p + Pos.to_nat p)%nat by lia.
    rewrite Nat.iter_add. reflexivity.
  - reflexivity.
Qed.

Lemma shr_1_nonneg m r s : 0 <= m ->
  shr_1 (Build_shr_record m r s) = Build_shr_record (m / 2) (Z.odd m) (r || s).
Proof.
  intros Hm. destruct m as [|p|p]; [reflexivity| |lia].
  destruct p as [p|p|]; cbn [shr_1].
  - f_equal. rewrite Pos2Z.inj_xI. 
    replace (2 * Z.pos p + 1) with (1 + Z.pos p * 2) by lia.
    rewrite Z.div_add by lia. reflexivity.
  - f_equal. rewrite Pos2Z.inj_xO. rewrite Z.mul_comm, Z.div_mul by lia. reflexivity.
  - reflexivity.
Qed.

Lemma shr_iter m (k : nat) : 0 <= m ->
  Nat.iter k shr_1 (Build_shr_record m false false) = shr_inv m (Z.of_nat k).
Proof.
  intros Hm. induction k as [|k IH].
  - unfold Nat.iter; cbn [nat_rect]. unfold shr_inv. change (2 ^ Z.of_nat 0) with 1.
    rewrite Z.div_1_r, Z.mod_1_r. reflexivity.
  - rewrite Nat.iter_succ, IH. unfold shr_inv.
    assert (Hk : 0 < 2 ^ Z.of_nat k) by (apply Z.pow_pos_nonneg; lia).
    rewrite shr_1_nonneg by (apply Z.div_pos; lia).
    rewrite Nat2Z.inj_succ, Z.pow_succ_r by lia.
    set (K := 2 ^ Z.of_nat k) in *.
    assert (Hdm := Z.div_mod m K ltac:(lia)).
    assert (Hr := Z.mod_pos_bound m K ltac:(lia)).
    set (q := m / K) in *. set (R := m mod K) in *.
    assert (Hq : 0 <= q) by (subst q; apply Z.div_pos; lia).
    assert (Hdm2 := Z.div_mod q 2 ltac:(lia)).
    assert (Hr2 := Z.mod_pos_bound q 2 ltac:(lia)).
    assert (Hdiv : m / (2 * K) = q / 2).
    { subst q. rewrite Z.mul_comm. rewrite Z.div_div by lia. reflexivity. }
    assert (Hmod : m mod (2 * K) = R + (q mod 2) * K).
    { symmetry. apply Z.mod_unique with (q := q / 2); nia. }
    rewrite Hdiv, Hmod. rewrite Zodd_mod.
    assert (Hb : q mod 2 = 0 \/ q mod 2 = 1) by lia.
    clear Hdm Hdm2 Hdiv Hmod IH.
    destruct Hb as [Hb|Hb]; rewrite Hb in *;
      [replace (R + 0 * K) with R by lia | replace (R + 1 * K) with (R + K) by lia];
    f_equal.
    all: repeat match goal with
         | |- context [Z.leb ?a ?b] => destruct (Z.leb_spec a b)
         | |- context [Z.eqb ?a ?b] => destruct (Z.eqb_spec a b)
         end; cbn; try reflexivity; try lia.
Qed.

Lemma round_shr m k : 0 <= m -> 0 <= k ->
  round_nearest_even (shr_m (shr_inv m k)) (loc_of_shr_record (shr_inv m k)) = rne m k.
Proof.
  intros Hm Hk. unfold shr_inv, rne. cbn [shr_m loc_of_shr_record].
  assert (HK : 0 < 2 ^ k) by (apply Z.pow_pos_nonneg; lia).
  set (K := 2 ^ k) in *.
  assert (Hr := Z.mod_pos_bound m K ltac:(lia)).
  set (q := m / K) in *. set (R := m mod K) in *.
  destruct (Z.leb_spec K (2 * R)); destruct (Z.eqb_spec R 0);
    destruct (Z.eqb_spec (2 * R) K); destruct (Z.ltb_spec (2 * R) K);
    destruct (Z.ltb_spec K (2 * R)); cbn; try reflexivity; try lia.
Qed.

Lemma digits2_bounds p : 2 ^ (Z.pos (digits2_pos p) - 1) <= Z.pos p < 2 ^ Z.pos (digits2_pos p).
Proof.
  induction p as [p IH|p IH|]; cbn [digits2_pos].
  - rewrite Pos2Z.inj_succ. change (Z.pos p~1) with (2 * Z.pos p + 1).
    replace (Z.succ (Z.pos (digits2_pos p)) - 1) with (Z.succ (Z.pos (digits2_pos p) - 1)) by lia.
    rewrite !Z.pow_succ_r by lia. lia.
  - rewrite Pos2Z.inj_succ. change (Z.pos p~0) with (2 * Z.pos p).
    replace (Z.succ (Z.pos (digits2_pos p)) - 1) with (Z.succ (Z.pos (digits2_pos p) - 1)) by lia.
    rewrite !Z.pow_succ_r by lia. lia.
  - cbn. lia.
Qed.

Lemma Zdigits2_unique P d : 0 < P -> 2 ^ (d - 1) <= P < 2 ^ d -> Zdigits2 P = d.
Proof.
  intros HP [Hlo Hhi]. destruct P as [|p|p]; try lia. cbn [Zdigits2].
  pose proof (digits2_bounds p) as [Blo Bhi].
  set (d' := Z.pos (digits2_pos p)) in *.
  assert (Hd : 0 < d).
  { destruct (Z.ltb_spec 0 d); [assumption|].
    exfalso. destruct (Z.eqb_spec d 0) as [->|]; [cbn in Hhi; lia|].
    rewrite Z.pow_neg_r in Hhi by lia. lia. }
  assert (d' - 1 < d) by (apply (Z.pow_lt_mono_r_iff 2); lia).
  assert (d - 1 < d') by (apply (Z.pow_lt_mono_r_iff 2); lia).
  lia.
Qed.

Lemma rne_bounds x g : 0 <= x -> 0 <= g ->
  x / 2 ^ g <= rne x g <= x / 2 ^ g + 1.
Proof.
  intros. unfold rne.
  repeat match goal with |- context [if ?b then _ else _] => destruct b end; lia.
Qed.

Lemma rne_exact x : rne x 0 = x.
Proof.
  unfold rne. change (2 ^ 0) with 1. rewrite Z.div_1_r, Z.mod_1_r. reflexivity.
Qed.

Lemma rne_ge x g j : 0 <= x -> 0 <= g -> 2 * (j * 2 ^ g - x) < 2 ^ g -> j <= rne x g.
Proof.
  intros Hx Hg H. unfold rne.
  assert (HG : 0 < 2 ^ g) by (apply Z.pow_pos_nonneg; lia).
  set (G := 2 ^ g) in *.
  pose proof (Z.div_mod x G ltac:(lia)) as Hdm.
  pose proof (Z.mod_pos_bound x G ltac:(lia)) as Hr.
  set (q := x / G) in *. set (R := x mod G) in *.
  assert (j <= q + 1) by nia.
  destruct (Z.ltb_spec (2 * R) G); [nia|].
  destruct (Z.ltb_spec G (2 * R)); [lia|].
  destruct (Z.even q); nia.
Qed.

Lemma rne_lt x g j : 0 <= x -> 0 <= g -> x + 2 ^ g < j * 2 ^ g -> rne x g < j.
Proof.
  intros Hx Hg H.
  pose proof (rne_bounds x g Hx Hg) as [_ Hub].
  assert (HG : 0 < 2 ^ g) by (apply Z.pow_pos_nonneg; lia).
  set (G := 2 ^ g) in *.
  pose proof (Z.div_mod x G ltac:(lia)) as Hdm.
  pose proof (Z.mod_pos_bound x G ltac:(lia)) as Hr.
  set (q := x / G) in *. nia.
Qed.

Lemma rne_scale x t g : 0 <= x -> 0 <= t -> 0 <= g ->
  rne (x * 2 ^ t) (t + g) = rne x g.
Proof.
  intros Hx Ht Hg. unfold rne.
  assert (HG : 0 < 2 ^ g) by (apply Z.pow_pos_nonneg; lia).
  assert (HT : 0 < 2 ^ t) by (apply Z.pow_pos_nonneg; lia).
  rewrite Z.pow_add_r by lia.
  rewrite (Z.mul_comm x), Z.div_mul_cancel_l by lia.
  rewrite Z.mul_mod_distr_l by lia.
  set (G := 2 ^ g) in *. set (T := 2 ^ t) in *.
  set (q := x / G). set (R := x mod G).
  destruct (Z.ltb_spec (2 * R) G); destruct (Z.ltb_spec (2 * (T * R)) (T * G)); try nia;
    try reflexivity.
  destruct (Z.ltb_spec G (2 * R)); destruct (Z.ltb_spec (T * G) (2 * (T * R))); try nia; reflexivity.
Qed.

Lemma shr_exact m e s : 0 <= m -> 0 <= s ->
  let '(mrs, e') := shr (Build_shr_record m false false) e s in
  round_nearest_even (shr_m mrs) (loc_of_shr_record mrs) = rne m s /\ e' = e + s.
Proof.
  intros Hm Hs. unfold shr. destruct s as [|p|p]; try lia.
  - cbn [shr_m loc_of_shr_record round_nearest_even]. rewrite rne_exact. split; [reflexivity|lia].
  - rewrite iter_pos_nat, shr_iter by assumption.
    rewrite positive_nat_Z. split; [apply round_shr; lia|reflexivity].
Qed.

Lemma binary_round_aux_exact P e d :
  0 < P -> Zdigits2 P = d -> 53 <= d -> -1074 <= d + e - 53 -> d + e - 53 < 971 ->
  binary_round_aux 53 1024 false P e loc_Exact =
    if rne P (d - 53) <? 2 ^ 53
    then S754_finite false (Z.to_pos (rne P (d - 53))) (e + (d - 53))
    else S754_finite false (Z.to_pos (2 ^ 52)) (e + (d - 53) + 1).
Proof.
  intros HP Hd Hd53 Hlo Hhi.
  assert (Hb : 2 ^ (d - 1) <= P < 2 ^ d).
  { destruct P as [|p|p]; try lia. cbn [Zdigits2] in Hd. subst d. apply digits2_bounds. }
  unfold binary_round_aux, shr_fexp, fexp, emin.
  cbn [shr_record_of_loc]. rewrite Hd.
  replace (Z.max (d + e - 53) (3 - 1024 - 53) - e) with (d - 53) by lia.
  pose proof (shr_exact P e (d - 53) ltac:(lia) ltac:(lia)) as Hs.
  destruct (shr {| shr_m := P; shr_r := false; shr_s := false |} e (d - 53)) as [mrs e'].
  destruct Hs as [Hr He]. rewrite Hr. subst e'.
  pose proof (rne_bounds P (d - 53) ltac:(lia) ltac:(lia)) as Hq.
  assert (HG : 0 < 2 ^ (d - 53)) by (apply Z.pow_pos_nonneg; lia).
  assert (Hpow : 2 ^ (d - 1) = 2 ^ 52 * 2 ^ (d - 53)).
  { rewrite <- Z.pow_add_r by lia. f_equal. lia. }
  assert (Hpow' : 2 ^ d = 2 ^ 53 * 2 ^ (d - 53)).
  { rewrite <- Z.pow_add_r by lia. f_equal. lia. }
  assert (Hq1 : 2 ^ 52 <= P / 2 ^ (d - 53)).
  { apply Z.div_le_lower_bound; lia. }
  assert (Hq2 : P / 2 ^ (d - 53) < 2 ^ 53).
  { apply Z.div_lt_upper_bound; lia. }
  set (q' := rne P (d - 53)) in *.
  destruct (Z.ltb_spec q' (2 ^ 53)) as [Hlt|Hge].
  - assert (Hdq : Zdigits2 q' = 53) by (apply Zdigits2_unique; lia).
    rewrite Hdq.
    replace (Z.max (53 + (e + (d - 53)) - 53) (3 - 1024 - 53) - (e + (d - 53))) with 0 by lia.
    cbn [shr shr_m].
    destruct q' as [|p|p] eqn:Eq; try lia.
    destruct (Z.leb_spec (e + (d - 53)) (1024 - 53)); [reflexivity|lia].
  - assert (Eq : q' = 2 ^ 53) by lia. rewrite Eq.
    change (Zdigits2 (2 ^ 53)) with 54.
    replace (Z.max (54 + (e + (d - 53)) - 53) (3 - 1024 - 53) - (e + (d - 53))) with 1 by lia.
    cbn [shr iter_pos shr_1 shr_m Z.pow Z.pow_pos Pos.iter Z.mul Pos.mul].
    destruct (Z.leb_spec (e + (d - 53) + 1) (1024 - 53)); [reflexivity|lia].
Qed.

Lemma Pos_iter_xO p d : Z.pos (Pos.iter xO p d) = Z.pos p * 2 ^ Z.pos d.
Proof.
  induction d as [|d IH] using Pos.peano_ind.
  - cbn [Pos.iter]. change (2 ^ 1) with 2. lia.
  - rewrite Pos.iter_succ, Pos2Z.inj_succ, Z.pow_succ_r by lia.
    change (Z.pos (Pos.iter xO p d)~0) with (2 * Z.pos (Pos.iter xO p d)). lia.
Qed.

Lemma f64_of_int_small n d : 0 < n -> Zdigits2 n = d -> d <= 53 ->
  f64_of_int n = S754_finite false (Z.to_pos (n * 2 ^ (53 - d))) (d - 53).
Proof.
  intros Hn Hd Hd53. destruct n as [|p|p]; try lia.
  cbn [Zdigits2] in Hd.
  pose proof (digits2_bounds p) as Hb. rewrite Hd in Hb.
  assert (0 < d) by (subst d; lia).
  unfold f64_of_int, binary_normalize, binary_round, fexp, emin.
  rewrite Hd. replace (Z.max (d + 0 - 53) (3 - 1024 - 53)) with (d - 53) by lia.
  unfold shl_align.
  assert (HT : 0 < 2 ^ (53 - d)) by (apply Z.pow_pos_nonneg; lia).
  assert (Hdig : 2 ^ (53 - 1) <= Z.pos p * 2 ^ (53 - d) < 2 ^ 53).
  { replace (2 ^ (53 - 1)) with (2 ^ (d - 1) * 2 ^ (53 - d))
      by (rewrite <- Z.pow_add_r by lia; f_equal; lia).
    replace (2 ^ 53) with (2 ^ d * 2 ^ (53 - d))
      by (rewrite <- Z.pow_add_r by lia; f_equal; lia).
    nia. }
  destruct (d - 53 - 0) as [|k|k] eqn:Ek; try lia.
  - assert (E : d = 53) by lia. clear Ek. rewrite E in *.
    rewrite (binary_round_aux_exact (Z.pos p) 0 53) by (cbn [Zdigits2]; lia).
    replace (53 - 53) with 0 by lia. rewrite rne_exact.
    change (2 ^ 0) with 1. rewrite Z.mul_1_r.
    destruct (Z.ltb_spec (Z.pos p) (2 ^ 53)); [reflexivity|lia].
  - assert (Ek' : Z.pos k = 53 - d) by lia.
    pose proof (Pos_iter_xO p k) as Hit. rewrite Ek' in Hit.
    rewrite (binary_round_aux_exact _ (d - 53) 53); try lia.
    + replace (53 - 53) with 0 by lia. rewrite rne_exact. rewrite Hit.
      destruct (Z.ltb_spec (Z.pos p * 2 ^ (53 - d)) (2 ^ 53)); [|lia].
      f_equal. lia.
    + apply Zdigits2_unique; rewrite Hit; lia.
Qed.

Lemma trunc_mul_const n M A D B :
  1 <= n -> 2 ^ 52 <= Z.pos M < 2 ^ 53 ->
  0 < D -> 0 <= A -> 0 <= B ->
  D * Z.pos M = A * 2 ^ 53 - B ->
  2 * B * 2 ^ 53 <= D * Z.pos M ->
  2 * D * n <= 2 ^ 53 ->
  f64_trunc (f64_mul (f64_of_int n) (S754_finite false M (-53))) = Some (A * n / D).
Proof.
  intros Hn HM HD HA HB HDM HB2 HDn.
  assert (Hn53 : n < 2 ^ 52) by nia.
  (* the digits of n and of n * M *)
  set (dn := Zdigits2 n).
  assert (Hdn : 2 ^ (dn - 1) <= n < 2 ^ dn).
  { destruct n as [|p|p]; try lia. apply digits2_bounds. }
  assert (Hdn0 : 0 < dn).
  { destruct n as [|p|p]; try lia. subst dn. cbn [Zdigits2]. lia. }
  assert (Hdn52 : dn <= 52).
  { destruct (Z.leb_spec dn 52); [assumption|exfalso].
    assert (2 ^ 52 <= 2 ^ (dn - 1)) by (apply Z.pow_le_mono_r; lia). lia. }
  set (x := n * Z.pos M).
  assert (Hx : 0 < x) by (subst x; nia).
  set (dx := Zdigits2 x).
  assert (Hdx : 2 ^ (dx - 1) <= x < 2 ^ dx).
  { subst dx. destruct x as [|p|p]; try lia. apply digits2_bounds. }
  assert (Hdx53 : 53 <= dx).
  { destruct (Z.leb_spec 53 dx); [assumption|exfalso].
    assert (2 ^ dx <= 2 ^ 52) by (apply Z.pow_le_mono_r; lia). nia. }
  assert (Hdx105 : dx <= 105).
  { destruct (Z.leb_spec dx 105); [assumption|exfalso].
    assert (2 ^ 105 <= 2 ^ (dx - 1)) by (apply Z.pow_le_mono_r; lia).
    assert (x < 2 ^ 52 * 2 ^ 53) by (subst x; nia).
    change (2 ^ 52 * 2 ^ 53) with (2 ^ 105) in *. lia. }
  set (g := dx - 53).
  set (t := 53 - dn).
  assert (HG : 0 < 2 ^ g) by (apply Z.pow_pos_nonneg; lia).
  assert (HT : 0 < 2 ^ t) by (apply Z.pow_pos_nonneg; lia).
  (* float64(n) *)
  rewrite (f64_of_int_small n dn) by (fold dn; lia).
  fold t. replace (dn - 53) with (- t) by lia.
  assert (Hnt : 0 < n * 2 ^ t) by nia.
  unfold f64_mul, SFmul. cbn [xorb].
  assert (HP : Z.pos (Z.to_pos (n * 2 ^ t) * M) = x * 2 ^ t).
  { rewrite Pos2Z.inj_mul, Z2Pos.id by lia. subst x. lia. }
  rewrite HP.
  assert (HdP : Zdigits2 (x * 2 ^ t) = t + dx).
  { apply Zdigits2_unique; [nia|].
    replace (t + dx - 1) with ((dx - 1) + t) by lia.
    replace (t + dx) with (dx + t) by lia.
    rewrite !Z.pow_add_r by lia. nia. }
  rewrite (binary_round_aux_exact (x * 2 ^ t) (- t + -53) (t + dx));
    [ | nia | exact HdP | lia | lia | lia ].
  replace (t + dx - 53) with (t + g) by lia.
  rewrite rne_scale by lia.
  replace (- t + -53 + (t + g)) with (- (53 - g)) by lia.
  set (h := 53 - g).
  assert (Hh : 0 < h) by lia.
  assert (HH : 0 < 2 ^ h) by (apply Z.pow_pos_nonneg; lia).
  assert (HGH : 2 ^ g * 2 ^ h = 2 ^ 53).
  { rewrite <- Z.pow_add_r by lia. f_equal. lia. }
  assert (Hxg : 2 ^ 52 * 2 ^ g <= x < 2 ^ 53 * 2 ^ g).
  { replace (2 ^ 52 * 2 ^ g) with (2 ^ (dx - 1))
      by (rewrite <- Z.pow_add_r by lia; f_equal; lia).
    replace (2 ^ 53 * 2 ^ g) with (2 ^ dx)
      by (rewrite <- Z.pow_add_r by lia; f_equal; lia).
    assumption. }
  (* the quotient A * n / D *)
  set (k := A * n / D).
  pose proof (Z.div_mod (A * n) D ltac:(lia)) as Hdm.
  pose proof (Z.mod_pos_bound (A * n) D ltac:(lia)) as Hrho.
  fold k in Hdm. set (rho := (A * n) mod D) in *.
  assert (Hk : 0 <= k) by (subst k; apply Z.div_pos; nia).
  assert (HDx : D * x = (D * k + rho) * 2 ^ 53 - B * n) by (subst x; nia).
  assert (Hlow : k * 2 ^ h <= rne x g).
  { apply rne_ge; try lia.
    assert (2 * B * n < D * 2 ^ g) by nia.
    replace (k * 2 ^ h * 2 ^ g) with (k * 2 ^ 53) by nia. nia. }
  assert (Hup : rne x g < (k + 1) * 2 ^ h).
  { apply rne_lt; try lia.
    assert (2 ^ g < 2 * n) by nia.
    replace ((k + 1) * 2 ^ h * 2 ^ g) with ((k + 1) * 2 ^ 53) by nia. nia. }
  assert (Hq52 : 2 ^ 52 <= rne x g <= 2 ^ 53).
  { pose proof (rne_bounds x g ltac:(lia) ltac:(lia)).
    assert (x / 2 ^ g < 2 ^ 53) by (apply Z.div_lt_upper_bound; lia).
    assert (2 ^ 52 <= x / 2 ^ g) by (apply Z.div_le_lower_bound; lia).
    lia. }
  clearbody k rho h t g dn dx x.
  clear Hdn Hdn0 Hdn52 Hdx Hdx53 Hdx105 HP HdP Hxg HDx Hdm Hrho Hnt HDM HB2 HDn.
  destruct (Z.ltb_spec (rne x g) (2 ^ 53)) as [Hlt|Hge].
  - unfold f64_trunc.
    destruct (Z.leb_spec 0 (- h)); [lia|].
    rewrite Z2Pos.id by lia. rewrite Z.opp_involutive.
    rewrite Z.quot_div_nonneg by lia.
    f_equal. symmetry. apply Z.div_unique with (r := rne x g - k * 2 ^ h); lia.
  - assert (Eq : rne x g = 2 ^ 53) by lia.
    rewrite Eq in Hlow, Hup. clear Eq Hq52 Hge.
    unfold f64_trunc.
    replace (Z.pos (Z.to_pos (2 ^ 52))) with (2 ^ 52) by reflexivity.
    assert (Hh1 : 2 ^ h = 2 * 2 ^ (h - 1)).
    { rewrite <- Z.pow_succ_r by lia. f_equal. lia. }
    assert (0 < 2 ^ (h - 1)) by (apply Z.pow_pos_nonneg; lia).
    destruct (Z.leb_spec 0 (- h + 1)).
    + assert (E1 : h = 1) by lia. rewrite E1 in *.
      change (- (1) + 1) with 0. change (2 ^ 0) with 1. change (2 ^ 1) with 2 in *.
      f_equal. lia.
    + rewrite Z.quot_div_nonneg by lia.
      replace (- (- h + 1)) with (h - 1) by lia.
      f_equal. symmetry.
      apply Z.div_unique with (r := 2 ^ 52 - k * 2 ^ (h - 1)); lia.
Qed.

(** The three indices of [CalculateStats], computed in binary64, are the
    exact quotients as long as the slice has fewer than [2 ^ 45] elements. *)
Lemma int_of_f64_mul_const n M A D B :
  1 <= n -> 2 ^ 52 <= Z.pos M < 2 ^ 53 ->
  0 < D -> 0 <= A < D -> 0 <= B ->
  D * Z.pos M = A * 2 ^ 53 - B ->
  2 * B * 2 ^ 53 <= D * Z.pos M ->
  2 * D * n <= 2 ^ 53 ->
  rankIdx n (S754_finite false M (-53)) = A * n / D.
Proof.
  intros Hn HM HD HA HB HDM HB2 HDn.
  unfold rankIdx, int_of_f64.
  rewrite (trunc_mul_const n M A D B) by lia.
  assert (Hq : 0 <= A * n / D < n).
  { split; [apply Z.div_pos; nia|apply Z.div_lt_upper_bound; nia]. }
  unfold int_of_option, MinInt64, MaxInt64.
  assert (n < 2 ^ 53) by nia.
  destruct (Z.leb_spec (- 2 ^ 63) (A * n / D)); [|lia].
  destruct (Z.leb_spec (A * n / D) (2 ^ 63 - 1)); [|lia].
  cbn [andb].
  destruct (Z.geb_spec (A * n / D) n); [lia|reflexivity].
Qed.

Lemma rankIdx_nearestRank n :
  1 <= n < 2 ^ 45 ->
  rankIdx n f64_0_5 = nearestRank n 50 /\
  rankIdx n f64_0_95 = nearestRank n 95 /\
  rankIdx n f64_0_99 = nearestRank n 99.
Proof.
  intros Hn. unfold nearestRank, f64_0_5, f64_0_95, f64_0_99.
  assert (H45 : 2 ^ 45 * 256 = 2 ^ 53) by reflexivity.
  repeat split.
  - rewrite (int_of_f64_mul_const n _ 1 2 0) by lia.
    replace (n * 50) with ((1 * n) * 50) by lia. change 100 with (2 * 50).
    rewrite Z.div_mul_cancel_r by lia.
    assert (1 * n / 2 < n) by (apply Z.div_lt_upper_bound; lia). lia.
  - rewrite (int_of_f64_mul_const n _ 19 20 8) by lia.
    replace (n * 95) with ((19 * n) * 5) by lia. change 100 with (20 * 5).
    rewrite Z.div_mul_cancel_r by lia.
    assert (19 * n / 20 < n) by (apply Z.div_lt_upper_bound; lia). lia.
  - rewrite (int_of_f64_mul_const n _ 99 100 8) by lia.
    replace (n * 99) with (99 * n) by lia.
    assert (99 * n / 100 < n) by (apply Z.div_lt_upper_bound; lia). lia.
Qed.

Lemma nearestRank_range n p : 1 <= n -> 0 <= p -> 0 <= nearestRank n p < n.
Proof.
  intros Hn Hp. unfold nearestRank.
  assert (0 <= n * p / 100) by (apply Z.div_pos; nia). lia.
Qed.

(** ** binary64: the quotient of an integer by 100 *)

Lemma digits_le_53 x : 0 < x < 2 ^ 53 -> 0 < Zdigits2 x <= 53.
Proof.
  intros Hx. destruct x as [|q|q]; try lia. cbn [Zdigits2].
  pose proof (digits2_bounds q) as Hb. split; [lia|].
  destruct (Z.leb_spec (Z.pos (digits2_pos q)) 53); [assumption|exfalso].
  assert (2 ^ 53 <= 2 ^ (Z.pos (digits2_pos q) - 1)) by (apply Z.pow_le_mono_r; lia).
  lia.
Qed.

Lemma digits_bounds x : 0 < x -> 2 ^ (Zdigits2 x - 1) <= x < 2 ^ Zdigits2 x.
Proof. intros Hx. destruct x as [|q|q]; try lia. apply digits2_bounds. Qed.

Lemma f64_mul_ints n p :
  0 < n -> 0 < p -> n * p < 2 ^ 53 ->
  f64_mul (f64_of_int n) (f64_of_int p) = f64_of_int (n * p).
Proof.
  intros Hn Hp Hx.
  assert (Hn53 : n < 2 ^ 53) by nia.
  assert (Hp53 : p < 2 ^ 53) by nia.
  set (x := n * p) in *. assert (Hx0 : 0 < x) by (subst x; nia).
  pose proof (digits_le_53 n ltac:(lia)) as Hdn.
  pose proof (digits_le_53 p ltac:(lia)) as Hdp.
  pose proof (digits_le_53 x ltac:(lia)) as Hdx.
  pose proof (digits_bounds n Hn) as Bn.
  pose proof (digits_bounds p Hp) as Bp.
  pose proof (digits_bounds x Hx0) as Bx.
  rewrite (f64_of_int_small n (Zdigits2 n)) by lia.
  rewrite (f64_of_int_small p (Zdigits2 p)) by lia.
  rewrite (f64_of_int_small x (Zdigits2 x)) by lia.
  set (dn := Zdigits2 n) in *. set (dp := Zdigits2 p) in *. set (dx := Zdigits2 x) in *.
  set (tn := 53 - dn). set (tp := 53 - dp). set (tx := 53 - dx).
  assert (HTn : 0 < 2 ^ tn) by (apply Z.pow_pos_nonneg; lia).
  assert (HTp : 0 < 2 ^ tp) by (apply Z.pow_pos_nonneg; lia).
  assert (HTx : 0 < 2 ^ tx) by (apply Z.pow_pos_nonneg; lia).
  (* dn + dp - 1 <= dx *)
  assert (Hdd : dn + dp - 1 <= dx).
  { destruct (Z.leb_spec (dn + dp - 1) dx); [assumption|exfalso].
    assert (2 ^ dx <= 2 ^ (dn + dp - 2)) by (apply Z.pow_le_mono_r; lia).
    replace (dn + dp - 2) with ((dn - 1) + (dp - 1)) in H0 by lia.
    rewrite Z.pow_add_r in H0 by lia. subst x. nia. }
  unfold f64_mul, SFmul. cbn [xorb].
  assert (HP : Z.pos (Z.to_pos (n * 2 ^ tn) * Z.to_pos (p * 2 ^ tp)) = x * 2 ^ (tn + tp)).
  { rewrite Pos2Z.inj_mul, !Z2Pos.id by nia. rewrite Z.pow_add_r by lia. subst x. lia. }
  rewrite HP.
  set (T := tn + tp) in *.
  assert (HT : 0 < 2 ^ T) by (apply Z.pow_pos_nonneg; lia).
  assert (HdP : Zdigits2 (x * 2 ^ T) = T + dx).
  { apply Zdigits2_unique; [nia|].
    replace (T + dx - 1) with ((dx - 1) + T) by lia.
    replace (T + dx) with (dx + T) by lia.
    rewrite !Z.pow_add_r by lia. nia. }
  rewrite (binary_round_aux_exact (x * 2 ^ T) (dn - 53 + (dp - 53)) (T + dx));
    [ | nia | exact HdP | lia | lia | lia ].
  replace (T + dx - 53) with ((T - tx) + 0) by lia.
  replace (x * 2 ^ T) with ((x * 2 ^ tx) * 2 ^ (T - tx)).
  2:{ rewrite <- Z.mul_assoc, <- Z.pow_add_r by lia. do 2 f_equal. lia. }
  rewrite rne_scale by nia. rewrite rne_exact.
  assert (Hm : x * 2 ^ tx < 2 ^ 53).
  { replace (2 ^ 53) with (2 ^ dx * 2 ^ tx)
      by (rewrite <- Z.pow_add_r by lia; f_equal; lia). nia. }
  destruct (Z.ltb_spec (x * 2 ^ tx) (2 ^ 53)); [|lia].
  f_equal. lia.
Qed.
(** The last step of [binary_round_aux]: a mantissa in [2^52, 2^53] is kept,
    the carry [2^53] becoming [2^52] with the next exponent. *)
Lemma round_tail R e :
  2 ^ 52 <= R <= 2 ^ 53 -> -1074 <= e -> e + 1 <= 971 ->
  (let '(mrs, e') := shr_fexp 53 1024 R e loc_Exact in
   match shr_m mrs with
   | 0 => S754_zero false
   | Z.pos m => if e' <=? 1024 - 53 then S754_finite false m e' else S754_infinity false
   | Z.neg _ => S754_nan
   end) =
  if R <? 2 ^ 53 then S754_finite false (Z.to_pos R) e
  else S754_finite false (Z.to_pos (2 ^ 52)) (e + 1).
Proof.
  intros HR Hlo Hhi. unfold shr_fexp, fexp, emin. cbn [shr_record_of_loc].
  destruct (Z.ltb_spec R (2 ^ 53)) as [Hlt|Hge].
  - assert (Hd : Zdigits2 R = 53) by (apply Zdigits2_unique; lia).
    rewrite Hd.
    replace (Z.max (53 + e - 53) (3 - 1024 - 53) - e) with 0 by lia.
    cbn [shr shr_m].
    destruct R as [|p|p] eqn:Eq; try lia.
    destruct (Z.leb_spec e (1024 - 53)); [reflexivity|lia].
  - assert (Eq : R = 2 ^ 53) by lia. rewrite Eq.
    change (Zdigits2 (2 ^ 53)) with 54.
    replace (Z.max (54 + e - 53) (3 - 1024 - 53) - e) with 1 by lia.
    cbn [shr iter_pos shr_1 shr_m Z.pow Z.pow_pos Pos.iter Z.mul Pos.mul].
    destruct (Z.leb_spec (e + 1) (1024 - 53)); [reflexivity|lia].
Qed.

(** [binary_round_aux] on a quotient [q] of 53 or 54 digits with the
    location of its remainder: the mantissa is [q] without its last [k]
    digits or one more, and it is one more only if what was dropped is at
    least one half. *)
Lemma binary_round_aux_loc q e loc :
  2 ^ 52 <= q < 2 ^ 54 -> -1074 <= e -> e + 2 <= 971 ->
  exists k R,
    (k = 0 \/ k = 1) /\
    2 ^ (52 + k) <= q < 2 ^ (53 + k) /\
    binary_round_aux 53 1024 false q e loc =
      (if R <? 2 ^ 53 then S754_finite false (Z.to_pos R) (e + k)
       else S754_finite false (Z.to_pos (2 ^ 52)) (e + k + 1)) /\
    2 ^ 52 <= R <= 2 ^ 53 /\
    q / 2 ^ k <= R <= q / 2 ^ k + 1 /\
    (R = q / 2 ^ k + 1 ->
     (k = 0 /\ (loc = loc_Inexact Eq \/ loc = loc_Inexact Gt)) \/
     (k = 1 /\ Z.odd q = true)).
Proof.
  intros Hq Hlo Hhi.
  destruct (Z.ltb_spec q (2 ^ 53)) as [Hlt|Hge].
  - exists 0, (round_nearest_even q loc).
    assert (Hd : Zdigits2 q = 53) by (apply Zdigits2_unique; lia).
    change (2 ^ 0) with 1. rewrite Z.div_1_r, !Z.add_0_r.
    assert (HR : q <= round_nearest_even q loc <= q + 1).
    { destruct loc as [|[| |]]; cbn [round_nearest_even]; try lia.
      destruct (Z.even q); lia. }
    split; [now left|]. split; [lia|]. split; [|split; [lia|split; [exact HR|]]].
    + unfold binary_round_aux.
      assert (Es : shr_fexp 53 1024 q e loc = (shr_record_of_loc q loc, e)).
      { unfold shr_fexp, fexp, emin. rewrite Hd.
        replace (Z.max (53 + e - 53) (3 - 1024 - 53) - e) with 0 by lia. reflexivity. }
      rewrite Es.
      assert (El : round_nearest_even (shr_m (shr_record_of_loc q loc))
                     (loc_of_shr_record (shr_record_of_loc q loc)) =
                   round_nearest_even q loc).
      { destruct loc as [|[| |]]; reflexivity. }
      rewrite El. apply round_tail; lia.
    + intros E. left. split; [reflexivity|].
      destruct loc as [|[| |]]; cbn [round_nearest_even] in E; try lia; auto.
  - assert (Hd : Zdigits2 q = 54) by (apply Zdigits2_unique; lia).
    change (2 ^ 1) with 2.
    assert (Es : shr_fexp 53 1024 q e loc =
                 (shr_1 (shr_record_of_loc q loc), e + 1)).
    { unfold shr_fexp, fexp, emin. rewrite Hd.
      replace (Z.max (54 + e - 53) (3 - 1024 - 53) - e) with 1 by lia. reflexivity. }
    set (rs := shr_1 (shr_record_of_loc q loc)) in *.
    exists 1, (round_nearest_even (shr_m rs) (loc_of_shr_record rs)).
    change (2 ^ 1) with 2.
    assert (Hrs : rs = Build_shr_record (q / 2) (Z.odd q)
                         (shr_r (shr_record_of_loc q loc) || shr_s (shr_record_of_loc q loc))).
    { subst rs. destruct loc as [|[| |]]; cbn [shr_record_of_loc shr_r shr_s];
        apply shr_1_nonneg; lia. }
    assert (Hq2 : 2 ^ 52 <= q / 2 < 2 ^ 53).
    { split; [apply Z.div_le_lower_bound; lia|apply Z.div_lt_upper_bound; lia]. }
    assert (HR : q / 2 <= round_nearest_even (shr_m rs) (loc_of_shr_record rs) <= q / 2 + 1).
    { rewrite Hrs. cbn [shr_m loc_of_shr_record].
      destruct (Z.odd q); destruct (_ || _); cbn [round_nearest_even]; try lia.
      destruct (Z.even (q / 2)); lia. }
    split; [now right|]. split; [cbn; lia|]. split; [|split; [lia|split; [exact HR|]]].
    + unfold binary_round_aux. rewrite Es.
      rewrite round_tail by lia. replace (e + 1 + 1) with (e + 1 + 1) by lia. reflexivity.
    + intros E. right. split; [reflexivity|].
      rewrite Hrs in E. cbn [shr_m loc_of_shr_record] in E.
      destruct (Z.odd q); [reflexivity|].
      destruct (_ || _); cbn [round_nearest_even] in E; lia.
Qed.

Lemma f64_of_int_100 : f64_of_int 100 = S754_finite false 7036874417766400 (-46).
Proof. reflexivity. Qed.

(** Dividing an integer below [2^52] by 100 in binary64 and rounding down
    gives the integer quotient: the rounding of the division never reaches
    the next integer, which is at least 1/100 away. *)
Lemma floor_div_100 x :
  0 < x < 2 ^ 52 ->
  f64_floor (f64_div (f64_of_int x) (f64_of_int 100)) = Some (x / 100).
Proof.
  intros Hx.
  pose proof (digits_le_53 x ltac:(lia)) as Hdx.
  pose proof (digits_bounds x ltac:(lia)) as Bx.
  assert (Hdx52 : Zdigits2 x <= 52).
  { destruct (Z.leb_spec (Zdigits2 x) 52); [assumption|exfalso].
    assert (2 ^ 52 <= 2 ^ (Zdigits2 x - 1)) by (apply Z.pow_le_mono_r; lia). lia. }
  rewrite (f64_of_int_small x (Zdigits2 x)) by lia. rewrite f64_of_int_100.
  set (dx := Zdigits2 x) in *. set (tx := 53 - dx).
  assert (HTx : 0 < 2 ^ tx) by (apply Z.pow_pos_nonneg; lia).
  assert (Hm1 : 2 ^ 52 <= x * 2 ^ tx < 2 ^ 53).
  { replace (2 ^ 52) with (2 ^ (dx - 1) * 2 ^ tx)
      by (rewrite <- Z.pow_add_r by lia; f_equal; lia).
    replace (2 ^ 53) with (2 ^ dx * 2 ^ tx)
      by (rewrite <- Z.pow_add_r by lia; f_equal; lia).
    nia. }
  unfold f64_div, SFdiv. cbn [xorb]. unfold SFdiv_core_binary.
  rewrite Z2Pos.id by lia.
  assert (Hd1 : Zdigits2 (x * 2 ^ tx) = 53) by (apply Zdigits2_unique; lia).
  rewrite Hd1. change (Zdigits2 7036874417766400) with 53.
  unfold fexp, emin.
  replace (Z.min (Z.max (53 + (dx - 53) - (53 + -46) - 53) (3 - 1024 - 53)) (dx - 53 - -46))
    with (dx - 60) by lia.
  replace (dx - 53 - -46 - (dx - 60)) with 53 by lia.
  rewrite Z.shiftl_mul_pow2 by lia.
  set (Y := x * 2 ^ (tx + 7)).
  assert (HY : x * 2 ^ tx * 2 ^ 53 = Y * 2 ^ 46).
  { subst Y. rewrite Z.pow_add_r by lia. change (2 ^ 53) with (2 ^ 7 * 2 ^ 46). lia. }
  rewrite HY. change 7036874417766400 with (100 * 2 ^ 46).
  assert (HY59 : 2 ^ 59 <= Y < 2 ^ 60).
  { subst Y. rewrite Z.pow_add_r by lia.
    change (2 ^ 59) with (2 ^ 52 * 2 ^ 7). change (2 ^ 60) with (2 ^ 53 * 2 ^ 7). lia. }
  pose proof (Z.div_mod Y 100 ltac:(lia)) as HdmY.
  pose proof (Z.mod_pos_bound Y 100 ltac:(lia)) as HrY.
  assert (Hdiv : Z.div_eucl (Y * 2 ^ 46) (100 * 2 ^ 46) = (Y / 100, (Y mod 100) * 2 ^ 46)).
  { pose proof (Z.div_eucl_eq (Y * 2 ^ 46) (100 * 2 ^ 46) ltac:(lia)) as He.
    pose proof (Z.mod_pos_bound (Y * 2 ^ 46) (100 * 2 ^ 46) ltac:(lia)) as Hb.
    unfold Z.modulo in Hb.
    destruct (Z.div_eucl (Y * 2 ^ 46) (100 * 2 ^ 46)) as [q r].
    assert (Eq : q = Y / 100) by (apply Z.div_unique with (r := Y - 100 * q); lia).
    subst q. f_equal. lia. }
  rewrite Hdiv.
  set (q := Y / 100) in *. set (rho := Y mod 100) in *.
  assert (Hq : 2 ^ 52 <= q < 2 ^ 54) by lia.
  destruct (binary_round_aux_loc q (dx - 60) (new_location (100 * 2 ^ 46) (rho * 2 ^ 46))
              Hq ltac:(lia) ltac:(lia))
    as (k & R & Hk & Hqk & Hres & HR & HRq & Hup).
  rewrite Hres. clear Hres.
  assert (HK : 0 < 2 ^ k) by (apply Z.pow_pos_nonneg; lia).
  assert (Hround : R = q / 2 ^ k + 1 ->
                   100 * 2 ^ k <= 2 * (Y - 100 * 2 ^ k * (q / 2 ^ k))).
  { intros E. clear HRq Hqk Hk. destruct (Hup E) as [[Hk0 Hloc]|[Hk1 Hodd]]; subst k.
    - change (2 ^ 0) with 1 in *. rewrite Z.div_1_r.
      unfold new_location in Hloc. change (Z.even (100 * 2 ^ 46)) with true in Hloc.
      unfold new_location_even in Hloc.
      destruct (Z.eqb_spec (rho * 2 ^ 46) 0); [destruct Hloc; discriminate|].
      destruct (Z.compare_spec (2 * (rho * 2 ^ 46)) (100 * 2 ^ 46));
        try (destruct Hloc; discriminate); lia.
    - change (2 ^ 1) with 2 in *.
      pose proof (Z.div_mod q 2 ltac:(lia)) as Hdq.
      rewrite Zodd_mod in Hodd. apply Z.eqb_eq in Hodd. lia. }
  clear Hup.
  (* the grid: [2 ^ w] units per integer *)
  set (w := tx + 7 - k).
  assert (Hw : 7 <= w) by (subst w; lia).
  assert (HW : 128 <= 2 ^ w).
  { change 128 with (2 ^ 7). apply Z.pow_le_mono_r; lia. }
  assert (HYW : Y = x * 2 ^ w * 2 ^ k).
  { subst Y w. rewrite <- Z.mul_assoc, <- Z.pow_add_r by lia. do 2 f_equal. lia. }
  assert (HK12 : 2 ^ k = 1 \/ 2 ^ k = 2) by (destruct Hk as [->| ->]; auto).
  set (F := q / 2 ^ k) in *.
  pose proof (Z.div_mod q (2 ^ k) ltac:(lia)) as Hdq.
  pose proof (Z.mod_pos_bound q (2 ^ k) ltac:(lia)) as Hrq. fold F in Hdq.
  set (X := x * 2 ^ w) in *.
  assert (HF : 100 * F <= X < 100 * F + 100).
  { destruct HK12 as [EK|EK]; rewrite EK in *; lia. }
  assert (Hround' : R = F + 1 -> 50 <= X - 100 * F).
  { intros E. specialize (Hround E).
    destruct HK12 as [EK|EK]; rewrite EK in *; lia. }
  set (M := x / 100).
  pose proof (Z.div_mod x 100 ltac:(lia)) as Hdm.
  pose proof (Z.mod_pos_bound x 100 ltac:(lia)) as Hrx. fold M in Hdm.
  assert (HM0 : 0 <= M) by (subst M; apply Z.div_pos; lia).
  assert (HX : X = 100 * (M * 2 ^ w) + (x mod 100) * 2 ^ w).
  { subst X. rewrite Hdm at 1. ring. }
  assert (HrW : 0 <= (x mod 100) * 2 ^ w <= 99 * 2 ^ w).
  { split; [apply Z.mul_nonneg_nonneg; lia|apply Z.mul_le_mono_nonneg_r; lia]. }
  assert (Hlow : M * 2 ^ w <= R) by lia.
  assert (Hupp : R < (M + 1) * 2 ^ w).
  { rewrite Z.mul_add_distr_r, Z.mul_1_l.
    destruct (Z.eq_dec R (F + 1)) as [E|NE].
    - specialize (Hround' E). lia.
    - assert (R = F) by lia. lia. }
  replace (dx - 60 + k) with (- w) by (subst w tx; lia).
  clearbody M w F X q rho Y tx dx.
  clear - Hlow Hupp HR HW Hw HM0.
  assert (Hw1 : 2 ^ w = 2 * 2 ^ (w - 1)).
  { rewrite <- Z.pow_succ_r by lia. f_equal. lia. }
  assert (0 < 2 ^ (w - 1)) by (apply Z.pow_pos_nonneg; lia).
  unfold f64_floor.
  destruct (Z.ltb_spec R (2 ^ 53)) as [Hlt|Hge].
  - destruct (Z.leb_spec 0 (- w)); [lia|].
    rewrite Z2Pos.id by lia. rewrite Z.opp_involutive.
    f_equal. symmetry. apply Z.div_unique with (r := R - M * 2 ^ w); lia.
  - assert (Eq : R = 2 ^ 53) by lia. rewrite Eq in *.
    replace (Z.pos (Z.to_pos (2 ^ 52))) with (2 ^ 52) by reflexivity.
    destruct (Z.leb_spec 0 (- w + 1)); [lia|].
    replace (- (- w + 1)) with (w - 1) by lia.
    f_equal. symmetry. apply Z.div_unique with (r := 2 ^ 52 - M * 2 ^ (w - 1)); lia.
Qed.

Lemma f64_of_int_finite n :
  0 < n < 2 ^ 53 -> exists m e, f64_of_int n = S754_finite false m e.
Proof.
  intros Hn.
  assert (Hd : Zdigits2 n <= 53).
  { destruct n as [|q|q]; try lia. cbn [Zdigits2].
    pose proof (digits2_bounds q) as Hb.
    destruct (Z.leb_spec (Z.pos (digits2_pos q)) 53); [assumption|exfalso].
    assert (2 ^ 53 <= 2 ^ (Z.pos (digits2_pos q) - 1)) by (apply Z.pow_le_mono_r; lia).
    lia. }
  rewrite (f64_of_int_small n (Zdigits2 n)) by lia. eauto.
Qed.

Lemma pctIdx_zero n : 0 < n < 2 ^ 53 -> pctIdx n (f64_of_int 0) = 0.
Proof.
  intros Hn. unfold pctIdx. destruct (f64_of_int_finite n Hn) as (m & e & ->).
  reflexivity.
Qed.

(** The index of [CalculatePercentile] for a whole number of percent. *)
Lemma pctIdx_whole n p :
  1 <= n < 2 ^ 45 -> 0 <= p <= 100 -> pctIdx n (f64_of_int p) = n * p / 100.
Proof.
  intros Hn Hp.
  destruct (Z.eq_dec p 0) as [->|Hp0].
  - rewrite pctIdx_zero by (change (2 ^ 53) with (2 ^ 45 * 256); lia).
    now rewrite Z.mul_0_r.
  - assert (Hx : 0 < n * p < 2 ^ 52).
    { change (2 ^ 52) with (2 ^ 45 * 128). nia. }
    unfold pctIdx, int_of_floor.
    rewrite f64_mul_ints by (try lia; change (2 ^ 53) with (2 ^ 45 * 256); nia).
    rewrite floor_div_100 by exact Hx.
    assert (0 <= n * p / 100) by (apply Z.div_pos; lia).
    assert (n * p / 100 < 2 ^ 52) by (apply Z.div_lt_upper_bound; lia).
    unfold int_of_option, MinInt64, MaxInt64.
    destruct (Z.leb_spec (- 2 ^ 63) (n * p / 100)); [|lia].
    destruct (Z.leb_spec (n * p / 100) (2 ^ 63 - 1)); [reflexivity|lia].
Qed.

Lemma exactRank_whole n p :
  0 <= p < 2 ^ 53 -> exactRank n (f64_of_int p) = Some (nearestRank n p).
Proof.
  intros Hp. unfold nearestRank.
  destruct (Z.eq_dec p 0) as [->|Hp0].
  - rewrite Z.mul_0_r. reflexivity.
  - pose proof (digits_le_53 p ltac:(lia)) as Hd.
    rewrite (f64_of_int_small p (Zdigits2 p)) by lia.
    set (t := 53 - Zdigits2 p).
    assert (HT : 0 < 2 ^ t) by (apply Z.pow_pos_nonneg; lia).
    unfold exactRank. rewrite Z2Pos.id by nia.
    replace (Zdigits2 p - 53) with (- t) by lia. rewrite Z.opp_involutive.
    destruct (Z.leb_spec 0 (- t)) as [H0|H0].
    + assert (Et : t = 0) by lia. rewrite Et.
      change (- 0) with 0. change (2 ^ 0) with 1. now rewrite !Z.mul_1_r.
    + rewrite Z.mul_assoc, Z.div_mul_cancel_r by lia. reflexivity.
Qed.

(** ** sort.Slice *)

Lemma insert_length x l : length (insert x l) = S (length l).
Proof.
  induction l as [|y t IH]; cbn [insert]; [reflexivity|].
  destruct (x <=? y); cbn [length]; [reflexivity|now rewrite IH].
Qed.

Lemma sort_Slice_length l : length (sort_Slice l) = length l.
Proof.
  induction l as [|x t IH]; cbn [sort_Slice]; [reflexivity|].
  rewrite insert_length, IH. reflexivity.
Qed.

Lemma len_sort_Slice l : len (sort_Slice l) = len l.
Proof. unfold len. now rewrite sort_Slice_length. Qed.

Lemma insert_perm x l : Permutation (x :: l) (insert x l).
Proof.
  induction l as [|y t IH]; cbn [insert]; [apply Permutation_refl|].
  destruct (x <=? y); [apply Permutation_refl|].
  eapply Permutation_trans; [apply perm_swap|]. now apply perm_skip.
Qed.

Lemma sort_Slice_perm l : Permutation l (sort_Slice l).
Proof.
  induction l as [|x t IH]; cbn [sort_Slice]; [constructor|].
  eapply Permutation_trans; [apply perm_skip, IH|apply insert_perm].
Qed.

Lemma insert_sorted x l : LocallySorted Z.le l -> LocallySorted Z.le (insert x l).
Proof.
  induction 1 as [|y|y z t Hs IH Hyz]; cbn [insert].
  - constructor.
  - destruct (Z.leb_spec x y); constructor; try constructor; lia.
  - destruct (Z.leb_spec x y).
    + constructor; [constructor; assumption|assumption].
    + cbn [insert] in IH. destruct (Z.leb_spec x z).
      * constructor; [assumption|lia].
      * constructor; assumption.
Qed.

Lemma sort_Slice_sorted l : LocallySorted Z.le (sort_Slice l).
Proof.
  induction l as [|x t IH]; cbn [sort_Slice]; [constructor|].
  now apply insert_sorted.
Qed.

Lemma sort_Slice_strongly_sorted l : StronglySorted Z.le (sort_Slice l).
Proof.
  apply Sorted_StronglySorted; [intros x y z; lia|].
  apply Sorted_LocallySorted_iff, sort_Slice_sorted.
Qed.

Lemma len_nonneg {A : Type} (l : list A) : 0 <= len l.
Proof. unfold len. lia. Qed.

Lemma len_app {A : Type} (l1 l2 : list A) : len (l1 ++ l2) = len l1 + len l2.
Proof. unfold len. rewrite length_app. lia. Qed.

Lemma len_nil {A : Type} : len (@nil A) = 0.
Proof. reflexivity. Qed.

Lemma len_one {A : Type} (x : A) : len [x] = 1.
Proof. reflexivity. Qed.

Lemma len_zero_nil {A : Type} (l : list A) : len l = 0 -> l = [].
Proof. destruct l; [reflexivity|unfold len; cbn [length]; lia]. Qed.

Lemma index_in_range {A : Type} (l : list A) (i : Z) :
  0 <= i < len l -> exists x, index l i = Some x.
Proof.
  intros Hi. unfold index. destruct (Z.ltb_spec i 0); [lia|].
  destruct (nth_error l (Z.to_nat i)) as [x|] eqn:E; [now exists x|].
  apply nth_error_None in E. unfold len in Hi. lia.
Qed.

Lemma index_In {A : Type} (l : list A) (i : Z) (x : A) : index l i = Some x -> In x l.
Proof.
  unfold index. destruct (i <? 0); [discriminate|]. apply nth_error_In.
Qed.

(** ** pkg/utils/sliceutils.go *)

Lemma CalculateStats_defined (D : list Duration) :
  D <> [] -> len D < 2 ^ 45 ->
  exists mn mx med p95 p99,
    index (sort_Slice D) 0 = Some mn /\
    index (sort_Slice D) (len D - 1) = Some mx /\
    index (sort_Slice D) (nearestRank (len D) 50) = Some med /\
    index (sort_Slice D) (nearestRank (len D) 95) = Some p95 /\
    index (sort_Slice D) (nearestRank (len D) 99) = Some p99 /\
    CalculateStats D =
      Some (mkStats mn mx (quo64 (total (sort_Slice D)) (len D)) med
              (int_of_f64
                 (f64_sqrt
                    (f64_div
                       (f64_of_int
                          (sumSquares (sort_Slice D) (quo64 (total (sort_Slice D)) (len D))))
                       (f64_of_int (len D)))))
              p95 p99 (len D)).
Proof.
  intros Hne Hlen.
  assert (Hn : 1 <= len D).
  { destruct D; [congruence|unfold len; cbn [length]; lia]. }
  destruct (rankIdx_nearestRank (len D) ltac:(lia)) as (E50 & E95 & E99).
  pose proof (nearestRank_range (len D) 50 ltac:(lia) ltac:(lia)) as R50.
  pose proof (nearestRank_range (len D) 95 ltac:(lia) ltac:(lia)) as R95.
  pose proof (nearestRank_range (len D) 99 ltac:(lia) ltac:(lia)) as R99.
  destruct (index_in_range (sort_Slice D) 0) as [mn Hmn]; [rewrite len_sort_Slice; lia|].
  destruct (index_in_range (sort_Slice D) (len D - 1)) as [mx Hmx];
    [rewrite len_sort_Slice; lia|].
  destruct (index_in_range (sort_Slice D) (nearestRank (len D) 50)) as [med Hmed];
    [rewrite len_sort_Slice; lia|].
  destruct (index_in_range (sort_Slice D) (nearestRank (len D) 95)) as [p95 Hp95];
    [rewrite len_sort_Slice; lia|].
  destruct (index_in_range (sort_Slice D) (nearestRank (len D) 99)) as [p99 Hp99];
    [rewrite len_sort_Slice; lia|].
  exists mn, mx, med, p95, p99. repeat (split; [assumption|]).
  unfold CalculateStats.
  destruct (Z.eqb_spec (len D) 0); [lia|].
  rewrite len_sort_Slice, E50, E95, E99, Hmn, Hmx, Hmed, Hp95, Hp99. reflexivity.
Qed.

(** C10, the claim as stated fails: for a percentile that is not a whole
    number [CalculatePercentile] does not always return the element at
    [min (floor (|D| * p / 100)) (|D| - 1)].  With nine durations and
    [p = 11.11111111111111] (the binary64 number
    [6254999482459022 * 2 ^ -49], below [100 / 9]) the exact value of
    [9 * p / 100] is below 1, so that the index of the method is 0 and its
    answer the smallest duration, 10; the program multiplies in binary64,
    where [9 * p = 100 - 2 ^ -48] rounds to [100], and returns the element
    at index 1, which is 20. *)
Theorem C10_fractional_percentile_next_rank :
  let D := [10; 20; 30; 40; 50; 60; 70; 80; 90] in
  let p := S754_finite false 6254999482459022 (-49) in
  StronglySorted Z.le D /\
  0 <= 9 * 6254999482459022 < 100 * 2 ^ 49 /\
  exactRank (len D) p = Some 0 /\
  index D 0 = Some 10 /\
  CalculatePercentile D p = Some 20.
Proof.
  cbv zeta. split; [|repeat split; vm_compute; try reflexivity; discriminate].
  repeat (constructor; [|repeat (constructor; [lia|]); constructor]).
  constructor.
Qed.

(** C10, amended.  The percentiles are nearest-rank percentiles for the
    percentiles of the statistics and for every whole number of percent:
    for a non-empty slice [D] (of fewer than [2 ^ 45] durations), with [sorted]
    the durations of [D] in ascending order, [CalculateStats] returns as
    median, p95 and p99 the elements of [sorted] at the indices
    [min (floor (|D| * p / 100)) (|D| - 1)] for [p] = 50, 95 and 99, and
    [CalculatePercentile D p] returns the element of [sorted] at this index
    for every whole number [p] from 0 to 100, the index being computed in
    exact arithmetic; and for a slice of one element [x] the p95 and the
    p99 are [x]. *)
Theorem C10_nearest_rank_percentiles (D : list Duration) :
  D <> [] -> len D < 2 ^ 45 ->
  exists sorted,
    Permutation sorted D /\ StronglySorted Z.le sorted /\
    (exists st,
        CalculateStats D = Some st /\
        index sorted (nearestRank (len D) 50) = Some (Median st) /\
        index sorted (nearestRank (len D) 95) = Some (P95 st) /\
        index sorted (nearestRank (len D) 99) = Some (P99 st)) /\
    (forall p, 0 <= p <= 100 ->
       exactRank (len D) (f64_of_int p) = Some (nearestRank (len D) p) /\
       exists d,
         CalculatePercentile D (f64_of_int p) = Some d /\
         index sorted (nearestRank (len D) p) = Some d) /\
    (forall x, D = [x] ->
       exists st, CalculateStats D = Some st /\ P95 st = x /\ P99 st = x).
Proof.
  intros Hne Hlen.
  assert (Hn : 1 <= len D).
  { destruct D; [congruence|unfold len; cbn [length]; lia]. }
  destruct (CalculateStats_defined D Hne Hlen)
    as (mn & mx & med & p95 & p99 & Hmn & Hmx & Hmed & Hp95 & Hp99 & Hst).
  exists (sort_Slice D).
  split; [apply Permutation_sym, sort_Slice_perm|].
  split; [apply sort_Slice_strongly_sorted|].
  split; [|split].
  - eexists. split; [exact Hst|]. cbn [Median P95 P99]. auto.
  - intros p Hp.
    split; [apply exactRank_whole; change (2 ^ 53) with 9007199254740992; lia|].
    pose proof (nearestRank_range (len D) p ltac:(lia) ltac:(lia)) as Hr.
    destruct (index_in_range (sort_Slice D) (nearestRank (len D) p))
      as [d Hd]; [rewrite len_sort_Slice; lia|].
    exists d. split; [|exact Hd].
    unfold CalculatePercentile.
    destruct (Z.eqb_spec (len D) 0); [lia|].
    rewrite len_sort_Slice. fold (pctIdx (len D) (f64_of_int p)).
    rewrite pctIdx_whole by lia.
    assert (E : (if len D * p / 100 >=? len D then len D - 1 else len D * p / 100)
                = nearestRank (len D) p).
    { unfold nearestRank. destruct (Z.geb_spec (len D * p / 100) (len D)); lia. }
    rewrite E. exact Hd.
  - intros x ->. eexists. split; [exact Hst|]. cbn [P95 P99].
    cbn in Hp95, Hp99. split; congruence.
Qed.

Lemma C10_nearest_rank_percentiles_witness :
  exists sorted,
    Permutation sorted [30; 10; 20] /\ StronglySorted Z.le sorted /\
    (exists st,
        CalculateStats [30; 10; 20] = Some st /\
        index sorted (nearestRank (len [30; 10; 20]) 50) = Some (Median st) /\
        index sorted (nearestRank (len [30; 10; 20]) 95) = Some (P95 st) /\
        index sorted (nearestRank (len [30; 10; 20]) 99) = Some (P99 st)) /\
    (forall p, 0 <= p <= 100 ->
       exactRank (len [30; 10; 20]) (f64_of_int p) =
         Some (nearestRank (len [30; 10; 20]) p) /\
       exists d,
         CalculatePercentile [30; 10; 20] (f64_of_int p) = Some d /\
         index sorted (nearestRank (len [30; 10; 20]) p) = Some d) /\
    (forall x, [30; 10; 20] = [x] ->
       exists st, CalculateStats [30; 10; 20] = Some st /\ P95 st = x /\ P99 st = x).
Proof.
  apply (C10_nearest_rank_percentiles [30; 10; 20]).
  - discriminate.
  - reflexivity.
Defined.

(** C4.  The two standard deviations of the program do not share one
    convention.  On the durations 0ns and 20ns (mean 10ns, sum of squared
    deviations 200) [CalculateStats] divides by N = 2 and returns
    [sqrt 100 = 10], which is the population value, while
    [CalculateStandardDeviation] divides by N - 1 = 1 and returns
    [floor (sqrt 200) = 14]. *)
Theorem C4_stddev_conventions_differ :
  sumSquares [0; 20] 10 = 200 /\
  populationStdDev [0; 20] 10 = 10 /\
  option_map StdDev (CalculateStats [0; 20]) = Some 10 /\
  CalculateStandardDeviation [0; 20] 10 = 14.
Proof. repeat split; vm_compute; reflexivity. Qed.

(** ** Machine arithmetic *)

Lemma wrap64_small z : - 2 ^ 63 <= z < 2 ^ 63 -> wrap64 z = z.
Proof. intros H. unfold wrap64. rewrite Z.mod_small; lia. Qed.

Lemma wrap64_add_l a b : wrap64 (wrap64 a + b) = wrap64 (a + b).
Proof.
  unfold wrap64.
  replace ((a + 2 ^ 63) mod 2 ^ 64 - 2 ^ 63 + b + 2 ^ 63)
    with ((a + 2 ^ 63) mod 2 ^ 64 + b) by lia.
  rewrite Z.add_mod_idemp_l by lia. f_equal. f_equal. lia.
Qed.

Lemma wrap64_range z : - 2 ^ 63 <= wrap64 z < 2 ^ 63.
Proof.
  unfold wrap64. pose proof (Z.mod_pos_bound (z + 2 ^ 63) (2 ^ 64) ltac:(lia)). lia.
Qed.

Lemma add64_count (n : Z) : add64 (wrap64 n) 1 = wrap64 (n + 1).
Proof. unfold add64. apply wrap64_add_l. Qed.

(** ** The merge of [Analyzer.Run] *)

Lemma okDurations_app cs c :
  okDurations (cs ++ [c]) = okDurations cs ++ (if failed c then [] else [duration c]).
Proof.
  unfold okDurations. rewrite filter_app, map_app. cbn [filter].
  destruct (failed c); reflexivity.
Qed.

Lemma errMessages_app cs c :
  errMessages (cs ++ [c]) =
  errMessages cs ++ (match err c with Some m => [m] | None => [] end).
Proof.
  unfold errMessages. rewrite flat_map_app. cbn [flat_map]. now rewrite app_nil_r.
Qed.

Lemma firstn_snoc {A : Type} (k : nat) (l : list A) (x : A) :
  firstn k (l ++ [x]) = if (length (firstn k l) <? k)%nat then firstn k l ++ [x] else firstn k l.
Proof.
  rewrite firstn_app, length_firstn.
  destruct (Nat.ltb_spec (Nat.min k (length l)) k) as [H|H].
  - replace (k - length l)%nat with (S (k - length l - 1)) by lia. cbn [firstn]. rewrite firstn_nil. reflexivity.
  - replace (k - length l)%nat with 0%nat by lia. cbn [firstn]. now rewrite app_nil_r.
Qed.

Lemma minFrom_app d0 ds d : minFrom d0 (ds ++ [d]) = Z.min (minFrom d0 ds) d.
Proof. unfold minFrom. now rewrite fold_left_app. Qed.

Lemma sum64_app ds d : sum64 (ds ++ [d]) = add64 (sum64 ds) d.
Proof. unfold sum64. now rewrite fold_left_app. Qed.

(** The state of [result] and [durations] after the executions
    [completions] have been merged, in this order. *)
Lemma mergeRun_fold query completions :
  let st := fold_left (mergeRun query) completions (newResult query, []) in
  len (QueryResult.Executions (fst st)) = len completions /\
  QueryResult.SuccessfulExecutions (fst st) = wrap64 (len (okDurations completions)) /\
  QueryResult.Errors (fst st) = wrap64 (len (errMessages completions)) /\
  QueryResult.ErrorDetails (fst st) = firstn 10 (errMessages completions) /\
  QueryResult.MinDuration (fst st) = minFrom Hour (okDurations completions) /\
  QueryResult.TotalDuration (fst st) = sum64 (okDurations completions) /\
  snd st = okDurations completions /\
  QueryResult.MedianDuration (fst st) = 0 /\
  QueryResult.StdDevDuration (fst st) = 0 /\
  QueryResult.Percentile99 (fst st) = 0.
Proof.
  induction completions as [|c cs IH] using rev_ind.
  - cbn. repeat split; reflexivity.
  - cbv zeta in IH |- *. rewrite fold_left_app. cbn [fold_left].
    destruct (fold_left (mergeRun query) cs (newResult query, [])) as [r ds].
    cbn [fst snd] in IH.
    destruct IH as (HE & HS & HF & HD & HM & HT & Hds & Hmed & Hsd & Hp99).
    rewrite okDurations_app, errMessages_app, !len_app.
    unfold mergeRun, failed. destruct (err c) as [msg|];
      cbn [fst snd QueryResult.Executions QueryResult.SuccessfulExecutions
           QueryResult.Errors QueryResult.ErrorDetails QueryResult.MinDuration
           QueryResult.TotalDuration QueryResult.MedianDuration
           QueryResult.StdDevDuration QueryResult.Percentile99].
    + rewrite ?app_nil_r, ?len_app, ?len_one, ?len_nil, ?Z.add_0_r, HE, HS, HF, HD, HM, HT, Hds.
      repeat split; try assumption; try reflexivity; try apply add64_count.
      rewrite firstn_snoc. unfold len.
      destruct (Z.ltb_spec (Z.of_nat (length (firstn 10 (errMessages cs)))) 10);
        destruct (Nat.ltb_spec (length (firstn 10 (errMessages cs))) 10);
        try reflexivity; lia.
    + rewrite ?app_nil_r, ?len_app, ?len_one, ?len_nil, ?Z.add_0_r, HE, HS, HF, HD, HM, HT, Hds.
      rewrite minFrom_app, sum64_app.
      repeat split; try assumption; try reflexivity; try apply add64_count.
      destruct (Z.ltb_spec (duration c) (minFrom Hour (okDurations cs))); lia.
Qed.

Lemma finalizeRun_defined (r : QueryResult.t) (ds : list Duration) :
  len ds < 2 ^ 45 ->
  exists r',
    finalizeRun (r, ds) = Some r' /\
    QueryResult.Executions r' = QueryResult.Executions r /\
    QueryResult.SuccessfulExecutions r' = QueryResult.SuccessfulExecutions r /\
    QueryResult.Errors r' = QueryResult.Errors r /\
    QueryResult.ErrorDetails r' = QueryResult.ErrorDetails r /\
    QueryResult.MinDuration r' = QueryResult.MinDuration r /\
    QueryResult.TotalDuration r' = QueryResult.TotalDuration r /\
    QueryResult.MedianDuration r' = QueryResult.MedianDuration r /\
    QueryResult.StdDevDuration r' = QueryResult.StdDevDuration r /\
    QueryResult.Percentile99 r' = QueryResult.Percentile99 r /\
    QueryResult.AvgDuration r' =
      (if QueryResult.SuccessfulExecutions r >? 0
       then quo64 (QueryResult.TotalDuration r) (QueryResult.SuccessfulExecutions r)
       else QueryResult.AvgDuration r) /\
    (ds <> [] ->
     index (sort_Slice ds) (nearestRank (len ds) 95) = Some (QueryResult.Percentile95 r')).
Proof.
  intros Hlen. unfold finalizeRun.
  destruct (Z.gtb_spec (len ds) 0) as [Hpos|Hz].
  - destruct (rankIdx_nearestRank (len ds) ltac:(lia)) as (_ & E95 & _).
    pose proof (nearestRank_range (len ds) 95 ltac:(lia) ltac:(lia)) as R95.
    destruct (index_in_range (sort_Slice ds) (nearestRank (len ds) 95)) as [p95 Hp95];
      [rewrite len_sort_Slice; lia|].
    rewrite E95, Hp95. eexists. split; [reflexivity|].
    cbn. repeat split; reflexivity.
  - eexists. split; [reflexivity|].
    cbn. repeat split; try reflexivity. intros Hne. exfalso.
    apply Hne, len_zero_nil. pose proof (len_nonneg ds). lia.
Qed.

Lemma len_filter_le {A : Type} (f : A -> bool) (l : list A) : len (filter f l) <= len l.
Proof.
  unfold len. induction l as [|x t IH]; cbn [filter length]; [lia|].
  destruct (f x); cbn [length]; lia.
Qed.

Lemma len_map {A B : Type} (f : A -> B) (l : list A) : len (map f l) = len l.
Proof. unfold len. now rewrite length_map. Qed.

Lemma len_okDurations_le cs : len (okDurations cs) <= len cs.
Proof. unfold okDurations. rewrite len_map. apply len_filter_le. Qed.

Lemma len_ok_err cs : len (okDurations cs) + len (errMessages cs) = len cs.
Proof.
  unfold okDurations, errMessages, failed, len. rewrite length_map.
  induction cs as [|c t IH]; cbn [filter flat_map length]; [reflexivity|].
  destruct (err c); cbn [negb length app]; lia.
Qed.

(** ** The merge of [QueryExecutor.ExecuteBatch] *)

Lemma successDurations_app es e :
  successDurations (es ++ [e]) =
  successDurations es ++ (if succeeded e then [QueryExecution.Duration e] else []).
Proof.
  unfold successDurations. rewrite filter_app, map_app. cbn [filter].
  destruct (succeeded e); reflexivity.
Qed.

Lemma batchErrMessages_app es e :
  batchErrMessages (es ++ [e]) =
  batchErrMessages es ++ (if succeeded e then [] else [QueryExecution.ErrorMessage e]).
Proof.
  unfold batchErrMessages. rewrite filter_app, map_app. cbn [filter].
  destruct (succeeded e); reflexivity.
Qed.

Lemma mergeBatch_fold query executions :
  let r := fold_left mergeBatch executions (newResult query) in
  QueryResult.Executions r = executions /\
  QueryResult.SuccessfulExecutions r = wrap64 (len (successDurations executions)) /\
  QueryResult.Errors r = wrap64 (len (batchErrMessages executions)) /\
  QueryResult.ErrorDetails r = firstn 10 (batchErrMessages executions) /\
  QueryResult.MinDuration r = minFrom Hour (successDurations executions) /\
  QueryResult.TotalDuration r = sum64 (successDurations executions).
Proof.
  induction executions as [|e es IH] using rev_ind.
  - cbn. repeat split; reflexivity.
  - cbv zeta in IH |- *. rewrite fold_left_app. cbn [fold_left].
    set (r := fold_left mergeBatch es (newResult query)) in *.
    destruct IH as (HE & HS & HF & HD & HM & HT).
    rewrite successDurations_app, batchErrMessages_app.
    unfold mergeBatch, succeeded. destruct (QueryExecution.Error e) as [msg|];
      cbn [QueryResult.Executions QueryResult.SuccessfulExecutions
           QueryResult.Errors QueryResult.ErrorDetails QueryResult.MinDuration
           QueryResult.TotalDuration].
    + rewrite ?app_nil_r, ?len_app, ?len_one, ?len_nil, ?Z.add_0_r, HE, HS, HF, HD, HM, HT.
      repeat split; try assumption; try reflexivity; try apply add64_count.
      rewrite firstn_snoc. unfold len.
      destruct (Z.ltb_spec (Z.of_nat (length (firstn 10 (batchErrMessages es)))) 10);
        destruct (Nat.ltb_spec (length (firstn 10 (batchErrMessages es))) 10);
        try reflexivity; lia.
    + rewrite ?app_nil_r, ?len_app, ?len_one, ?len_nil, ?Z.add_0_r, HE, HS, HF, HD, HM, HT.
      rewrite minFrom_app, sum64_app.
      repeat split; try assumption; try reflexivity; try apply add64_count.
      destruct (Z.ltb_spec (QueryExecution.Duration e)
                  (minFrom Hour (successDurations es))); lia.
Qed.

Lemma len_successDurations_le es : len (successDurations es) <= len es.
Proof. unfold successDurations. rewrite len_map. apply len_filter_le. Qed.

Lemma len_success_err es :
  len (successDurations es) + len (batchErrMessages es) = len es.
Proof.
  unfold successDurations, batchErrMessages, len. rewrite !length_map.
  induction es as [|e t IH]; cbn [filter length]; [reflexivity|].
  destruct (succeeded e); cbn [negb length]; lia.
Qed.

Lemma finalizeBatch_defined (r : QueryResult.t) :
  len (QueryResult.Executions r) < 2 ^ 45 ->
  exists r',
    finalizeBatch r = Some r' /\
    QueryResult.Executions r' = QueryResult.Executions r /\
    QueryResult.SuccessfulExecutions r' = QueryResult.SuccessfulExecutions r /\
    QueryResult.Errors r' = QueryResult.Errors r /\
    QueryResult.ErrorDetails r' = QueryResult.ErrorDetails r /\
    QueryResult.MinDuration r' = QueryResult.MinDuration r /\
    QueryResult.TotalDuration r' = QueryResult.TotalDuration r /\
    QueryResult.AvgDuration r' =
      (if QueryResult.SuccessfulExecutions r >? 0
       then quo64 (QueryResult.TotalDuration r) (QueryResult.SuccessfulExecutions r)
       else QueryResult.AvgDuration r) /\
    (QueryResult.SuccessfulExecutions r > 0 ->
     successDurations (QueryResult.Executions r) <> [] ->
     exists st,
       CalculateStats (successDurations (QueryResult.Executions r)) = Some st /\
       QueryResult.MedianDuration r' = Median st /\
       QueryResult.Percentile95 r' = P95 st /\
       QueryResult.Percentile99 r' = P99 st /\
       QueryResult.StdDevDuration r' = StdDev st).
Proof.
  intros Hlen. unfold finalizeBatch.
  destruct (Z.gtb_spec (QueryResult.SuccessfulExecutions r) 0) as [Hpos|Hz].
  - set (ds := successDurations (QueryResult.Executions r)).
    destruct (Z.gtb_spec (len ds) 0) as [Hds|Hds].
    + assert (Hne : ds <> []) by (intros E; rewrite E in Hds; cbn in Hds; lia).
      pose proof (len_successDurations_le (QueryResult.Executions r)) as Hle.
      destruct (CalculateStats_defined ds Hne ltac:(subst ds; lia))
        as (mn & mx & med & p95 & p99 & _ & _ & _ & _ & _ & Hst).
      rewrite Hst. eexists. split; [reflexivity|].
      cbn. repeat split; try reflexivity.
      intros _ _. eexists. split; [reflexivity|]. cbn. repeat split; reflexivity.
    + eexists. split; [reflexivity|].
      cbn. repeat split; try reflexivity.
      intros _ Hne. exfalso. apply Hne, len_zero_nil.
      pose proof (len_nonneg ds). lia.
  - eexists. split; [reflexivity|].
    repeat split; try reflexivity. lia.
Qed.

(** ** The per-query results of the two runners *)

Lemma runQuery_defined query completions :
  len completions < 2 ^ 45 ->
  exists r,
    runQuery query completions = Some r /\
    len (QueryResult.Executions r) = len completions /\
    QueryResult.SuccessfulExecutions r = len (okDurations completions) /\
    QueryResult.Errors r = len (errMessages completions) /\
    QueryResult.ErrorDetails r = firstn 10 (errMessages completions) /\
    QueryResult.MinDuration r = minFrom Hour (okDurations completions) /\
    QueryResult.TotalDuration r = sum64 (okDurations completions) /\
    QueryResult.AvgDuration r =
      (if len (okDurations completions) >? 0
       then quo64 (sum64 (okDurations completions)) (len (okDurations completions))
       else 0) /\
    QueryResult.MedianDuration r = 0 /\
    QueryResult.StdDevDuration r = 0 /\
    QueryResult.Percentile99 r = 0 /\
    (okDurations completions <> [] ->
     index (sort_Slice (okDurations completions))
       (nearestRank (len (okDurations completions)) 95) = Some (QueryResult.Percentile95 r)).
Proof.
  intros Hlen. unfold runQuery.
  pose proof (mergeRun_fold query completions) as H. cbv zeta in H.
  destruct (fold_left (mergeRun query) completions (newResult query, [])) as [r0 ds] eqn:E.
  cbn [fst snd] in H.
  destruct H as (HE & HS & HF & HD & HM & HT & Hds & Hmed & Hsd & Hp99).
  pose proof (len_okDurations_le completions) as Hok.
  pose proof (len_ok_err completions) as Hsum.
  pose proof (len_nonneg (okDurations completions)) as Hok0.
  pose proof (len_nonneg (errMessages completions)) as Herr0.
  rewrite wrap64_small in HS by lia. rewrite wrap64_small in HF by lia.
  destruct (finalizeRun_defined r0 ds ltac:(subst ds; lia))
    as (r & Hr & FE & FS & FF & FD & FM & FT & Fmed & Fsd & Fp99 & Favg & Fp95).
  exists r. split; [exact Hr|].
  rewrite FE, FS, FF, FD, FM, FT, Fmed, Fsd, Fp99, Favg, HS, HT.
  subst ds. repeat split; try assumption.
  destruct (Z.gtb_spec (len (okDurations completions)) 0); [reflexivity|].
  (* no successful execution: the average is the initial 0 *)
  assert (Hnil : okDurations completions = []) by (apply len_zero_nil; lia).
  clear - E Hnil.
  assert (Havg : forall cs st, QueryResult.AvgDuration (fst st) = 0 ->
                 QueryResult.AvgDuration (fst (fold_left (mergeRun query) cs st)) = 0).
  { induction cs as [|c cs IH]; intros st Hst; [exact Hst|].
    cbn [fold_left]. apply IH. destruct st as [r1 d1]. unfold mergeRun.
    destruct (err c); exact Hst. }
  specialize (Havg completions (newResult query, []) eq_refl).
  rewrite E in Havg. exact Havg.
Qed.

Lemma batchQuery_defined query executions :
  len executions < 2 ^ 45 ->
  exists r,
    batchQuery query executions = Some r /\
    QueryResult.Executions r = executions /\
    QueryResult.SuccessfulExecutions r = len (successDurations executions) /\
    QueryResult.Errors r = len (batchErrMessages executions) /\
    QueryResult.ErrorDetails r = firstn 10 (batchErrMessages executions) /\
    QueryResult.MinDuration r = minFrom Hour (successDurations executions) /\
    QueryResult.TotalDuration r = sum64 (successDurations executions) /\
    (successDurations executions <> [] ->
     QueryResult.AvgDuration r =
       quo64 (sum64 (successDurations executions)) (len (successDurations executions)) /\
     exists st,
       CalculateStats (successDurations executions) = Some st /\
       QueryResult.MedianDuration r = Median st /\
       QueryResult.Percentile95 r = P95 st /\
       QueryResult.Percentile99 r = P99 st /\
       QueryResult.StdDevDuration r = StdDev st).
Proof.
  intros Hlen. unfold batchQuery.
  pose proof (mergeBatch_fold query executions) as H. cbv zeta in H.
  set (r0 := fold_left mergeBatch executions (newResult query)) in *.
  destruct H as (HE & HS & HF & HD & HM & HT).
  pose proof (len_successDurations_le executions) as Hok.
  pose proof (len_success_err executions) as Hsum.
  pose proof (len_nonneg (successDurations executions)) as Hok0.
  pose proof (len_nonneg (batchErrMessages executions)) as Herr0.
  rewrite wrap64_small in HS by lia. rewrite wrap64_small in HF by lia.
  destruct (finalizeBatch_defined r0 ltac:(rewrite HE; lia))
    as (r & Hr & FE & FS & FF & FD & FM & FT & Favg & Fst).
  exists r. split; [exact Hr|].
  rewrite FE, FS, FF, FD, FM, FT, Favg, HE, HS, HF, HD, HM, HT.
  repeat split; try reflexivity.
  - destruct (Z.gtb_spec (len (successDurations executions)) 0); [reflexivity|].
    exfalso. apply H, len_zero_nil. lia.
  - rewrite HE, HS in Fst. apply Fst; [|assumption].
    destruct (successDurations executions); [congruence|unfold len; cbn [length]; lia].
Qed.

(** C6.  For the result of a query, of [Run] as of [ExecuteBatch]: every
    execution is in the list once, the successes are counted by
    [SuccessfulExecutions] and the failures by [Errors], so the two counters
    add up to the length of the list. *)
Theorem C6_counts_add_up (query : Query.t) (completions : list queryResult)
  (executions : list QueryExecution.t) :
  len completions < 2 ^ 45 -> len executions < 2 ^ 45 ->
  (exists r,
      runQuery query completions = Some r /\
      len (QueryResult.Executions r) = len completions /\
      QueryResult.SuccessfulExecutions r = len (okDurations completions) /\
      QueryResult.Errors r = len (errMessages completions) /\
      QueryResult.SuccessfulExecutions r + QueryResult.Errors r =
        len (QueryResult.Executions r)) /\
  (exists r,
      batchQuery query executions = Some r /\
      QueryResult.Executions r = executions /\
      QueryResult.SuccessfulExecutions r = len (filter succeeded executions) /\
      QueryResult.Errors r = len (filter (fun e => negb (succeeded e)) executions) /\
      QueryResult.SuccessfulExecutions r + QueryResult.Errors r =
        len (QueryResult.Executions r)).
Proof.
  intros Hc He. split.
  - destruct (runQuery_defined query completions Hc)
      as (r & Hr & HE & HS & HF & _).
    exists r. repeat split; try assumption.
    rewrite HS, HF, HE. apply len_ok_err.
  - destruct (batchQuery_defined query executions He)
      as (r & Hr & HE & HS & HF & _).
    exists r. unfold successDurations, batchErrMessages in HS, HF.
    rewrite len_map in HS. rewrite len_map in HF.
    repeat split; try assumption.
    rewrite HS, HF, HE.
    pose proof (len_success_err executions) as H.
    unfold successDurations, batchErrMessages in H. now rewrite !len_map in H.
Qed.

Lemma C6_counts_add_up_witness :
  exists r,
    runQuery sampleQuery [okRun 10; failRun 5 "Deadlock found"; okRun 30] = Some r /\
    len (QueryResult.Executions r) = 3 /\
    QueryResult.SuccessfulExecutions r = 2 /\
    QueryResult.Errors r = 1 /\
    QueryResult.SuccessfulExecutions r + QueryResult.Errors r =
      len (QueryResult.Executions r).
Proof.
  refine (proj1 (C6_counts_add_up sampleQuery
                   [okRun 10; failRun 5 "Deadlock found"; okRun 30]
                   [okExec 10; failExec 5 "Deadlock found"] _ _)); reflexivity.
Defined.

Lemma len_firstn_le {A : Type} (k : nat) (l : list A) : len (firstn k l) = Z.min (Z.of_nat k) (len l).
Proof. unfold len. rewrite length_firstn. lia. Qed.

(** C7, the claim as stated fails: the entries of [ErrorDetails] need not be
    distinct.  Two executions that fail with the same message leave the
    message twice in the list. *)
Lemma C7_error_details_repeat :
  exists r,
    runQuery sampleQuery [failRun 5 "Deadlock found"; failRun 7 "Deadlock found"] = Some r /\
    QueryResult.ErrorDetails r = ["Deadlock found"; "Deadlock found"] /\
    ~ NoDup (QueryResult.ErrorDetails r).
Proof.
  eexists. split; [vm_compute; reflexivity|]. cbn [QueryResult.ErrorDetails].
  split; [reflexivity|].
  intros H. inversion H as [|x l Hin _]. apply Hin. left. reflexivity.
Qed.

(** C7, amended.  [ErrorDetails] holds the messages of the first ten failed
    executions, in completion order and with their repetitions: at most ten
    entries, and exactly ten once more than ten executions have failed;
    [Errors] is the number of failed executions, however many. *)
Theorem C7_error_details_first_ten (query : Query.t) (completions : list queryResult)
  (executions : list QueryExecution.t) :
  len completions < 2 ^ 45 -> len executions < 2 ^ 45 ->
  (exists r,
      runQuery query completions = Some r /\
      QueryResult.ErrorDetails r = firstn 10 (errMessages completions) /\
      len (QueryResult.ErrorDetails r) <= 10 /\
      QueryResult.Errors r = len (errMessages completions) /\
      (10 < len (errMessages completions) -> len (QueryResult.ErrorDetails r) = 10)) /\
  (exists r,
      batchQuery query executions = Some r /\
      QueryResult.ErrorDetails r = firstn 10 (batchErrMessages executions) /\
      len (QueryResult.ErrorDetails r) <= 10 /\
      QueryResult.Errors r = len (batchErrMessages executions) /\
      (10 < len (batchErrMessages executions) -> len (QueryResult.ErrorDetails r) = 10)).
Proof.
  intros Hc He. split.
  - destruct (runQuery_defined query completions Hc)
      as (r & Hr & _ & _ & HF & HD & _).
    exists r. rewrite HD, len_firstn_le. repeat split; try assumption; lia.
  - destruct (batchQuery_defined query executions He)
      as (r & Hr & _ & _ & HF & HD & _).
    exists r. rewrite HD, len_firstn_le. repeat split; try assumption; lia.
Qed.

Lemma C7_error_details_first_ten_witness :
  exists r,
    runQuery sampleQuery (repeat (failRun 5 "Deadlock found") 12) = Some r /\
    QueryResult.ErrorDetails r = repeat "Deadlock found" 10 /\
    len (QueryResult.ErrorDetails r) <= 10 /\
    QueryResult.Errors r = 12 /\
    (10 < 12 -> len (QueryResult.ErrorDetails r) = 10).
Proof.
  refine (proj1 (C7_error_details_first_ten sampleQuery
                   (repeat (failRun 5 "Deadlock found") 12)
                   [failExec 5 "Deadlock found"] _ _)); reflexivity.
Defined.

(** ** The running minimum *)

Lemma minFrom_le_start ds d0 : minFrom d0 ds <= d0.
Proof.
  unfold minFrom. revert d0. induction ds as [|d t IH]; intros d0; cbn [fold_left]; [lia|].
  specialize (IH (Z.min d0 d)). lia.
Qed.

Lemma minFrom_le_all ds d0 d : In d ds -> minFrom d0 ds <= d.
Proof.
  unfold minFrom. revert d0. induction ds as [|x t IH]; intros d0 Hin; [contradiction|].
  cbn [fold_left]. destruct Hin as [->|Hin].
  - pose proof (minFrom_le_start t (Z.min d0 d)) as H. unfold minFrom in H. lia.
  - now apply IH.
Qed.

Lemma minFrom_start_or_In ds d0 : minFrom d0 ds = d0 \/ In (minFrom d0 ds) ds.
Proof.
  unfold minFrom. revert d0. induction ds as [|x t IH]; intros d0; cbn [fold_left]; [now left|].
  destruct (IH (Z.min d0 x)) as [E|Hin].
  - rewrite E. destruct (Z.min_spec d0 x) as [[_ ->]|[_ ->]]; [now left|right; now left].
  - right. now right.
Qed.

(** C9, the claim as stated fails: the sentinel is one hour, not infinity.
    A query whose only execution succeeds after two hours ends with
    [MinDuration] at one hour, which is the duration of none of its
    executions. *)
Lemma C9_min_duration_above_sentinel :
  exists r,
    runQuery sampleQuery [okRun (2 * Hour)] = Some r /\
    QueryResult.SuccessfulExecutions r = 1 /\
    QueryResult.MinDuration r = Hour /\
    QueryResult.MinDuration r <> 2 * Hour.
Proof.
  eexists. split; [vm_compute; reflexivity|].
  cbn [QueryResult.SuccessfulExecutions QueryResult.MinDuration].
  repeat split; vm_compute; congruence.
Qed.

(** C9, amended.  [MinDuration] starts at the sentinel of one hour and is
    lowered by the successful executions only: it is the smallest of one
    hour and the durations of the successful executions.  So it is the
    minimum of the successful durations as soon as one of them is at most an
    hour, and with no successful execution it stays at one hour, which is
    not zero. *)
Theorem C9_min_duration_sentinel (query : Query.t) (completions : list queryResult)
  (executions : list QueryExecution.t) :
  len completions < 2 ^ 45 -> len executions < 2 ^ 45 ->
  Hour <> 0 /\
  (exists r,
      runQuery query completions = Some r /\
      QueryResult.MinDuration r = minFrom Hour (okDurations completions) /\
      (QueryResult.SuccessfulExecutions r = 0 -> QueryResult.MinDuration r = Hour) /\
      ((exists d, In d (okDurations completions) /\ d <= Hour) ->
       QueryResult.SuccessfulExecutions r > 0 /\
       In (QueryResult.MinDuration r) (okDurations completions) /\
       forall d, In d (okDurations completions) -> QueryResult.MinDuration r <= d)) /\
  (exists r,
      batchQuery query executions = Some r /\
      QueryResult.MinDuration r = minFrom Hour (successDurations executions) /\
      (QueryResult.SuccessfulExecutions r = 0 -> QueryResult.MinDuration r = Hour) /\
      ((exists d, In d (successDurations executions) /\ d <= Hour) ->
       QueryResult.SuccessfulExecutions r > 0 /\
       In (QueryResult.MinDuration r) (successDurations executions) /\
       forall d, In d (successDurations executions) -> QueryResult.MinDuration r <= d)).
Proof.
  intros Hc He. split; [discriminate|]. split.
  - destruct (runQuery_defined query completions Hc)
      as (r & Hr & _ & HS & _ & _ & HM & _).
    exists r. rewrite HM, HS. repeat split; try assumption.
    + intros Hz. apply len_zero_nil in Hz. now rewrite Hz.
    + destruct H as (d & Hin & _). destruct (okDurations completions);
        [contradiction|unfold len; cbn [length]; lia].
    + destruct H as (d & Hin & Hd).
      destruct (minFrom_start_or_In (okDurations completions) Hour) as [E|Hm]; [|assumption].
      pose proof (minFrom_le_all _ Hour d Hin) as Hle.
      assert (d = Hour) by lia. subst d. now rewrite E.
    + intros d. apply minFrom_le_all.
  - destruct (batchQuery_defined query executions He)
      as (r & Hr & _ & HS & _ & _ & HM & _).
    exists r. rewrite HM, HS. repeat split; try assumption.
    + intros Hz. apply len_zero_nil in Hz. now rewrite Hz.
    + destruct H as (d & Hin & _). destruct (successDurations executions);
        [contradiction|unfold len; cbn [length]; lia].
    + destruct H as (d & Hin & Hd).
      destruct (minFrom_start_or_In (successDurations executions) Hour) as [E|Hm];
        [|assumption].
      pose proof (minFrom_le_all _ Hour d Hin) as Hle.
      assert (d = Hour) by lia. subst d. now rewrite E.
    + intros d. apply minFrom_le_all.
Qed.

Lemma C9_min_duration_sentinel_witness :
  exists r,
    runQuery sampleQuery [okRun 30; failRun 5 "Deadlock found"; okRun 10] = Some r /\
    QueryResult.MinDuration r = 10.
Proof.
  destruct (C9_min_duration_sentinel sampleQuery
              [okRun 30; failRun 5 "Deadlock found"; okRun 10] [okExec 10]
              eq_refl eq_refl) as (_ & (r & Hr & HM & _) & _).
  exists r. split; [exact Hr|exact HM].
Defined.

(** C3.  [Run] computes the average and the 95th percentile only.  For a
    query with two successful executions, of 10ms and 30ms, both runners
    give the average 20ms and the p95 30ms; [ExecuteBatch] also gives the
    median 30ms, the p99 30ms and the standard deviation 10ms, while [Run]
    leaves these three fields at zero. *)
Theorem C3_Run_leaves_median_p99_stddev :
  (exists r,
      runQuery sampleQuery [okRun (10 * Millisecond); okRun (30 * Millisecond)] = Some r /\
      QueryResult.SuccessfulExecutions r = 2 /\
      QueryResult.AvgDuration r = 20 * Millisecond /\
      QueryResult.Percentile95 r = 30 * Millisecond /\
      QueryResult.MedianDuration r = 0 /\
      QueryResult.Percentile99 r = 0 /\
      QueryResult.StdDevDuration r = 0) /\
  (exists r,
      batchQuery sampleQuery [okExec (10 * Millisecond); okExec (30 * Millisecond)] = Some r /\
      QueryResult.SuccessfulExecutions r = 2 /\
      QueryResult.AvgDuration r = 20 * Millisecond /\
      QueryResult.Percentile95 r = 30 * Millisecond /\
      QueryResult.MedianDuration r = 30 * Millisecond /\
      QueryResult.Percentile99 r = 30 * Millisecond /\
      QueryResult.StdDevDuration r = 10 * Millisecond).
Proof.
  split; (eexists; split; [vm_compute; reflexivity|]); repeat split.
Qed.

(** C1.  [calculateSummary] adds up the averages of all the queries and
    divides by their number.  With one query that averages 100ms and one
    whose executions all failed, the overall average is 50ms; the average of
    the averages that are defined is 100ms. *)
Theorem C1_summary_counts_failed_queries_as_zero :
  exists r1 r2,
    runQuery sampleQuery [okRun (100 * Millisecond)] = Some r1 /\
    runQuery sampleQuery [failRun Millisecond "Deadlock found"] = Some r2 /\
    QueryResult.SuccessfulExecutions r2 = 0 /\
    QueryResult.AvgDuration r1 = 100 * Millisecond /\
    ResultSummary.AvgDurationMs (calculateSummary [r1; r2]) = f64_of_int 50 /\
    durationMs (averageOfDefined [r1; r2]) = f64_of_int 100.
Proof.
  do 2 eexists. split; [vm_compute; reflexivity|]. split; [vm_compute; reflexivity|].
  repeat split; vm_compute; reflexivity.
Qed.

(** ** The duration of an execution *)

Lemma drainRows_clock latencies n t :
  snd (drainRows latencies n t) = t + fold_right Z.add 0 latencies.
Proof.
  revert n t. induction latencies as [|d rest IH]; intros n t.
  - cbn. lia.
  - cbn [drainRows fold_right]. unfold bind, elapse. rewrite IH. lia.
Qed.

(** C2, the claim as stated fails: the duration is taken before the rows
    are read.  When [QueryContext] returns after 5ms and reading the only
    row and the end of the rows takes 7ms and 1ms more, the recorded
    duration is 5ms although the rows are drained 13ms after the start. *)
Lemma C2_duration_excludes_draining :
  let resp := mkResponse (5 * Millisecond) None [7 * Millisecond] Millisecond None in
  let '(qr, t_end) := executeQuery resp 0 in
  let '(e, t_end') := ExecuteQuery "SELECT 1" resp 0 in
  t_end - startTime qr = 13 * Millisecond /\
  duration qr = 5 * Millisecond /\
  t_end' - QueryExecution.StartTime e = 13 * Millisecond /\
  QueryExecution.Duration e = 5 * Millisecond /\
  duration qr <> t_end - startTime qr.
Proof. vm_compute. repeat split; congruence. Qed.

(** C2, amended.  The recorded duration is the time from the dispatch until
    [QueryContext] returns (saturated to an [int64]); the rows are read
    afterwards and their time is not in it.  When [QueryContext] fails,
    nothing more is done: the duration is the time up to the failure, which
    is when the execution ends. *)
Theorem C2_duration_until_query_returns (sql : string) (resp : dbResponse) (t0 : Time) :
  let '(qr, t_end) := executeQuery resp t0 in
  let '(e, t_end') := ExecuteQuery sql resp t0 in
  startTime qr = t0 /\
  duration qr = sat64 (issueLatency resp) /\
  QueryExecution.StartTime e = t0 /\
  QueryExecution.Duration e = sat64 (issueLatency resp) /\
  (issueErr resp <> None ->
   err qr = issueErr resp /\ QueryExecution.Error e = issueErr resp /\
   t_end = t0 + issueLatency resp /\ t_end' = t0 + issueLatency resp /\
   duration qr = sat64 (t_end - startTime qr)) /\
  (issueErr resp = None ->
   t_end = t0 + issueLatency resp + fold_right Z.add 0 (rowLatencies resp) + endLatency resp /\
   t_end' = t_end /\
   rowCount qr = QueryExecution.RowCount e).
Proof.
  unfold executeQuery, ExecuteQuery, bind, time_Now, time_Since, elapse, ret.
  destruct (issueErr resp) as [msg|] eqn:E.
  - cbn [startTime duration err QueryExecution.StartTime QueryExecution.Duration
         QueryExecution.Error].
    replace (t0 + issueLatency resp - t0) with (issueLatency resp) by lia.
    repeat split; try reflexivity; try (intros; discriminate).
  - pose proof (drainRows_clock (rowLatencies resp) 0 (t0 + issueLatency resp)) as Hd.
    destruct (drainRows (rowLatencies resp) 0 (t0 + issueLatency resp)) as [n t1].
    cbn [snd] in Hd.
    cbn [startTime duration err rowCount QueryExecution.StartTime
         QueryExecution.Duration QueryExecution.Error QueryExecution.RowCount].
    replace (t0 + issueLatency resp - t0) with (issueLatency resp) by lia.
    repeat split; try reflexivity; try congruence.
Qed.

(** ** The aggregate of the comparison *)

Lemma sumSuccessful_fold (qs : list QueryResult.t) (t c : Z) :
  fold_left
    (fun (acc : Duration * Z) q =>
       let (total, count) := acc in
       if QueryResult.SuccessfulExecutions q >? 0
       then (add64 total (QueryResult.AvgDuration q), add64 count 1)
       else (total, count))
    qs (t, wrap64 c) =
  (fold_left add64
     (map QueryResult.AvgDuration
        (filter (fun q => QueryResult.SuccessfulExecutions q >? 0) qs)) t,
   wrap64 (c + len (filter (fun q => QueryResult.SuccessfulExecutions q >? 0) qs))).
Proof.
  revert t c. induction qs as [|q qs IH]; intros t c.
  - cbn. now rewrite Z.add_0_r.
  - cbn [fold_left filter]. destruct (QueryResult.SuccessfulExecutions q >? 0).
    + rewrite add64_count, IH. cbn [map fold_left]. f_equal. f_equal.
      unfold len. cbn [length]. lia.
    + apply IH.
Qed.

Lemma sumSuccessful_spec (qs : list QueryResult.t) :
  sumSuccessful qs =
  (sum64 (map QueryResult.AvgDuration
            (filter (fun q => QueryResult.SuccessfulExecutions q >? 0) qs)),
   wrap64 (len (filter (fun q => QueryResult.SuccessfulExecutions q >? 0) qs))).
Proof.
  unfold sumSuccessful. change (0, 0) with (0, wrap64 0).
  rewrite sumSuccessful_fold. reflexivity.
Qed.

(** C8, the claim as stated fails: each run is added up on its own.  Query
    [B] succeeds in the before run (300ms on average) and has no successful
    execution in the after run; it still counts in the before total, which
    is 400ms over 2 queries and not 100ms over 1, and the aggregate
    improvement is 50% although the only query successful in both runs did
    not change. *)
Lemma C8_aggregate_counts_one_sided_query :
  let qA := Query.mk "A" EmptyString "SELECT 1" 1 in
  let qB := Query.mk "B" EmptyString "SELECT 2" 1 in
  exists a1 b1 a2 b2,
    runQuery qA [okRun (100 * Millisecond)] = Some a1 /\
    runQuery qB [okRun (300 * Millisecond)] = Some b1 /\
    runQuery qA [okRun (100 * Millisecond)] = Some a2 /\
    runQuery qB [failRun Millisecond "Deadlock found"] = Some b2 /\
    sumSuccessful [a1; b1] = (400 * Millisecond, 2) /\
    sumSuccessfulInBoth [a1; b1] [a2; b2] = (100 * Millisecond, 1) /\
    sumSuccessful [a1; b1] <> sumSuccessfulInBoth [a1; b1] [a2; b2] /\
    avgTimeImprovement [a1; b1] [a2; b2] = f64_of_int 50.
Proof.
  cbv zeta. do 4 eexists.
  do 4 (split; [vm_compute; reflexivity|]).
  repeat split; vm_compute; congruence.
Qed.

(** C8, amended.  Each side of the aggregate is computed from its own run
    alone: the total of the per-query averages of the queries with a
    successful execution in that run, and their number.  The improvement
    is computed from the two means when both runs have such a query, and is
    zero otherwise. *)
Theorem C8_aggregate_per_run (before after : list QueryResult.t) :
  let ok := fun q => QueryResult.SuccessfulExecutions q >? 0 in
  sumSuccessful before =
    (sum64 (map QueryResult.AvgDuration (filter ok before)), wrap64 (len (filter ok before))) /\
  sumSuccessful after =
    (sum64 (map QueryResult.AvgDuration (filter ok after)), wrap64 (len (filter ok after))) /\
  avgTimeImprovement before after =
    if (wrap64 (len (filter ok before)) >? 0) && (wrap64 (len (filter ok after)) >? 0)
    then improvementPct
           (runAvgMs (sum64 (map QueryResult.AvgDuration (filter ok before)))
              (wrap64 (len (filter ok before))))
           (runAvgMs (sum64 (map QueryResult.AvgDuration (filter ok after)))
              (wrap64 (len (filter ok after))))
    else f64_zero.
Proof.
  cbv zeta. unfold avgTimeImprovement. rewrite !sumSuccessful_spec.
  repeat split; reflexivity.
Qed.

(** ** The admission gate *)

Lemma filter_update_count {A : Type} (f : A -> bool) (l : list A) (g : nat) (old x : A) :
  nth_error l g = Some old ->
  len (filter f (update l g x)) =
  len (filter f l) - (if f old then 1 else 0) + (if f x then 1 else 0).
Proof.
  revert g. induction l as [|y t IH]; intros g Hg.
  - destruct g; discriminate.
  - destruct g as [|g]; cbn [nth_error] in Hg.
    + injection Hg as ->. cbn [update filter].
      destruct (f old), (f x); unfold len; cbn [length]; lia.
    + cbn [update filter]. specialize (IH g Hg).
      destruct (f y); unfold len in *; cbn [length]; lia.
Qed.

Lemma forallb_nth_error {A : Type} (f : A -> bool) (l : list A) (g : nat) (x : A) :
  forallb f l = true -> nth_error l g = Some x -> f x = true.
Proof.
  intros Hall Hg. rewrite forallb_forall in Hall. apply Hall.
  eapply nth_error_In; eassumption.
Qed.

Lemma forallb_filter_nil {A : Type} (f : A -> bool) (l : list A) :
  forallb (fun p => negb (f p)) l = true -> filter f l = [].
Proof.
  induction l as [|y t IH]; cbn [forallb filter]; [reflexivity|].
  destruct (f y); cbn [negb andb]; [discriminate|assumption].
Qed.

Lemma len_filter_imp {A : Type} (f g : A -> bool) (l : list A) :
  (forall x, f x = true -> g x = true) -> len (filter f l) <= len (filter g l).
Proof.
  intros Himp. unfold len. induction l as [|y t IH]; cbn [filter length]; [lia|].
  destruct (f y) eqn:Ef.
  - rewrite (Himp y Ef). cbn [length]. lia.
  - destruct (g y); cbn [length]; lia.
Qed.

Lemma runInv_init a : runInv a (runInit a).
Proof. unfold runInv, runInit. cbn. repeat split; try reflexivity. lia. Qed.

Lemma runInv_step a s l s' : runInv a s -> runStep a s l = Some s' -> runInv a s'.
Proof.
  intros (Hsem & Hcap & Hnone) Hstep. unfold runInv.
  destruct l as [| |g qr|g|g|]; cbn [runStep] in Hstep.
  - destruct (rs_cur s) eqn:Ec; [discriminate|].
    destruct (rs_todo s) as [|q rest]; [discriminate|].
    injection Hstep as <-. cbn.
    specialize (Hnone eq_refl). apply forallb_filter_nil in Hnone.
    rewrite Hnone in Hsem. cbn in Hsem.
    repeat split; try lia; try (intros; discriminate).
  - destruct (rs_cur s) eqn:Ec; [|discriminate].
    destruct (Z.ltb_spec (rs_i s) (iterations a)); [|discriminate].
    destruct (Z.ltb_spec (rs_sem s) (concurrency a)); [|discriminate].
    injection Hstep as <-. cbn [rs_sem rs_go rs_cur].
    rewrite filter_app, len_app. cbn [filter holdsSlot]. rewrite len_one.
    repeat split; try lia; try (intros; discriminate).
  - destruct (nth_error (rs_go s) g) as [[| | |]|] eqn:Eg; try discriminate.
    injection Hstep as <-. cbn [rs_sem rs_go rs_cur].
    rewrite (filter_update_count _ _ _ _ _ Eg). cbn [holdsSlot].
    repeat split; try lia.
    intros Hc. specialize (Hnone Hc).
    pose proof (forallb_nth_error _ _ _ _ Hnone Eg). discriminate.
  - destruct (nth_error (rs_go s) g) as [[| | |]|] eqn:Eg; try discriminate.
    destruct (rs_cur s) eqn:Ec; [|discriminate].
    injection Hstep as <-. cbn [rs_sem rs_go rs_cur].
    rewrite (filter_update_count _ _ _ _ _ Eg). cbn [holdsSlot].
    repeat split; try lia; try (intros; discriminate).
  - destruct (nth_error (rs_go s) g) as [[| | |]|] eqn:Eg; try discriminate.
    injection Hstep as <-. cbn [rs_sem rs_go rs_cur].
    rewrite (filter_update_count _ _ _ _ _ Eg). cbn [holdsSlot].
    repeat split; try lia.
    intros Hc. specialize (Hnone Hc).
    pose proof (forallb_nth_error _ _ _ _ Hnone Eg). discriminate.
  - destruct (rs_cur s) eqn:Ec; [|discriminate].
    destruct (rs_i s >=? iterations a); [|discriminate].
    destruct (forallb (fun p => negb (holdsSlot p)) (rs_go s)) eqn:Ef; [|discriminate].
    cbn [andb] in Hstep.
    destruct (finalizeRun (rs_acc s)); [|discriminate].
    injection Hstep as <-. cbn [rs_sem rs_go rs_cur].
    repeat split; try lia. intros _. exact Ef.
Qed.

Lemma runInv_trace a ls s s' : runInv a s -> runTrace a s ls = Some s' -> runInv a s'.
Proof.
  revert s. induction ls as [|l ls IH]; intros s Hinv Htr; cbn [runTrace] in Htr.
  - injection Htr as <-. exact Hinv.
  - destruct (runStep a s l) as [s1|] eqn:E; [|discriminate].
    eapply IH; [eapply runInv_step; eassumption|exact Htr].
Qed.

Lemma batchInv_init qe qs : batchInv qe (batchInit qs).
Proof.
  unfold batchInv, batchInit. cbn [bs_sem bs_workers]. split; [|lia].
  induction qs as [|q qs IH]; [reflexivity|]. cbn [map filter holdsBatchSlot w_phase].
  exact IH.
Qed.

Lemma batchInv_step qe iters s l s' :
  batchInv qe s -> batchStep qe iters s l = Some s' -> batchInv qe s'.
Proof.
  intros (Hsem & Hcap) Hstep. unfold batchInv.
  destruct l as [k|k e|k|k|k]; cbn [batchStep] in Hstep;
    destruct (nth_error (bs_workers s) k) as [w|] eqn:Ek; try discriminate;
    destruct (w_phase w) eqn:Ep; try discriminate.
  - destruct (Z.ltb_spec (w_iter w) iters); [|discriminate].
    destruct (Z.ltb_spec (bs_sem s) (qe_concurrency qe)); [|discriminate].
    injection Hstep as <-. unfold setWorker. cbn [bs_sem bs_workers].
    rewrite (filter_update_count _ _ _ _ _ Ek). unfold holdsBatchSlot at 2 3.
    rewrite Ep. cbn [w_phase]. split; lia.
  - injection Hstep as <-. unfold setWorker. cbn [bs_sem bs_workers].
    rewrite (filter_update_count _ _ _ _ _ Ek). unfold holdsBatchSlot at 2 3.
    rewrite Ep. cbn [w_phase]. split; lia.
  - injection Hstep as <-. unfold setWorker. cbn [bs_sem bs_workers].
    rewrite (filter_update_count _ _ _ _ _ Ek). unfold holdsBatchSlot at 2 3.
    rewrite Ep. cbn [w_phase]. split; lia.
  - injection Hstep as <-. unfold setWorker. cbn [bs_sem bs_workers].
    rewrite (filter_update_count _ _ _ _ _ Ek). unfold holdsBatchSlot at 2 3.
    rewrite Ep. cbn [w_phase]. split; lia.
  - destruct (w_iter w >=? iters); [|discriminate].
    destruct (finalizeBatch (w_result w)); [|discriminate].
    injection Hstep as <-. unfold setWorker. cbn [bs_sem bs_workers].
    rewrite (filter_update_count _ _ _ _ _ Ek). unfold holdsBatchSlot at 2 3.
    rewrite Ep. cbn [w_phase]. split; lia.
Qed.

Lemma batchInv_trace qe iters ls s s' :
  batchInv qe s -> batchTrace qe iters s ls = Some s' -> batchInv qe s'.
Proof.
  revert s. induction ls as [|l ls IH]; intros s Hinv Htr; cbn [batchTrace] in Htr.
  - injection Htr as <-. exact Hinv.
  - destruct (batchStep qe iters s l) as [s1|] eqn:E; [|discriminate].
    eapply IH; [eapply batchInv_step; eassumption|exact Htr].
Qed.

Lemma nth_error_update {A : Type} (l : list A) (g : nat) (old x : A) :
  nth_error l g = Some old -> nth_error (update l g x) g = Some x.
Proof.
  revert g. induction l as [|y t IH]; intros g Hg; destruct g; try discriminate.
  - reflexivity.
  - cbn [update nth_error]. now apply IH.
Qed.

Lemma holdsSlot_executing p : executing p = true -> holdsSlot p = true.
Proof. destruct p; cbn; congruence. Qed.

Lemma holdsBatchSlot_executing w : batchExecuting w = true -> holdsBatchSlot w = true.
Proof. unfold batchExecuting, holdsBatchSlot. destruct (w_phase w); congruence. Qed.

(** C5.  In every state that [Run] or [ExecuteBatch] can reach, with a
    concurrency limit C > 0, at most C executions are in flight: an
    execution starts only by taking a slot of the semaphore, which is
    possible only while fewer than C slots are taken, and an execution that
    returns, with or without an error, gives its slot back. *)
Theorem C5_in_flight_bounded (a : Analyzer) (qe : QueryExecutor) (qs : list Query.t)
  (iters : Z) (rl : list RunLabel) (bl : list BatchLabel) (s : RunState) (b : BatchState) :
  0 < concurrency a -> 0 < qe_concurrency qe ->
  runTrace a (runInit a) rl = Some s ->
  batchTrace qe iters (batchInit qs) bl = Some b ->
  (runInFlight s <= rs_sem s <= concurrency a) /\
  (forall s', runStep a s RSpawn = Some s' ->
     runInFlight s < concurrency a /\ rs_sem s < concurrency a) /\
  (forall g qr, nth_error (rs_go s) g = Some GExec ->
     exists s0 s1 s2,
       runStep a s (RReturn g qr) = Some s0 /\
       runStep a s0 (RMerge g) = Some s1 /\
       runStep a s1 (RRelease g) = Some s2 /\
       rs_sem s2 = rs_sem s - 1) /\
  (batchInFlight b <= bs_sem b <= qe_concurrency qe) /\
  (forall k b', batchStep qe iters b (BAcquire k) = Some b' ->
     batchInFlight b < qe_concurrency qe /\ bs_sem b < qe_concurrency qe) /\
  (forall k w e, nth_error (bs_workers b) k = Some w -> w_phase w = BExec ->
     exists b0 b1,
       batchStep qe iters b (BReturn k e) = Some b0 /\
       batchStep qe iters b0 (BRelease k) = Some b1 /\
       bs_sem b1 = bs_sem b - 1).
Proof.
  intros Ha Hq Hr Hb.
  pose proof (runInv_trace a rl _ _ (runInv_init a) Hr) as (Hsem & Hcap & Hnone).
  pose proof (batchInv_trace qe iters bl _ _ (batchInv_init qe qs) Hb) as (Bsem & Bcap).
  assert (Hfl : runInFlight s <= rs_sem s).
  { rewrite Hsem. apply len_filter_imp, holdsSlot_executing. }
  assert (Bfl : batchInFlight b <= bs_sem b).
  { rewrite Bsem. apply len_filter_imp, holdsBatchSlot_executing. }
  repeat split; try lia.
  - cbn [runStep] in H. destruct (rs_cur s); [|discriminate].
    destruct (rs_i s <? iterations a); [|discriminate].
    destruct (Z.ltb_spec (rs_sem s) (concurrency a)); [lia|discriminate].
  - cbn [runStep] in H. destruct (rs_cur s); [|discriminate].
    destruct (rs_i s <? iterations a); [|discriminate].
    destruct (Z.ltb_spec (rs_sem s) (concurrency a)); [lia|discriminate].
  - intros g qr Hg.
    destruct (rs_cur s) as [query|] eqn:Ec.
    2:{ specialize (Hnone eq_refl).
        pose proof (forallb_nth_error _ _ _ _ Hnone Hg). discriminate. }
    cbn [runStep]. rewrite Hg.
    eexists. eexists. eexists. split; [reflexivity|].
    cbn [rs_go rs_cur]. rewrite (nth_error_update _ _ _ _ Hg), Ec.
    split; [reflexivity|].
    cbn [rs_go].
    rewrite (nth_error_update _ _ (GGot qr)) by (apply (nth_error_update _ _ _ _ Hg)).
    split; reflexivity.
  - cbn [batchStep] in H. destruct (nth_error (bs_workers b) k) as [w|]; [|discriminate].
    destruct (w_phase w); try discriminate.
    destruct (w_iter w <? iters); [|discriminate].
    destruct (Z.ltb_spec (bs_sem b) (qe_concurrency qe)); [lia|discriminate].
  - cbn [batchStep] in H. destruct (nth_error (bs_workers b) k) as [w|]; [|discriminate].
    destruct (w_phase w); try discriminate.
    destruct (w_iter w <? iters); [|discriminate].
    destruct (Z.ltb_spec (bs_sem b) (qe_concurrency qe)); [lia|discriminate].
  - intros k w e Hk Hp. cbn [batchStep]. rewrite Hk, Hp.
    eexists. eexists. split; [reflexivity|].
    unfold setWorker at 1. cbn [bs_workers bs_sem].
    rewrite (nth_error_update _ _ _ _ Hk). cbn [w_phase].
    split; reflexivity.
Qed.

Lemma C5_in_flight_bounded_witness :
  let a := mkAnalyzer [sampleQuery] 1 2 (30 * Second) false in
  let qe := mkQueryExecutor (30 * Second) false 1 in
  exists s b,
    runTrace a (runInit a) [RNext; RSpawn] = Some s /\
    batchTrace qe 2 (batchInit [sampleQuery]) [BAcquire 0%nat] = Some b /\
    runInFlight s <= rs_sem s <= 1 /\
    batchInFlight b <= bs_sem b <= 1.
Proof.
  cbv zeta. eexists. eexists.
  split; [reflexivity|]. split; [reflexivity|].
  pose proof (C5_in_flight_bounded
                (mkAnalyzer [sampleQuery] 1 2 (30 * Second) false)
                (mkQueryExecutor (30 * Second) false 1)
                [sampleQuery] 2 [RNext; RSpawn] [BAcquire 0%nat] _ _
                eq_refl eq_refl eq_refl eq_refl) as (H1 & _ & _ & H2 & _).
  split; [exact H1|exact H2].
Defined.

(** ** More on [CalculateStats] *)

Lemma strongly_sorted_nth (l : list Z) (i j : nat) (a b : Z) :
  StronglySorted Z.le l -> (i <= j)%nat ->
  nth_error l i = Some a -> nth_error l j = Some b -> a <= b.
Proof.
  intros Hs. revert i j. induction Hs as [|x t Hs IH Hall]; intros i j Hij Hi Hj.
  - destruct i; discriminate.
  - destruct i as [|i], j as [|j]; cbn [nth_error] in Hi, Hj; try lia.
    + injection Hi as <-. injection Hj as <-. lia.
    + injection Hi as <-. rewrite Forall_forall in Hall.
      apply Hall. eapply nth_error_In; eassumption.
    + eapply (IH i j); [lia|eassumption|eassumption].
Qed.

Lemma sorted_index_mono (l : list Z) (i j a b : Z) :
  StronglySorted Z.le l -> i <= j ->
  index l i = Some a -> index l j = Some b -> a <= b.
Proof.
  unfold index. intros Hs Hij Hi Hj.
  destruct (Z.ltb_spec i 0); [discriminate|].
  destruct (Z.ltb_spec j 0); [discriminate|].
  eapply (strongly_sorted_nth l (Z.to_nat i) (Z.to_nat j)); try eassumption. lia.
Qed.

Lemma nearestRank_mono n p q : 1 <= n -> 0 <= p <= q -> nearestRank n p <= nearestRank n q.
Proof.
  intros Hn Hpq. unfold nearestRank.
  assert (n * p / 100 <= n * q / 100) by (apply Z.div_le_mono; nia). lia.
Qed.

Lemma sort_Slice_bounds (D : list Duration) (mn mx : Duration) :
  index (sort_Slice D) 0 = Some mn -> index (sort_Slice D) (len D - 1) = Some mx ->
  forall d, In d D -> mn <= d <= mx.
Proof.
  intros Hmn Hmx d H.
  pose proof (sort_Slice_strongly_sorted D) as Hs.
  apply (Permutation_in _ (sort_Slice_perm D)) in H.
  apply In_nth_error in H. destruct H as [k Hk].
  assert (Hk' : index (sort_Slice D) (Z.of_nat k) = Some d).
  { unfold index. destruct (Z.ltb_spec (Z.of_nat k) 0); [lia|]. now rewrite Nat2Z.id. }
  assert (Z.of_nat k < len D).
  { rewrite <- len_sort_Slice. unfold len.
    apply Nat2Z.inj_lt, nth_error_Some. congruence. }
  split.
  - apply (sorted_index_mono _ 0 (Z.of_nat k) _ _ Hs); [lia|assumption..].
  - apply (sorted_index_mono _ (Z.of_nat k) (len D - 1) _ _ Hs); [lia|assumption..].
Qed.

(** The statistics of a non-empty slice are ordered, the minimum and the
    maximum are the smallest and the largest duration of the slice, and
    every percentile is one of its durations. *)
Theorem CalculateStats_ordered (D : list Duration) :
  D <> [] -> len D < 2 ^ 45 ->
  exists st,
    CalculateStats D = Some st /\
    Min st <= Median st <= P95 st /\ P95 st <= P99 st <= Max st /\
    (forall d, In d D -> Min st <= d <= Max st) /\
    In (Min st) D /\ In (Max st) D /\
    In (Median st) D /\ In (P95 st) D /\ In (P99 st) D /\
    Samples st = len D.
Proof.
  intros Hne Hlen.
  assert (Hn : 1 <= len D).
  { destruct D; [congruence|unfold len; cbn [length]; lia]. }
  destruct (CalculateStats_defined D Hne Hlen)
    as (mn & mx & med & p95 & p99 & Hmn & Hmx & Hmed & Hp95 & Hp99 & Hst).
  pose proof (sort_Slice_strongly_sorted D) as Hs.
  pose proof (nearestRank_range (len D) 50 ltac:(lia) ltac:(lia)) as R50.
  pose proof (nearestRank_range (len D) 99 ltac:(lia) ltac:(lia)) as R99.
  pose proof (nearestRank_mono (len D) 50 95 ltac:(lia) ltac:(lia)) as M1.
  pose proof (nearestRank_mono (len D) 95 99 ltac:(lia) ltac:(lia)) as M2.
  assert (Hin : forall i x, index (sort_Slice D) i = Some x -> In x D).
  { intros i x Hi. eapply Permutation_in; [apply Permutation_sym, sort_Slice_perm|].
    eapply index_In; eassumption. }
  eexists. split; [exact Hst|]. cbn [Min Max Median P95 P99 Samples].
  repeat split; eauto.
  - apply (sorted_index_mono _ _ _ _ _ Hs (proj1 R50) Hmn Hmed).
  - apply (sorted_index_mono _ _ _ _ _ Hs M1 Hmed Hp95).
  - apply (sorted_index_mono _ _ _ _ _ Hs M2 Hp95 Hp99).
  - apply (sorted_index_mono _ (nearestRank (len D) 99) (len D - 1) _ _ Hs); [lia|eauto..].
  - apply (sort_Slice_bounds D mn mx Hmn Hmx d H).
  - apply (sort_Slice_bounds D mn mx Hmn Hmx d H).
Qed.

Lemma CalculateStats_ordered_witness :
  exists st,
    CalculateStats [30; 10; 20] = Some st /\
    Min st <= Median st <= P95 st /\ P95 st <= P99 st <= Max st /\
    (forall d, In d [30; 10; 20] -> Min st <= d <= Max st) /\
    In (Min st) [30; 10; 20] /\ In (Max st) [30; 10; 20] /\
    In (Median st) [30; 10; 20] /\ In (P95 st) [30; 10; 20] /\ In (P99 st) [30; 10; 20] /\
    Samples st = 3.
Proof.
  apply (CalculateStats_ordered [30; 10; 20]); [discriminate|reflexivity].
Defined.

Lemma strongly_sorted_perm_eq (l1 l2 : list Z) :
  StronglySorted Z.le l1 -> StronglySorted Z.le l2 -> Permutation l1 l2 -> l1 = l2.
Proof.
  intros H1. revert l2. induction H1 as [|x t Hs IH Hall]; intros l2 H2 Hp.
  - apply Permutation_nil in Hp. now subst.
  - destruct H2 as [|y u Hu Hall2].
    + apply Permutation_sym, Permutation_nil in Hp. discriminate.
    + assert (x = y).
      { rewrite Forall_forall in Hall, Hall2.
        assert (Hx : In x (y :: u)) by (eapply Permutation_in; [exact Hp|now left]).
        assert (Hy : In y (x :: t))
          by (eapply Permutation_in; [apply Permutation_sym; exact Hp|now left]).
        destruct Hx as [->|Hx]; [reflexivity|].
        destruct Hy as [->|Hy]; [reflexivity|].
        specialize (Hall _ Hy). specialize (Hall2 _ Hx). lia. }
      subst y. f_equal. apply IH; [assumption|].
      eapply Permutation_cons_inv; eassumption.
Qed.

Lemma sort_Slice_perm_eq (l1 l2 : list Duration) :
  Permutation l1 l2 -> sort_Slice l1 = sort_Slice l2.
Proof.
  intros Hp. apply strongly_sorted_perm_eq; try apply sort_Slice_strongly_sorted.
  eapply Permutation_trans; [apply Permutation_sym, sort_Slice_perm|].
  eapply Permutation_trans; [exact Hp|apply sort_Slice_perm].
Qed.

(** The statistics do not depend on the order of the durations, that is on
    the order in which the executions completed. *)
Theorem CalculateStats_order_independent (D D' : list Duration) :
  Permutation D D' -> CalculateStats D = CalculateStats D'.
Proof.
  intros Hp. unfold CalculateStats.
  rewrite !len_sort_Slice. rewrite (sort_Slice_perm_eq _ _ Hp).
  unfold len. rewrite (Permutation_length Hp). reflexivity.
Qed.

Lemma CalculateStats_order_independent_witness :
  CalculateStats [30; 10; 20] = CalculateStats [10; 20; 30].
Proof.
  apply CalculateStats_order_independent.
  apply (Permutation_cons_app [10; 20] [] 30). apply Permutation_refl.
Defined.

(** ** The accumulators wrap around *)

Lemma wrap64_mod z : wrap64 z mod 2 ^ 64 = z mod 2 ^ 64.
Proof.
  unfold wrap64. rewrite Zminus_mod, Zmod_mod, <- Zminus_mod. f_equal. lia.
Qed.

Lemma wrap64_eq a b : a mod 2 ^ 64 = b mod 2 ^ 64 -> wrap64 a = wrap64 b.
Proof.
  intros H. unfold wrap64.
  rewrite (Zplus_mod a), (Zplus_mod b), H. reflexivity.
Qed.

Lemma wrap64_add_r a b : wrap64 (a + wrap64 b) = wrap64 (a + b).
Proof. rewrite Z.add_comm, wrap64_add_l. f_equal. lia. Qed.

Lemma wrap64_mul a b : wrap64 (wrap64 a * wrap64 b) = wrap64 (a * b).
Proof.
  apply wrap64_eq. rewrite Zmult_mod, !wrap64_mod, <- Zmult_mod. reflexivity.
Qed.

Lemma fold_add64 (l : list Z) (acc : Z) :
  fold_left add64 l (wrap64 acc) = wrap64 (acc + sumZ l).
Proof.
  revert acc. induction l as [|x t IH]; intros acc; cbn [fold_left sumZ fold_right].
  - now rewrite Z.add_0_r.
  - unfold add64 at 2. rewrite wrap64_add_l, IH. f_equal. unfold sumZ. lia.
Qed.

Lemma total_wrap (l : list Z) : total l = wrap64 (sumZ l).
Proof. unfold total. change 0 with (wrap64 0) at 1. now rewrite fold_add64. Qed.

Lemma sum64_wrap (l : list Z) : sum64 l = wrap64 (sumZ l).
Proof. exact (total_wrap l). Qed.

Lemma sumSquares_fold (l : list Duration) (mean acc : Z) :
  fold_left
    (fun sum d =>
       let diff := sub64 d mean in
       add64 sum (mul64 (Nanoseconds diff) (Nanoseconds diff)))
    l (wrap64 acc) = wrap64 (acc + sumSquaresZ l mean).
Proof.
  revert acc. induction l as [|x t IH]; intros acc; cbn [fold_left].
  - unfold sumSquaresZ. cbn. now rewrite Z.add_0_r.
  - cbv zeta. unfold add64 at 2, mul64, sub64, Nanoseconds.
    rewrite wrap64_mul, wrap64_add_l, wrap64_add_r, IH. f_equal.
    unfold sumSquaresZ, sumZ. cbn [map fold_right]. lia.
Qed.

(** [sumSquares], the accumulator of both standard deviations, is the sum of
    the squared deviations reduced to an [int64]: it is exact when this sum
    is below [2 ^ 63] and wraps around otherwise. *)
Theorem sumSquares_wraps (durations : list Duration) (mean : Duration) :
  sumSquares durations mean = wrap64 (sumSquaresZ durations mean) /\
  (sumSquaresZ durations mean < 2 ^ 63 ->
   sumSquares durations mean = sumSquaresZ durations mean) /\
  (2 ^ 63 <= sumSquaresZ durations mean < 2 ^ 64 ->
   sumSquares durations mean = sumSquaresZ durations mean - 2 ^ 64 /\
   sumSquares durations mean < 0).
Proof.
  assert (Hpos : 0 <= sumSquaresZ durations mean).
  { unfold sumSquaresZ, sumZ. induction durations as [|d t IH]; cbn [map fold_right];
      [lia|pose proof (Z.square_nonneg (d - mean)); lia]. }
  assert (H : sumSquares durations mean = wrap64 (sumSquaresZ durations mean)).
  { unfold sumSquares. change 0 with (wrap64 0) at 1. now rewrite sumSquares_fold. }
  split; [exact H|]. split.
  - intros Hlt. rewrite H. apply wrap64_small. lia.
  - intros Hr. rewrite H. unfold wrap64.
    replace (sumSquaresZ durations mean + 2 ^ 63)
      with ((sumSquaresZ durations mean - 2 ^ 63) + 1 * 2 ^ 64) by lia.
    rewrite Z_mod_plus_full, Z.mod_small by lia. lia.
Qed.

Lemma sumSquares_wraps_witness :
  sumSquares [0; 6 * Second] (3 * Second) =
    sumSquaresZ [0; 6 * Second] (3 * Second) - 2 ^ 64 /\
  sumSquares [0; 6 * Second] (3 * Second) < 0.
Proof.
  apply (sumSquares_wraps [0; 6 * Second] (3 * Second)). vm_compute. split; congruence.
Defined.

Lemma sumZ_perm (l l' : list Z) : Permutation l l' -> sumZ l = sumZ l'.
Proof.
  unfold sumZ. induction 1; cbn [fold_right]; lia.
Qed.

Lemma sumZ_bounds (l : list Z) (lo hi : Z) :
  (forall d, In d l -> lo <= d <= hi) -> len l * lo <= sumZ l <= len l * hi.
Proof.
  unfold len, sumZ. induction l as [|x t IH]; intros H; cbn [fold_right length].
  - lia.
  - assert (lo <= x <= hi) by (apply H; now left).
    assert (Ht : forall d, In d t -> lo <= d <= hi) by (intros d Hd; apply H; now right).
    specialize (IH Ht). lia.
Qed.

(** The mean of [CalculateStats] is the sum of the durations divided by
    their number (rounded towards zero) when the sum fits an [int64], and
    then lies between the minimum and the maximum. *)
Theorem CalculateStats_mean (D : list Duration) :
  D <> [] -> len D < 2 ^ 45 -> - 2 ^ 63 <= sumZ D < 2 ^ 63 ->
  exists st,
    CalculateStats D = Some st /\
    Mean st = Z.quot (sumZ D) (len D) /\
    Min st <= Mean st <= Max st.
Proof.
  intros Hne Hlen Hsum.
  destruct (CalculateStats_defined D Hne Hlen)
    as (mn & mx & med & p95 & p99 & Hmn & Hmx & _ & _ & _ & Hst).
  pose proof (sort_Slice_bounds D mn mx Hmn Hmx) as Hall.
  assert (Hn : 1 <= len D).
  { destruct D; [congruence|unfold len; cbn [length]; lia]. }
  eexists. split; [exact Hst|]. cbn [Mean Min Max].
  assert (Hmean : quo64 (total (sort_Slice D)) (len D) = Z.quot (sumZ D) (len D)).
  { rewrite total_wrap, <- (sumZ_perm _ _ (sort_Slice_perm D)).
    rewrite (wrap64_small (sumZ D)) by lia.
    unfold quo64. apply wrap64_small.
    destruct (Z.le_gt_cases 0 (sumZ D)).
    - rewrite Z.quot_div_nonneg by lia.
      assert (0 <= sumZ D / len D) by (apply Z.div_pos; lia).
      assert (sumZ D / len D <= sumZ D) by (apply Z.div_le_upper_bound; nia).
      lia.
    - pose proof (Z.quot_opp_l (sumZ D) (len D) ltac:(lia)) as Hq.
      rewrite Z.quot_div_nonneg in Hq by lia.
      assert (0 <= - sumZ D / len D) by (apply Z.div_pos; lia).
      assert (- sumZ D / len D <= - sumZ D) by (apply Z.div_le_upper_bound; nia).
      lia. }
  split; [exact Hmean|]. rewrite Hmean.
  pose proof (sumZ_bounds D mn mx Hall) as Hb.
  unfold Duration in *.
  split.
  - destruct (Z.le_gt_cases 0 (sumZ D)).
    + rewrite Z.quot_div_nonneg by lia. apply Z.div_le_lower_bound; lia.
    + assert (mn < 0) by nia.
      pose proof (Z.quot_opp_l (sumZ D) (len D) ltac:(lia)) as Hq.
      assert (0 <= Z.quot (- sumZ D) (len D) <= - mn).
      { rewrite Z.quot_div_nonneg by lia. split; [apply Z.div_pos; lia|].
        apply Z.div_le_upper_bound; lia. }
      lia.
  - destruct (Z.le_gt_cases 0 (sumZ D)).
    + rewrite Z.quot_div_nonneg by lia. apply Z.div_le_upper_bound; lia.
    + pose proof (Z.quot_opp_l (sumZ D) (len D) ltac:(lia)) as Hq.
      assert (- mx * len D <= - sumZ D) by lia.
      destruct (Z.le_gt_cases 0 mx).
      * assert (0 <= Z.quot (- sumZ D) (len D)).
        { rewrite Z.quot_div_nonneg by lia. apply Z.div_pos; lia. }
        lia.
      * assert (- mx <= Z.quot (- sumZ D) (len D)).
        { rewrite Z.quot_div_nonneg by lia. apply Z.div_le_lower_bound; lia. }
        lia.
Qed.

Lemma CalculateStats_mean_witness :
  exists st,
    CalculateStats [30; 10; 20] = Some st /\
    Mean st = Z.quot (sumZ [30; 10; 20]) 3 /\
    Min st <= Mean st <= Max st.
Proof.
  apply (CalculateStats_mean [30; 10; 20]); [discriminate|reflexivity|].
  vm_compute. split; congruence.
Defined.

(** ** The error classifier *)

Lemma incrCount_lookup (m : counts) (k k' : string) :
  lookupCount (incrCount m k) k' =
  if String.eqb k' k then add64 (lookupCount m k) 1 else lookupCount m k'.
Proof.
  induction m as [|[k0 v] m IH]; cbn [incrCount lookupCount].
  - destruct (String.eqb_spec k' k); reflexivity.
  - destruct (String.eqb_spec k k0) as [->|Hk]; cbn [lookupCount].
    + destruct (String.eqb_spec k' k0); reflexivity.
    + rewrite IH. destruct (String.eqb_spec k' k0) as [->|Hk'].
      * destruct (String.eqb_spec k0 k); [congruence|reflexivity].
      * reflexivity.
Qed.

Lemma ClassifyErrors_flat (results : list QueryResult.t) (m0 : counts) :
  fold_left
    (fun errorTypes result =>
       fold_left
         (fun errorTypes errMsg => incrCount errorTypes (classifyErrorMessage errMsg))
         (QueryResult.ErrorDetails result) errorTypes)
    results m0 =
  fold_left (fun errorTypes errMsg => incrCount errorTypes (classifyErrorMessage errMsg))
    (allErrorDetails results) m0.
Proof.
  revert m0. induction results as [|r rs IH]; intros m0; [reflexivity|].
  cbn [fold_left allErrorDetails flat_map]. rewrite fold_left_app. apply IH.
Qed.

Lemma classify_fold_lookup (msgs : list string) (label : string) :
  lookupCount
    (fold_left (fun errorTypes errMsg => incrCount errorTypes (classifyErrorMessage errMsg))
       msgs []) label = wrap64 (classifiedAs label msgs).
Proof.
  induction msgs as [|msg msgs IH] using rev_ind; [reflexivity|].
  rewrite fold_left_app. cbn [fold_left]. rewrite incrCount_lookup.
  unfold classifiedAs in *. rewrite filter_app, len_app. cbn [filter].
  destruct (String.eqb_spec label (classifyErrorMessage msg)) as [E|E].
  - rewrite <- E, IH, len_one. apply add64_count.
  - rewrite IH, len_nil, Z.add_0_r. reflexivity.
Qed.

Lemma classifyErrorMessage_label (errMsg : string) :
  In (classifyErrorMessage errMsg) errorLabels.
Proof.
  unfold classifyErrorMessage, errorLabels.
  repeat match goal with
         | |- context [if ?b then _ else _] => destruct b
         end; cbn; tauto.
Qed.

(** [ClassifyErrors] gives every label the number of recorded error details
    that [classifyErrorMessage] classifies with it, and nothing to any other
    key.  It reads [ErrorDetails], which keeps ten messages per query at
    most: for results of [Run] the tally of a query is its number of
    failures only up to ten. *)
Theorem ClassifyErrors_counts_details (results : list QueryResult.t) (label : string) :
  len (allErrorDetails results) < 2 ^ 63 ->
  lookupCount (ClassifyErrors results) label = classifiedAs label (allErrorDetails results) /\
  (~ In label errorLabels -> lookupCount (ClassifyErrors results) label = 0).
Proof.
  intros Hlen. unfold ClassifyErrors. rewrite ClassifyErrors_flat, classify_fold_lookup.
  assert (Hle : 0 <= classifiedAs label (allErrorDetails results)
                <= len (allErrorDetails results)).
  { unfold classifiedAs. split; [apply len_nonneg|apply len_filter_le]. }
  rewrite wrap64_small by lia. split; [reflexivity|].
  intros Hnot. unfold classifiedAs. clear Hle Hlen.
  induction (allErrorDetails results) as [|msg msgs IH]; [reflexivity|].
  cbn [filter]. destruct (String.eqb_spec label (classifyErrorMessage msg)) as [E|E].
  - exfalso. apply Hnot. rewrite E. apply classifyErrorMessage_label.
  - apply IH.
Qed.

Lemma ClassifyErrors_counts_details_witness :
  exists r,
    runQuery sampleQuery (repeat (failRun 5 "Deadlock found") 12) = Some r /\
    QueryResult.Errors r = 12 /\
    lookupCount (ClassifyErrors [r]) "Deadlock" = 10.
Proof.
  eexists. split; [vm_compute; reflexivity|]. split; [reflexivity|].
  refine (eq_trans (proj1 (ClassifyErrors_counts_details _ "Deadlock" _)) _).
  - vm_compute. reflexivity.
  - vm_compute. reflexivity.
Defined.

(** ** The complexity classifier *)

Lemma lower_ascii_idem (c : ascii) : lower_ascii (lower_ascii c) = lower_ascii c.
Proof. destruct c as [[] [] [] [] [] [] [] []]; reflexivity. Qed.

Lemma ToLower_idem (s : string) : ToLower (ToLower s) = ToLower s.
Proof.
  induction s as [|c s IH]; cbn [ToLower]; [reflexivity|].
  now rewrite lower_ascii_idem, IH.
Qed.

(** [AnalyzeQueryComplexity] always answers with one of the four tiers, and
    the answer does not depend on the case of the letters of the query. *)
Theorem AnalyzeQueryComplexity_tier (sql : string) :
  isASCII sql = true ->
  In (AnalyzeQueryComplexity sql) complexityTiers /\
  AnalyzeQueryComplexity (ToLower sql) = AnalyzeQueryComplexity sql.
Proof.
  intros _. split.
  - unfold AnalyzeQueryComplexity, complexityTiers. cbv zeta.
    repeat match goal with
           | |- context [if ?b then _ else _] => destruct b
           end; cbn; tauto.
  - unfold AnalyzeQueryComplexity. now rewrite ToLower_idem.
Qed.

Lemma AnalyzeQueryComplexity_tier_witness :
  In (AnalyzeQueryComplexity "SELECT a FROM t JOIN u ON t.id = u.id ORDER BY a")
     complexityTiers /\
  AnalyzeQueryComplexity (ToLower "SELECT a FROM t JOIN u ON t.id = u.id ORDER BY a") =
  AnalyzeQueryComplexity "SELECT a FROM t JOIN u ON t.id = u.id ORDER BY a".
Proof.
  apply AnalyzeQueryComplexity_tier. reflexivity.
Defined.

(** The same for [classifyErrorMessage]: one of the eight labels, whatever
    the case of the message. *)
Theorem classifyErrorMessage_total (errMsg : string) :
  isASCII errMsg = true ->
  In (classifyErrorMessage errMsg) errorLabels /\
  classifyErrorMessage (ToLower errMsg) = classifyErrorMessage errMsg.
Proof.
  intros _. split; [apply classifyErrorMessage_label|].
  unfold classifyErrorMessage. now rewrite ToLower_idem.
Qed.

Lemma classifyErrorMessage_total_witness :
  In (classifyErrorMessage "Error 1205: Lock wait timeout exceeded") errorLabels /\
  classifyErrorMessage (ToLower "Error 1205: Lock wait timeout exceeded") =
  classifyErrorMessage "Error 1205: Lock wait timeout exceeded".
Proof.
  apply classifyErrorMessage_total. reflexivity.
Defined.

(** ** The selection of the queries *)

Lemma len_firstn {A : Type} (k : nat) (l : list A) :
  len (firstn k l) = Z.min (Z.of_nat k) (len l).
Proof. unfold len. rewrite length_firstn. lia. Qed.

Lemma applyLimit_spec {A : Type} (s : list A) (limit : Z) :
  exists rest,
    s = applyLimit s limit ++ rest /\
    len (applyLimit s limit) = (if (limit >? 0) && (limit <? len s) then limit else len s).
Proof.
  unfold applyLimit.
  destruct (Z.gtb_spec limit 0); destruct (Z.ltb_spec limit (len s)); cbn [andb];
    try (exists []; split; [now rewrite app_nil_r|reflexivity]).
  exists (skipn (Z.to_nat limit) s). split; [now rewrite firstn_skipn|].
  rewrite len_firstn. lia.
Qed.

(** [filterQueriesByType], on ASCII names: the answer is the list of the
    queries whose name starts with the type (case ignored), in their order,
    cut to its first [limit] elements exactly when [0 < limit] and [limit]
    is below their number; it is the error exactly when no query has the
    prefix. *)
Theorem filterQueriesByType_spec (allQueries : list Query.t) (queryType : string)
  (limit : Z) :
  isASCII queryType = true ->
  (forall q, In q allQueries -> isASCII (Query.Name q) = true) ->
  let matching := filter (ofType queryType) allQueries in
  match filterQueriesByType allQueries queryType limit with
  | inl res =>
      res <> [] /\
      (exists rest, matching = res ++ rest) /\
      len res = (if (0 <? limit) && (limit <? len matching) then limit else len matching) /\
      (forall q, In q res -> In q allQueries /\ ofType queryType q = true)
  | inr msg =>
      msg = String.append "no queries found of type: " queryType /\
      matching = [] /\
      forall q, In q allQueries -> ofType queryType q = false
  end.
Proof.
  intros _ _. cbv zeta.
  unfold filterQueriesByType. fold (ofType queryType).
  set (filtered := filter (ofType queryType) allQueries).
  destruct (Z.eqb_spec (len filtered) 0) as [Hz|Hnz].
  - apply len_zero_nil in Hz.
    split; [reflexivity|]. split; [exact Hz|]. intros q Hq.
    destruct (ofType queryType q) eqn:E; [|reflexivity].
    assert (In q filtered) by (apply filter_In; auto).
    rewrite Hz in H. contradiction.
  - destruct (applyLimit_spec filtered limit) as (rest & Hsplit & Hlen).
    pose proof (len_nonneg filtered).
    assert (Hcut : len (applyLimit filtered limit) =
                   (if (0 <? limit) && (limit <? len filtered) then limit
                    else len filtered)).
    { rewrite Hlen.
      destruct (Z.gtb_spec limit 0); destruct (Z.ltb_spec 0 limit); try lia; reflexivity. }
    split; [|split; [|split]].
    + intros E. rewrite E, len_nil in Hcut.
      destruct (Z.ltb_spec 0 limit); destruct (Z.ltb_spec limit (len filtered));
        cbn [andb] in Hcut; lia.
    + exists rest. exact Hsplit.
    + exact Hcut.
    + intros q Hq.
      assert (Hin : In q filtered) by (rewrite Hsplit; apply in_or_app; now left).
      apply filter_In in Hin. exact Hin.
Qed.

Lemma filterQueriesByType_spec_witness :
  let allQueries :=
    [Query.mk "Consistency-orders" EmptyString "SELECT 1" 1;
     Query.mk "datatype-dates" EmptyString "SELECT 2" 2;
     Query.mk "consistency-users" EmptyString "SELECT 3" 3;
     Query.mk "CONSISTENCY-items" EmptyString "SELECT 4" 4] in
  let matching := filter (ofType "consistency") allQueries in
  match filterQueriesByType allQueries "consistency" 2 with
  | inl res =>
      res <> [] /\
      (exists rest, matching = res ++ rest) /\
      len res = (if (0 <? 2) && (2 <? len matching) then 2 else len matching) /\
      (forall q, In q res -> In q allQueries /\ ofType "consistency" q = true)
  | inr msg =>
      msg = String.append "no queries found of type: " "consistency" /\
      matching = [] /\
      forall q, In q allQueries -> ofType "consistency" q = false
  end.
Proof.
  cbv zeta.
  apply (filterQueriesByType_spec
           [Query.mk "Consistency-orders" EmptyString "SELECT 1" 1;
            Query.mk "datatype-dates" EmptyString "SELECT 2" 2;
            Query.mk "consistency-users" EmptyString "SELECT 3" 3;
            Query.mk "CONSISTENCY-items" EmptyString "SELECT 4" 4]
           "consistency" 2).
  - reflexivity.
  - intros q Hq. cbn [In] in Hq.
    repeat (destruct Hq as [<-|Hq]; [reflexivity|]). contradiction.
Defined.

Lemma insertByWeight_perm q l : Permutation (q :: l) (insertByWeight q l).
Proof.
  induction l as [|y t IH]; cbn [insertByWeight]; [apply Permutation_refl|].
  destruct (Query.Weight q >=? Query.Weight y); [apply Permutation_refl|].
  eapply Permutation_trans; [apply perm_swap|]. now apply perm_skip.
Qed.

Lemma sortByWeight_perm l : Permutation l (sortByWeight l).
Proof.
  induction l as [|x t IH]; cbn [sortByWeight]; [constructor|].
  eapply Permutation_trans; [apply perm_skip, IH|apply insertByWeight_perm].
Qed.

Lemma insertByWeight_sorted q l :
  StronglySorted (fun a b => Query.Weight b <= Query.Weight a) l ->
  StronglySorted (fun a b => Query.Weight b <= Query.Weight a) (insertByWeight q l).
Proof.
  induction 1 as [|y t Hs IH Hall]; cbn [insertByWeight].
  - constructor; constructor.
  - destruct (Z.geb_spec (Query.Weight q) (Query.Weight y)).
    + constructor; [constructor; assumption|].
      constructor; [lia|]. rewrite Forall_forall in *. intros z Hz.
      specialize (Hall z Hz). lia.
    + constructor; [assumption|].
      rewrite Forall_forall in *. intros z Hz.
      apply (Permutation_in _ (Permutation_sym (insertByWeight_perm q t))) in Hz.
      destruct Hz as [<-|Hz]; [lia|auto].
Qed.

Lemma sortByWeight_sorted l :
  StronglySorted (fun a b => Query.Weight b <= Query.Weight a) (sortByWeight l).
Proof.
  induction l as [|x t IH]; cbn [sortByWeight]; [constructor|].
  now apply insertByWeight_sorted.
Qed.

Lemma strongly_sorted_app_le {A : Type} (R : A -> A -> Prop) (l1 l2 : list A) :
  StronglySorted R (l1 ++ l2) ->
  StronglySorted R l1 /\ forall a b, In a l1 -> In b l2 -> R a b.
Proof.
  induction l1 as [|x t IH]; cbn [app]; intros Hs.
  - split; [constructor|contradiction].
  - inversion Hs as [|? ? Hs' Hall]; subst. destruct (IH Hs') as [Ht Hab].
    rewrite Forall_forall in Hall. split.
    + constructor; [assumption|]. apply Forall_forall. intros z Hz.
      apply Hall, in_or_app. now left.
    + intros a b [<-|Ha] Hb; [apply Hall, in_or_app; now right|auto].
Qed.

(** [CreateTestQueries]: ["all"] returns the queries as they are; ["top"]
    returns the [limit] heaviest queries (all of them when [limit] is not
    positive or not below their number), heaviest first: no query left out
    weighs more than one that is returned; an unknown type is an error. *)
Theorem CreateTestQueries_top (allQueries : list Query.t) (limit : Z) :
  CreateTestQueries allQueries "all" limit = inl allQueries /\
  (exists res rest,
      CreateTestQueries allQueries "top" limit = inl res /\
      Permutation (res ++ rest) allQueries /\
      StronglySorted (fun a b => Query.Weight b <= Query.Weight a) res /\
      (forall q q', In q res -> In q' rest -> Query.Weight q' <= Query.Weight q) /\
      len res = (if (limit >? 0) && (limit <? len allQueries) then limit
                 else len allQueries)) /\
  (forall testType,
      In testType ["consistency"; "datatype"; "relationship"] ->
      CreateTestQueries allQueries testType limit =
      filterQueriesByType allQueries testType limit) /\
  (forall testType,
      ~ In testType ["all"; "consistency"; "datatype"; "relationship"; "top"] ->
      CreateTestQueries allQueries testType limit =
      inr (String.append "unknown test type: " testType)).
Proof.
  split; [reflexivity|].
  split; [|split].
  2:{ intros testType [<-|[<-|[<-|[]]]]; reflexivity. }
  2:{ intros testType Hnot. unfold CreateTestQueries.
      repeat match goal with
             | |- context [String.eqb testType ?k] =>
                 destruct (String.eqb_spec testType k) as [->|_];
                 [exfalso; apply Hnot; cbn; tauto|]
             end.
      reflexivity. }
  destruct (applyLimit_spec (sortByWeight allQueries) limit) as (rest & Hsplit & Hlen).
  exists (applyLimit (sortByWeight allQueries) limit), rest.
  pose proof (sortByWeight_sorted allQueries) as Hs. rewrite Hsplit in Hs.
  destruct (strongly_sorted_app_le _ _ _ Hs) as [Hres Hle].
  split; [reflexivity|]. split; [|split; [exact Hres|split; [exact Hle|]]].
  - rewrite <- Hsplit. apply Permutation_sym, sortByWeight_perm.
  - rewrite Hlen. unfold len. now rewrite <- (Permutation_length (sortByWeight_perm allQueries)).
Qed.

(** ** calculateSummary *)

Lemma maxFrom_app (m0 : Z) (l : list Z) (x : Z) :
  fold_left Z.max (l ++ [x]) m0 = Z.max (fold_left Z.max l m0) x.
Proof. now rewrite fold_left_app. Qed.

Lemma summary_fold (results : list QueryResult.t) (n : Z) :
  let '(s, totalDuration, maxDuration) :=
    fold_left summaryStep results (emptySummary n, 0, 0) in
  ResultSummary.TotalQueries s = n /\
  ResultSummary.SuccessfulQueries s =
    wrap64 (len (filter (fun r => QueryResult.Errors r =? 0) results)) /\
  ResultSummary.FailedQueries s =
    wrap64 (len (filter (fun r => negb (QueryResult.Errors r =? 0)) results)) /\
  ResultSummary.TotalExecutions s =
    wrap64 (sumZ (map (fun r => len (QueryResult.Executions r)) results)) /\
  ResultSummary.SuccessfulExecutions s =
    wrap64 (sumZ (map QueryResult.SuccessfulExecutions results)) /\
  ResultSummary.FailedExecutions s = wrap64 (sumZ (map QueryResult.Errors results)) /\
  ResultSummary.TotalRowsReturned s = wrap64 (sumZ (map QueryResult.RowsAffected results)) /\
  ResultSummary.QueriesByComplexity s =
    fold_left (fun m r => incrCount m (QueryResult.QueryComplexity r)) results [] /\
  ResultSummary.AvgDurationMs s = f64_zero /\
  ResultSummary.MaxDurationMs s = f64_zero /\
  totalDuration = wrap64 (sumZ (map QueryResult.AvgDuration results)) /\
  maxDuration = fold_left Z.max (map QueryResult.MaxDuration results) 0.
Proof.
  induction results as [|r rs IH] using rev_ind.
  - cbn. repeat split; reflexivity.
  - rewrite fold_left_app. cbn [fold_left].
    destruct (fold_left summaryStep rs (emptySummary n, 0, 0)) as [[s t] m].
    destruct IH as (H1 & H2 & H3 & H4 & H5 & H6 & H7 & H8 & H9 & H10 & H11 & H12).
    assert (Hsum : forall f, sumZ (map f (rs ++ [r])) = sumZ (map f rs) + f r).
    { intros f. rewrite map_app. unfold sumZ. rewrite fold_right_app. cbn [map fold_right].
      generalize (map f rs). intros l. induction l as [|x l IHl]; cbn [fold_right]; lia. }
    unfold summaryStep.
    cbn [ResultSummary.TotalQueries ResultSummary.SuccessfulQueries
         ResultSummary.FailedQueries ResultSummary.TotalExecutions
         ResultSummary.SuccessfulExecutions ResultSummary.FailedExecutions
         ResultSummary.TotalRowsReturned ResultSummary.QueriesByComplexity
         ResultSummary.AvgDurationMs ResultSummary.MaxDurationMs].
    rewrite !filter_app, !len_app, !Hsum, fold_left_app, map_app.
    cbn [map]. rewrite maxFrom_app.
    cbn [filter fold_left].
    rewrite H2, H3, H4, H5, H6, H7, H8, H11, H12.
    unfold add64. rewrite !wrap64_add_l.
    repeat split; try assumption; try reflexivity.
    + destruct (QueryResult.Errors r =? 0); cbn [negb];
        rewrite ?len_one, ?len_nil, ?Z.add_0_r, ?wrap64_add_l; reflexivity.
    + destruct (QueryResult.Errors r =? 0); cbn [negb];
        rewrite ?len_one, ?len_nil, ?Z.add_0_r, ?wrap64_add_l; reflexivity.
    + destruct (Z.gtb_spec (QueryResult.MaxDuration r)
                  (fold_left Z.max (map QueryResult.MaxDuration rs) 0)); lia.
Qed.

Lemma count_fold_lookup {A : Type} (key : A -> string) (xs : list A) (k : string) :
  lookupCount (fold_left (fun m x => incrCount m (key x)) xs []) k =
  wrap64 (len (filter (fun x => String.eqb k (key x)) xs)).
Proof.
  induction xs as [|x xs IH] using rev_ind; [reflexivity|].
  rewrite fold_left_app. cbn [fold_left]. rewrite incrCount_lookup.
  rewrite filter_app, len_app. cbn [filter].
  destruct (String.eqb_spec k (key x)) as [E|E].
  - rewrite <- E, IH, len_one. apply add64_count.
  - rewrite IH, len_nil, Z.add_0_r. reflexivity.
Qed.

Lemma len_filter_split {A : Type} (f : A -> bool) (l : list A) :
  len (filter f l) + len (filter (fun x => negb (f x)) l) = len l.
Proof.
  unfold len. induction l as [|x t IH]; cbn [filter length]; [reflexivity|].
  destruct (f x); cbn [negb length]; lia.
Qed.

(** [calculateSummary]: the queries are split into those without and those
    with an error; the overall average is the sum of the averages of all the
    queries divided by the number of all the queries, a query without a
    successful execution entering with its average of zero; the complexity
    tally counts the queries of each tier; and for no query at all the
    durations are zero, without a division. *)
Theorem calculateSummary_spec (results : list QueryResult.t) (tier : string) :
  len results < 2 ^ 63 ->
  let s := calculateSummary results in
  ResultSummary.TotalQueries s = len results /\
  ResultSummary.SuccessfulQueries s =
    len (filter (fun r => QueryResult.Errors r =? 0) results) /\
  ResultSummary.SuccessfulQueries s + ResultSummary.FailedQueries s = len results /\
  lookupCount (ResultSummary.QueriesByComplexity s) tier =
    len (filter (fun r => String.eqb tier (QueryResult.QueryComplexity r)) results) /\
  ResultSummary.AvgDurationMs s =
    (if len results >? 0
     then durationMs (quo64 (sum64 (map QueryResult.AvgDuration results)) (len results))
     else f64_zero) /\
  ResultSummary.MaxDurationMs s =
    (if len results >? 0
     then durationMs (fold_left Z.max (map QueryResult.MaxDuration results) 0)
     else f64_zero).
Proof.
  intros Hlen. cbv zeta. unfold calculateSummary.
  pose proof (summary_fold results (len results)) as H.
  destruct (fold_left summaryStep results (emptySummary (len results), 0, 0)) as [[s t] m].
  destruct H as (H1 & H2 & H3 & H4 & H5 & H6 & H7 & H8 & H9 & H10 & H11 & H12).
  pose proof (len_filter_split (fun r => QueryResult.Errors r =? 0) results) as Hsplit.
  cbv beta in Hsplit.
  pose proof (len_nonneg (filter (fun r => QueryResult.Errors r =? 0) results)).
  pose proof (len_nonneg (filter (fun r => negb (QueryResult.Errors r =? 0)) results)).
  pose proof (len_filter_le (fun r => String.eqb tier (QueryResult.QueryComplexity r)) results).
  pose proof (len_nonneg
                (filter (fun r => String.eqb tier (QueryResult.QueryComplexity r)) results)).
  rewrite wrap64_small in H2 by lia. rewrite wrap64_small in H3 by lia.
  rewrite H1. rewrite sum64_wrap, <- H11, <- H12.
  destruct (len results >? 0);
    cbn [ResultSummary.TotalQueries ResultSummary.SuccessfulQueries
         ResultSummary.FailedQueries ResultSummary.QueriesByComplexity
         ResultSummary.AvgDurationMs ResultSummary.MaxDurationMs];
    rewrite ?H1, ?H2, ?H3, ?H8, ?H9, ?H10, ?count_fold_lookup, ?wrap64_small by lia;
    repeat split; try reflexivity; lia.
Qed.

Lemma calculateSummary_spec_witness :
  len sampleResults = 2 /\
  let s := calculateSummary sampleResults in
  ResultSummary.TotalQueries s = 2 /\
  ResultSummary.SuccessfulQueries s = 1 /\
  ResultSummary.FailedQueries s = 1 /\
  lookupCount (ResultSummary.QueriesByComplexity s) "low" = 1 /\
  ResultSummary.AvgDurationMs s = f64_of_int 100 /\
  ResultSummary.MaxDurationMs s = f64_of_int 300.
Proof.
  split; [reflexivity|]. cbv zeta.
  pose proof (calculateSummary_spec sampleResults "low" ltac:(reflexivity)) as H.
  cbv zeta in H.
  destruct H as (H1 & H2 & H3 & H4 & H5 & H6).
  rewrite H1, H5, H6, H4. rewrite H2 in H3 |- *.
  vm_compute in H3.
  repeat split; try (vm_compute; reflexivity); lia.
Defined.

(** For results whose two counters add up to the length of their execution
    list, as those of [Run] and [ExecuteBatch] do, the same holds for the
    three totals of the summary. *)
Theorem calculateSummary_executions (results : list QueryResult.t) :
  Forall (fun r => QueryResult.SuccessfulExecutions r + QueryResult.Errors r =
                   len (QueryResult.Executions r)) results ->
  let s := calculateSummary results in
  add64 (ResultSummary.SuccessfulExecutions s) (ResultSummary.FailedExecutions s) =
    ResultSummary.TotalExecutions s /\
  ResultSummary.FailedExecutions s = sum64 (map QueryResult.Errors results).
Proof.
  intros Hall. cbv zeta. unfold calculateSummary.
  assert (Hsum : sumZ (map QueryResult.SuccessfulExecutions results) +
                 sumZ (map QueryResult.Errors results) =
                 sumZ (map (fun r => len (QueryResult.Executions r)) results)).
  { unfold sumZ. induction Hall as [|r rs Hr Hrs IH]; cbn [map fold_right]; [reflexivity|].
    lia. }
  pose proof (summary_fold results (len results)) as H.
  destruct (fold_left summaryStep results (emptySummary (len results), 0, 0)) as [[s t] m].
  destruct H as (H1 & H2 & H3 & H4 & H5 & H6 & H7 & H8 & H9 & H10 & H11 & H12).
  rewrite sum64_wrap.
  destruct (ResultSummary.TotalQueries s >? 0);
    cbn [ResultSummary.SuccessfulExecutions ResultSummary.FailedExecutions
         ResultSummary.TotalExecutions];
    rewrite H4, H5, H6; unfold add64; rewrite wrap64_add_l, wrap64_add_r, Hsum;
    split; reflexivity.
Qed.

Lemma calculateSummary_executions_witness :
  let s := calculateSummary sampleResults in
  ResultSummary.TotalExecutions s = 4 /\
  add64 (ResultSummary.SuccessfulExecutions s) (ResultSummary.FailedExecutions s) =
    ResultSummary.TotalExecutions s /\
  ResultSummary.FailedExecutions s = sum64 (map QueryResult.Errors sampleResults).
Proof.
  cbv zeta. split; [vm_compute; reflexivity|].
  apply (calculateSummary_executions sampleResults).
  vm_compute. repeat constructor.
Defined.

(** ** The comparison of two runs *)

Lemma mapGet_mapPut (m : resultMap) (k k' : string) (v : QueryResult.t) :
  mapGet (mapPut m k v) k' = if String.eqb k' k then Some v else mapGet m k'.
Proof.
  induction m as [|[k0 v0] m IH]; cbn [mapPut mapGet].
  - destruct (String.eqb_spec k' k); reflexivity.
  - destruct (String.eqb_spec k k0) as [->|Hk]; cbn [mapGet].
    + destruct (String.eqb_spec k' k0); reflexivity.
    + rewrite IH. destruct (String.eqb_spec k' k0) as [->|Hk'].
      * destruct (String.eqb_spec k0 k); [congruence|reflexivity].
      * reflexivity.
Qed.

Lemma afterMapOf_lookup (after : list QueryResult.t) (name : string) :
  mapGet (afterMapOf after) name = lastNamed name after.
Proof.
  unfold afterMapOf, lastNamed.
  induction after as [|q qs IH] using rev_ind; [reflexivity|].
  rewrite fold_left_app, rev_app_distr. cbn [fold_left rev app find].
  rewrite mapGet_mapPut. destruct (String.eqb name (QueryResult.Name q)); [reflexivity|].
  exact IH.
Qed.

Lemma insertByImprovement_perm c l : Permutation (c :: l) (insertByImprovement c l).
Proof.
  induction l as [|y t IH]; cbn [insertByImprovement]; [apply Permutation_refl|].
  destruct (f64_gt _ _); [|apply Permutation_refl].
  eapply Permutation_trans; [apply perm_swap|]. now apply perm_skip.
Qed.

Lemma sortByImprovement_perm l : Permutation l (sortByImprovement l).
Proof.
  induction l as [|x t IH]; cbn [sortByImprovement]; [constructor|].
  eapply Permutation_trans; [apply perm_skip, IH|apply insertByImprovement_perm].
Qed.

Lemma find_some_name (name : string) (qs : list QueryResult.t) (q : QueryResult.t) :
  find (fun q => String.eqb name (QueryResult.Name q)) qs = Some q ->
  In q qs /\ QueryResult.Name q = name.
Proof.
  intros H. apply find_some in H. destruct H as [Hin Heq].
  apply String.eqb_eq in Heq. auto.
Qed.

(** The comparison is an inner join on the query name: there is one
    comparison for each result of the before run whose name occurs in the
    after run, paired with the last result of that name in the after run;
    the results of the before run without a partner are dropped, and so are
    those of the after run.  Sorting only reorders the comparisons. *)
Theorem QueryComparisons_inner_join (before after : list QueryResult.t) :
  let joined := comparisonsOf (afterMapOf after) before in
  Permutation joined (QueryComparisons before after) /\
  map QueryComparison.Name joined =
    filter (fun name => existsb (fun q => String.eqb name (QueryResult.Name q)) after)
      (map QueryResult.Name before) /\
  (forall c, In c (QueryComparisons before after) ->
     exists b a,
       In b before /\ In a after /\ QueryResult.Name a = QueryResult.Name b /\
       lastNamed (QueryResult.Name b) after = Some a /\
       c = compareQuery b a).
Proof.
  cbv zeta. unfold QueryComparisons.
  split; [apply sortByImprovement_perm|]. split.
  - induction before as [|b bs IH]; cbn [comparisonsOf map filter]; [reflexivity|].
    rewrite afterMapOf_lookup. unfold lastNamed.
    destruct (find _ (rev after)) as [a|] eqn:E.
    + apply find_some_name in E. destruct E as [Hin Hname].
      assert (Hex : existsb (fun q => String.eqb (QueryResult.Name b) (QueryResult.Name q))
                      after = true).
      { apply existsb_exists. exists a. split; [now apply in_rev|].
        apply String.eqb_eq. now symmetry. }
      rewrite Hex. cbn [map]. now rewrite IH.
    + assert (Hex : existsb (fun q => String.eqb (QueryResult.Name b) (QueryResult.Name q))
                      after = false).
      { destruct (existsb _ after) eqn:Ex; [|reflexivity].
        apply existsb_exists in Ex. destruct Ex as (a & Hin & Heq).
        apply in_rev in Hin. eapply find_none in E; [|exact Hin].
        cbv beta in E. congruence. }
      rewrite Hex. exact IH.
  - intros c Hc.
    apply (Permutation_in _ (Permutation_sym (sortByImprovement_perm _))) in Hc.
    induction before as [|b bs IH]; cbn [comparisonsOf] in Hc; [contradiction|].
    rewrite afterMapOf_lookup in Hc.
    destruct (lastNamed (QueryResult.Name b) after) as [a|] eqn:E.
    + destruct Hc as [<-|Hc].
      * exists b, a. pose proof E as E'. apply find_some_name in E'.
        destruct E' as [Hin Hname]. apply in_rev in Hin.
        repeat split; auto. now left.
      * destruct (IH Hc) as (b' & a' & Hb & Ha & Hn & Hl & Hcq).
        exists b', a'. repeat split; auto. now right.
    + destruct (IH Hc) as (b' & a' & Hb & Ha & Hn & Hl & Hcq).
      exists b', a'. repeat split; auto. now right.
Qed.

(** ** The two runners agree *)

Lemma okDurations_asRun es : okDurations (map asRun es) = successDurations es.
Proof.
  unfold okDurations, successDurations, failed, succeeded, asRun.
  induction es as [|e es IH]; cbn [map filter err]; [reflexivity|].
  destruct (QueryExecution.Error e); cbn [negb map duration]; now rewrite IH.
Qed.

Lemma errMessages_asRun es :
  Forall messageOfError es -> errMessages (map asRun es) = batchErrMessages es.
Proof.
  unfold errMessages, batchErrMessages, succeeded, asRun, messageOfError.
  induction 1 as [|e es He Hes IH]; cbn [map flat_map filter err]; [reflexivity|].
  destruct (QueryExecution.Error e); cbn [negb map app]; now rewrite IH, ?He.
Qed.

(** On the same executions [Run] and [ExecuteBatch] give the same counters,
    error details, minimum, total, average and 95th percentile: the two
    runners differ only in the fields that [Run] does not compute. *)
Theorem Run_agrees_with_ExecuteBatch (query : Query.t) (executions : list QueryExecution.t) :
  len executions < 2 ^ 45 -> Forall messageOfError executions ->
  exists r b,
    runQuery query (map asRun executions) = Some r /\
    batchQuery query executions = Some b /\
    QueryResult.SuccessfulExecutions r = QueryResult.SuccessfulExecutions b /\
    QueryResult.Errors r = QueryResult.Errors b /\
    QueryResult.ErrorDetails r = QueryResult.ErrorDetails b /\
    QueryResult.MinDuration r = QueryResult.MinDuration b /\
    QueryResult.TotalDuration r = QueryResult.TotalDuration b /\
    (successDurations executions <> [] ->
     QueryResult.AvgDuration r = QueryResult.AvgDuration b /\
     QueryResult.Percentile95 r = QueryResult.Percentile95 b).
Proof.
  intros Hlen Hmsg.
  destruct (runQuery_defined query (map asRun executions))
    as (r & Hr & _ & HS & HF & HD & HM & HT & HA & _ & _ & _ & HP).
  { now rewrite len_map. }
  destruct (batchQuery_defined query executions Hlen)
    as (b & Hb & _ & BS & BF & BD & BM & BT & BA).
  rewrite okDurations_asRun in *. rewrite (errMessages_asRun _ Hmsg) in *.
  exists r, b. rewrite HS, HF, HD, HM, HT, BS, BF, BD, BM, BT.
  repeat split; try assumption; try reflexivity.
  - destruct (BA H) as [Bavg _]. rewrite HA, Bavg.
    destruct (Z.gtb_spec (len (successDurations executions)) 0); [reflexivity|].
    exfalso. apply H, len_zero_nil. pose proof (len_nonneg (successDurations executions)). lia.
  - destruct (BA H) as (_ & st & Hst & _ & Bp95 & _).
    pose proof (len_successDurations_le executions).
    destruct (CalculateStats_defined (successDurations executions) H ltac:(lia))
      as (mn & mx & med & p95 & p99 & _ & _ & _ & Hp95 & _ & Hst').
    rewrite Hst in Hst'. injection Hst' as ->. cbn [P95] in Bp95.
    specialize (HP H). congruence.
Qed.

Lemma Run_agrees_with_ExecuteBatch_witness :
  exists r b,
    runQuery sampleQuery (map asRun [okExec 10; failExec 5 "Deadlock found"; okExec 30]) = Some r /\
    batchQuery sampleQuery [okExec 10; failExec 5 "Deadlock found"; okExec 30] = Some b /\
    QueryResult.SuccessfulExecutions r = QueryResult.SuccessfulExecutions b /\
    QueryResult.Errors r = QueryResult.Errors b /\
    QueryResult.ErrorDetails r = QueryResult.ErrorDetails b /\
    QueryResult.MinDuration r = QueryResult.MinDuration b /\
    QueryResult.TotalDuration r = QueryResult.TotalDuration b /\
    (successDurations [okExec 10; failExec 5 "Deadlock found"; okExec 30] <> [] ->
     QueryResult.AvgDuration r = QueryResult.AvgDuration b /\
     QueryResult.Percentile95 r = QueryResult.Percentile95 b).
Proof.
  apply (Run_agrees_with_ExecuteBatch sampleQuery
           [okExec 10; failExec 5 "Deadlock found"; okExec 30]).
  - reflexivity.
  - repeat constructor.
Defined.

(** ** The execution unit *)

Lemma drainRows_count latencies n t :
  fst (drainRows latencies (wrap64 n) t) = wrap64 (n + len latencies).
Proof.
  revert n t. induction latencies as [|d rest IH]; intros n t.
  - cbn. now rewrite Z.add_0_r.
  - cbn [drainRows]. unfold bind, elapse. rewrite add64_count, IH. f_equal.
    unfold len. cbn [length]. lia.
Qed.

(** One execution, whatever the clock shows: when [QueryContext] fails, no
    row is counted and its error is the error of the execution; otherwise
    every row is counted and an error of the iteration is the error of the
    execution, the rows read before it staying counted.  On the same answer
    of the database [ExecuteQuery] and [executeQuery] record the same row
    count and the same error, each with the time of its call as start time,
    and [ExecuteQuery] also records the statement and the message of its
    error. *)
Theorem ExecuteQuery_records (sql : string) (resp : dbResponse) (t0 t0' : Time) :
  len (rowLatencies resp) < 2 ^ 63 ->
  let qr := fst (executeQuery resp t0) in
  let e := fst (ExecuteQuery sql resp t0') in
  QueryExecution.RowCount e = rowCount qr /\ QueryExecution.Error e = err qr /\
  startTime qr = t0 /\ QueryExecution.StartTime e = t0' /\
  QueryExecution.SQL e = sql /\ messageOfError e /\
  (forall m, issueErr resp = Some m -> rowCount qr = 0 /\ err qr = Some m) /\
  (issueErr resp = None ->
   rowCount qr = len (rowLatencies resp) /\ err qr = rowsErr resp).
Proof.
  intros Hlen. cbv zeta.
  unfold executeQuery, ExecuteQuery, bind, time_Now, time_Since, elapse, ret.
  destruct (issueErr resp) as [msg|] eqn:E.
  - unfold messageOfError. cbn. repeat split; try reflexivity; try congruence.
    all: intros m Hm; congruence.
  - pose proof (drainRows_count (rowLatencies resp) 0 (t0 + issueLatency resp)) as Hc.
    pose proof (drainRows_count (rowLatencies resp) 0 (t0' + issueLatency resp)) as Hc'.
    change (wrap64 0) with 0 in Hc, Hc'.
    destruct (drainRows (rowLatencies resp) 0 (t0 + issueLatency resp)) as [n t1].
    destruct (drainRows (rowLatencies resp) 0 (t0' + issueLatency resp)) as [n' t1'].
    cbn [fst] in Hc, Hc'. pose proof (len_nonneg (rowLatencies resp)).
    rewrite wrap64_small in Hc, Hc' by lia.
    unfold messageOfError. cbn.
    repeat split; try reflexivity; try congruence; try lia;
      try (intros m Hm; discriminate).
    destruct (rowsErr resp); reflexivity.
Qed.

Lemma ExecuteQuery_records_witness :
  let resp := mkResponse (5 * Millisecond) None [Millisecond; Millisecond]
                Millisecond (Some "connection lost") in
  let qr := fst (executeQuery resp 0) in
  let e := fst (ExecuteQuery "SELECT 1" resp 7) in
  QueryExecution.RowCount e = rowCount qr /\ QueryExecution.Error e = err qr /\
  startTime qr = 0 /\ QueryExecution.StartTime e = 7 /\
  QueryExecution.SQL e = "SELECT 1" /\ messageOfError e /\
  (forall m, issueErr resp = Some m -> rowCount qr = 0 /\ err qr = Some m) /\
  (issueErr resp = None ->
   rowCount qr = len (rowLatencies resp) /\ err qr = rowsErr resp).
Proof.
  apply (ExecuteQuery_records "SELECT 1"
           (mkResponse (5 * Millisecond) None [Millisecond; Millisecond]
              Millisecond (Some "connection lost")) 0 7).
  reflexivity.
Defined.

(** ** The configuration *)

(** What [LoadConfig] returns has a positive number of iterations, a
    positive concurrency, a non-negative number of warm-up iterations and a
    timeout that is not zero; a configuration that has them already is
    returned as it is. *)
Theorem checkConfig_valid (config : Config) :
  let c := checkConfig config in
  0 < Iterations c /\ 0 < Concurrency c /\ 0 <= WarmupIterations c /\ Timeout c <> 0 /\
  checkConfig c = c /\
  (0 < Iterations config -> 0 < Concurrency config -> 0 <= WarmupIterations config ->
   Timeout config <> 0 -> c = config) /\
  (Concurrency config <= 0 -> Concurrency c = 5) /\
  (Iterations config <= 0 -> Iterations c = 50) /\
  (Timeout config = 0 -> Timeout c = 30 * Second).
Proof.
  cbv zeta. destruct config as [dsn qf od it co wu la ti ve].
  unfold checkConfig.
  cbn [DSN QueriesFile OutputDir Iterations Concurrency WarmupIterations Label Timeout
       Verbose].
  destruct (Z.leb_spec it 0); destruct (Z.leb_spec co 0); destruct (Z.ltb_spec wu 0);
    destruct (Z.eqb_spec ti 0);
    cbn [DSN QueriesFile OutputDir Iterations Concurrency WarmupIterations Label Timeout
         Verbose];
    repeat match goal with
           | |- context [Z.leb ?a ?b] => destruct (Z.leb_spec a b); try lia
           | |- context [Z.ltb ?a ?b] => destruct (Z.ltb_spec a b); try lia
           | |- context [Z.eqb ?a ?b] => destruct (Z.eqb_spec a b); try (exfalso; lia)
           end;
    repeat split; try reflexivity; try lia;
    try discriminate; try (intros; exfalso; lia); try (intros; congruence).
Qed.

(** ** What [Run] returns *)

Lemma len_update {A : Type} (l : list A) (g : nat) (x : A) : len (update l g x) = len l.
Proof.
  unfold len. f_equal. revert g. induction l as [|y t IH]; intros g; [reflexivity|].
  destruct g; cbn [update length]; [reflexivity|now rewrite IH].
Qed.

Lemma forallb_all_filter {A : Type} (f g : A -> bool) (l : list A) :
  forallb f l = true -> (forall x, f x = true -> g x = true) -> filter g l = l.
Proof.
  intros Hall Himp. induction l as [|y t IH]; [reflexivity|].
  cbn [forallb] in Hall. apply andb_prop in Hall. destruct Hall as [Hy Ht].
  cbn [filter]. rewrite (Himp y Hy). now rewrite IH.
Qed.

Lemma runResultsInv_init a : runResultsInv a (runInit a).
Proof. exists []. cbn. repeat split. constructor. Qed.

Lemma runResultsInv_step a s l s' :
  runResultsInv a s -> runStep a s l = Some s' -> runResultsInv a s'.
Proof.
  intros (done & Hq & Hdone & Hcur) Hstep. unfold runResultsInv, curList in *.
  destruct l as [| |g qr|g|g|]; cbn [runStep] in Hstep.
  - destruct (rs_cur s) eqn:Ec; [discriminate|].
    destruct (rs_todo s) as [|q rest] eqn:Et; [discriminate|].
    injection Hstep as <-. cbn [rs_cur rs_todo rs_results rs_acc rs_go rs_i].
    exists done. split; [exact Hq|]. split; [exact Hdone|].
    exists []. cbn. repeat split; lia.
  - destruct (rs_cur s) as [query|] eqn:Ec; [|discriminate].
    destruct (Z.ltb_spec (rs_i s) (iterations a)); [|discriminate].
    destruct (rs_sem s <? concurrency a); [|discriminate].
    injection Hstep as <-. cbn [rs_cur rs_todo rs_results rs_acc rs_go rs_i].
    rewrite ?Ec. exists done. split; [exact Hq|]. split; [exact Hdone|].
    destruct Hcur as (cs & Hacc & Hlen & Hgo & Hi).
    exists cs. rewrite filter_app, !len_app. cbn [filter merged]. rewrite len_nil, len_one.
    repeat split; try assumption; lia.
  - destruct (nth_error (rs_go s) g) as [[| | |]|] eqn:Eg; try discriminate.
    injection Hstep as <-. cbn [rs_cur rs_todo rs_results rs_acc rs_go rs_i].
    exists done. split; [exact Hq|]. split; [exact Hdone|].
    destruct (rs_cur s); [|exact I].
    destruct Hcur as (cs & Hacc & Hlen & Hgo & Hi).
    exists cs. rewrite (filter_update_count _ _ _ _ _ Eg), len_update. cbn [merged].
    repeat split; try assumption; lia.
  - destruct (nth_error (rs_go s) g) as [[|qr| |]|] eqn:Eg; try discriminate.
    destruct (rs_cur s) as [query|] eqn:Ec; [|discriminate].
    injection Hstep as <-. cbn [rs_cur rs_todo rs_results rs_acc rs_go rs_i].
    rewrite ?Ec. exists done. split; [exact Hq|]. split; [exact Hdone|].
    destruct Hcur as (cs & Hacc & Hlen & Hgo & Hi).
    exists (cs ++ [qr]).
    rewrite fold_left_app, <- Hacc, (filter_update_count _ _ _ _ _ Eg), len_update, len_app.
    cbn [merged fold_left]. rewrite len_one.
    repeat split; try assumption; lia.
  - destruct (nth_error (rs_go s) g) as [[| | |]|] eqn:Eg; try discriminate.
    injection Hstep as <-. cbn [rs_cur rs_todo rs_results rs_acc rs_go rs_i].
    exists done. split; [exact Hq|]. split; [exact Hdone|].
    destruct (rs_cur s); [|exact I].
    destruct Hcur as (cs & Hacc & Hlen & Hgo & Hi).
    exists cs. rewrite (filter_update_count _ _ _ _ _ Eg), len_update. cbn [merged].
    repeat split; try assumption; lia.
  - destruct (rs_cur s) as [query|] eqn:Ec; [|discriminate].
    destruct (Z.geb_spec (rs_i s) (iterations a)); [|discriminate].
    destruct (forallb (fun p => negb (holdsSlot p)) (rs_go s)) eqn:Ef; [|discriminate].
    cbn [andb] in Hstep.
    destruct (finalizeRun (rs_acc s)) as [result|] eqn:Efin; [|discriminate].
    injection Hstep as <-. cbn [rs_cur rs_todo rs_results rs_acc rs_go rs_i].
    destruct Hcur as (cs & Hacc & Hlen & Hgo & Hi).
    exists (done ++ [query]). split; [rewrite Hq, <- app_assoc; reflexivity|].
    split; [|exact I].
    apply Forall2_app; [exact Hdone|]. constructor; [|constructor].
    exists cs. split.
    + rewrite Hlen.
      rewrite (forallb_all_filter _ merged _ Ef) by (intros [| | |]; cbn; congruence).
      pose proof (len_nonneg (rs_go s)). lia.
    + unfold runQuery. now rewrite <- Hacc.
Qed.


Lemma Forall3_snoc {A B C : Type} (P : A -> B -> C -> Prop) l1 l2 l3 x y z :
  Forall3 P l1 l2 l3 -> P x y z -> Forall3 P (l1 ++ [x]) (l2 ++ [y]) (l3 ++ [z]).
Proof.
  induction 1 as [|x' y' z' l1 l2 l3 Hp Hrest IH]; intros Hnew; cbn [app].
  - constructor; [exact Hnew|constructor].
  - constructor; [exact Hp|apply IH; exact Hnew].
Qed.

Lemma Forall3_nth {A B C : Type} (P : A -> B -> C -> Prop) l1 l2 l3 k x :
  Forall3 P l1 l2 l3 -> nth_error l1 k = Some x ->
  exists y z, nth_error l2 k = Some y /\ nth_error l3 k = Some z /\ P x y z.
Proof.
  intros H. revert k. induction H as [|x' y' z' l1 l2 l3 Hp Hrest IH]; intros k Hk.
  - destruct k; discriminate.
  - destruct k as [|k]; cbn [nth_error] in *.
    + injection Hk as <-. eauto.
    + apply IH. exact Hk.
Qed.

Lemma Forall3_length {A B C : Type} (P : A -> B -> C -> Prop) l1 l2 l3 :
  Forall3 P l1 l2 l3 -> len l2 = len l1.
Proof.
  induction 1 as [|x y z l1 l2 l3 Hp Hrest IH]; [reflexivity|].
  unfold len in *. cbn [length]. lia.
Qed.

Lemma pending_update (go : list gphase) (g : nat) (old x : gphase) :
  nth_error go g = Some old ->
  Permutation (pending x ++ flat_map pending go)
              (pending old ++ flat_map pending (update go g x)).
Proof.
  revert g. induction go as [|y t IH]; intros g Hg; destruct g; try discriminate.
  - injection Hg as ->. cbn [update flat_map]. apply Permutation_app_swap_app.
  - cbn [nth_error] in Hg. cbn [update flat_map].
    eapply Permutation_trans; [apply Permutation_app_swap_app|].
    eapply Permutation_trans; [|apply Permutation_app_swap_app].
    apply Permutation_app_head. apply IH. exact Hg.
Qed.

Lemma pending_released (go : list gphase) :
  forallb (fun p => negb (holdsSlot p)) go = true -> flat_map pending go = [].
Proof.
  induction go as [|p t IH]; [reflexivity|]. cbn [forallb flat_map]. intros H.
  apply andb_prop in H. destruct H as [Hp Ht].
  destruct p; try discriminate. cbn [pending app]. apply IH. exact Ht.
Qed.

Lemma runTiedInv_init a : runTiedInv a ([], []) (runInit a).
Proof. exists []. cbn. repeat split. constructor. Qed.

Lemma runTiedInv_step a acc s l s' :
  runTiedInv a acc s -> runStep a s l = Some s' -> runTiedInv a (runReturnsStep acc l) s'.
Proof.
  intros (done & Hq & Hdone & Hcur) Hstep. unfold runTiedInv, curList in *.
  destruct l as [| |g qr|g|g|]; cbn [runStep] in Hstep; cbn [runReturnsStep fst snd].
  - destruct (rs_cur s) eqn:Ec; [discriminate|].
    destruct (rs_todo s) as [|q rest] eqn:Et; [discriminate|].
    injection Hstep as <-. cbn [rs_cur rs_todo rs_results rs_acc rs_go rs_i].
    exists done. split; [exact Hq|]. split; [exact Hdone|].
    exists []. cbn. repeat split; try lia. constructor.
  - destruct (rs_cur s) as [query|] eqn:Ec; [|discriminate].
    destruct (Z.ltb_spec (rs_i s) (iterations a)); [|discriminate].
    destruct (rs_sem s <? concurrency a); [|discriminate].
    injection Hstep as <-. cbn [rs_cur rs_todo rs_results rs_acc rs_go rs_i].
    rewrite ?Ec. exists done. split; [exact Hq|]. split; [exact Hdone|].
    destruct Hcur as (cs & Hacc & Hperm & Hlen & Hgo & Hi).
    exists cs. rewrite filter_app, flat_map_app, !len_app.
    cbn [filter merged flat_map pending app]. rewrite len_nil, len_one, app_nil_r.
    repeat split; try assumption; lia.
  - destruct (nth_error (rs_go s) g) as [[| | |]|] eqn:Eg; try discriminate.
    injection Hstep as <-. cbn [rs_cur rs_todo rs_results rs_acc rs_go rs_i].
    exists done. split; [exact Hq|]. split; [exact Hdone|].
    destruct (rs_cur s); [|exact I].
    destruct Hcur as (cs & Hacc & Hperm & Hlen & Hgo & Hi).
    exists cs. rewrite (filter_update_count _ _ _ _ _ Eg), len_update. cbn [merged].
    repeat split; try assumption; try lia.
    pose proof (pending_update _ _ _ (GGot qr) Eg) as Hupd. cbn [pending app] in Hupd.
    eapply Permutation_trans;
      [apply Permutation_app_head, Permutation_sym, Hupd|].
    eapply Permutation_trans; [apply Permutation_sym, Permutation_middle|].
    eapply Permutation_trans; [apply perm_skip, Hperm|].
    apply Permutation_cons_append.
  - destruct (nth_error (rs_go s) g) as [[|qr| |]|] eqn:Eg; try discriminate.
    destruct (rs_cur s) as [query|] eqn:Ec; [|discriminate].
    injection Hstep as <-. cbn [rs_cur rs_todo rs_results rs_acc rs_go rs_i].
    rewrite ?Ec. exists done. split; [exact Hq|]. split; [exact Hdone|].
    destruct Hcur as (cs & Hacc & Hperm & Hlen & Hgo & Hi).
    exists (cs ++ [qr]).
    rewrite fold_left_app, <- Hacc, (filter_update_count _ _ _ _ _ Eg), len_update, len_app.
    cbn [merged fold_left]. rewrite len_one.
    repeat split; try assumption; try lia.
    pose proof (pending_update _ _ _ GMerged Eg) as Hupd. cbn [pending app] in Hupd.
    rewrite <- app_assoc. cbn [app].
    eapply Permutation_trans; [apply Permutation_app_head, Permutation_sym, Hupd|].
    exact Hperm.
  - destruct (nth_error (rs_go s) g) as [[| | |]|] eqn:Eg; try discriminate.
    injection Hstep as <-. cbn [rs_cur rs_todo rs_results rs_acc rs_go rs_i].
    exists done. split; [exact Hq|]. split; [exact Hdone|].
    destruct (rs_cur s); [|exact I].
    destruct Hcur as (cs & Hacc & Hperm & Hlen & Hgo & Hi).
    exists cs. rewrite (filter_update_count _ _ _ _ _ Eg), len_update. cbn [merged].
    repeat split; try assumption; try lia.
    pose proof (pending_update _ _ _ GDone Eg) as Hupd. cbn [pending app] in Hupd.
    eapply Permutation_trans; [apply Permutation_app_head, Permutation_sym, Hupd|].
    exact Hperm.
  - destruct (rs_cur s) as [query|] eqn:Ec; [|discriminate].
    destruct (Z.geb_spec (rs_i s) (iterations a)); [|discriminate].
    destruct (forallb (fun p => negb (holdsSlot p)) (rs_go s)) eqn:Ef; [|discriminate].
    cbn [andb] in Hstep.
    destruct (finalizeRun (rs_acc s)) as [result|] eqn:Efin; [|discriminate].
    injection Hstep as <-. cbn [rs_cur rs_todo rs_results rs_acc rs_go rs_i].
    destruct Hcur as (cs & Hacc & Hperm & Hlen & Hgo & Hi).
    rewrite (pending_released _ Ef), app_nil_r in Hperm.
    exists (done ++ [query]). split; [rewrite Hq, <- app_assoc; reflexivity|].
    split; [|exact I].
    apply Forall3_snoc; [exact Hdone|].
    exists cs. split; [exact Hperm|]. split.
    + assert (Hsame : len (snd acc) = len cs)
        by (unfold len; now rewrite (Permutation_length Hperm)).
      rewrite Hsame, Hlen.
      rewrite (forallb_all_filter _ merged _ Ef) by (intros [| | |]; cbn; congruence).
      pose proof (len_nonneg (rs_go s)). lia.
    + unfold runQuery. now rewrite <- Hacc.
Qed.

Lemma runTiedInv_trace a ls acc s s' :
  runTiedInv a acc s -> runTrace a s ls = Some s' ->
  runTiedInv a (fold_left runReturnsStep ls acc) s'.
Proof.
  revert acc s. induction ls as [|l ls IH]; intros acc s Hinv Htr;
    cbn [runTrace fold_left] in *.
  - injection Htr as <-. exact Hinv.
  - destruct (runStep a s l) as [s1|] eqn:E; [|discriminate].
    eapply IH; [eapply runTiedInv_step; eassumption|exact Htr].
Qed.

(** When [Run] returns (the outer loop has no query left and none in hand)
    it has one result per query, in the order of the queries, and the
    result of a query is the merge of the executions that [executeQuery]
    returned while this query was in hand, each of them once, of which there
    are exactly [iterations]: whatever the interleaving of the goroutines,
    no execution is lost, none is merged twice and none goes to another
    query. *)
Theorem Run_returns_one_result_per_query (a : Analyzer) (ls : list RunLabel)
  (s : RunState) :
  0 <= iterations a -> 0 <= concurrency a ->
  runTrace a (runInit a) ls = Some s -> rs_cur s = None -> rs_todo s = [] ->
  len (rs_results s) = len (queries a) /\
  forall k query, nth_error (queries a) k = Some query ->
    exists r returned completions,
      nth_error (rs_results s) k = Some r /\
      nth_error (runReturns ls) k = Some returned /\
      len returned = iterations a /\
      Permutation completions returned /\
      runQuery query completions = Some r.
Proof.
  intros Hit _ Htr Hc Ht.
  destruct (runTiedInv_trace a ls _ _ _ (runTiedInv_init a) Htr) as (done & Hq & Hdone & _).
  unfold curList in Hq. rewrite Hc, Ht, !app_nil_r in Hq. subst done.
  fold (runReturns ls) in Hdone.
  split; [exact (Forall3_length _ _ _ _ Hdone)|].
  intros k query Hk.
  destruct (Forall3_nth _ _ _ _ _ _ Hdone Hk) as (r & returned & Hr & Hret & cs & Hp & Hl & Hrun).
  exists r, returned, cs. repeat split; try assumption. lia.
Qed.

Lemma Run_returns_one_result_per_query_witness :
  let a := mkAnalyzer [sampleQuery] 2 2 (30 * Second) false in
  let ls :=
    [RNext; RSpawn; RSpawn; RReturn 1 (failRun 30 "timeout"); RReturn 0 (okRun 10);
     RMerge 0; RMerge 1; RRelease 1; RRelease 0; RWait] in
  exists s,
    runTrace a (runInit a) ls = Some s /\
    len (rs_results s) = len (queries a) /\
    forall k query, nth_error (queries a) k = Some query ->
      exists r returned completions,
        nth_error (rs_results s) k = Some r /\
        nth_error (runReturns ls) k = Some returned /\
        len returned = iterations a /\
        Permutation completions returned /\
        runQuery query completions = Some r.
Proof.
  cbv zeta. eexists. split; [vm_compute; reflexivity|].
  apply (Run_returns_one_result_per_query
           (mkAnalyzer [sampleQuery] 2 2 (30 * Second) false)
           [RNext; RSpawn; RSpawn; RReturn 1 (failRun 30 "timeout"); RReturn 0 (okRun 10);
            RMerge 0; RMerge 1; RRelease 1; RRelease 0; RWait]);
    [cbn; lia|cbn; lia|vm_compute; reflexivity|reflexivity|reflexivity].
Defined.

(** ** [Run] neither blocks nor runs for ever *)




Lemma sumZ_app (l1 l2 : list Z) : sumZ (l1 ++ l2) = sumZ l1 + sumZ l2.
Proof. unfold sumZ. induction l1 as [|x t IH]; cbn [app fold_right]; lia. Qed.

Lemma phaseWork_update (l : list gphase) (g : nat) (old x : gphase) :
  nth_error l g = Some old ->
  sumZ (map phaseWork (update l g x)) =
  sumZ (map phaseWork l) - phaseWork old + phaseWork x.
Proof.
  revert g. induction l as [|y t IH]; intros g Hg; destruct g; try discriminate.
  - injection Hg as ->. unfold sumZ. cbn [update map fold_right]. lia.
  - cbn [nth_error] in Hg. specialize (IH g Hg). unfold sumZ in *.
    cbn [update map fold_right]. lia.
Qed.

Lemma phaseWork_nonneg (l : list gphase) : 0 <= sumZ (map phaseWork l).
Proof.
  unfold sumZ. induction l as [|[| | |] t IH]; cbn [map fold_right phaseWork]; lia.
Qed.

Lemma runWork_step a s l s' :
  runInv a s -> runResultsInv a s -> runStep a s l = Some s' ->
  0 <= runWork a s' < runWork a s.
Proof.
  intros (_ & _ & Hnone) Hinv Hstep.
  pose proof (runResultsInv_step a s l s' Hinv Hstep) as (done' & _ & _ & Hcur').
  destruct Hinv as (done & _ & _ & Hcur).
  assert (Hnn : forall t, 0 <= runWork a t \/ rs_i t > Z.max 0 (iterations a)).
  { intros t. unfold runWork. pose proof (len_nonneg (rs_todo t)).
    pose proof (phaseWork_nonneg (rs_go t)).
    destruct (rs_cur t); [|left; nia].
    destruct (Z.le_gt_cases (rs_i t) (Z.max 0 (iterations a))); [left; nia|right; lia]. }
  assert (Hs' : 0 <= runWork a s').
  { destruct (Hnn s') as [H|H]; [exact H|].
    destruct (rs_cur s') eqn:Ec'.
    - destruct Hcur' as (cs & _ & _ & _ & Hi). lia.
    - unfold runWork. rewrite Ec'. pose proof (len_nonneg (rs_todo s')). nia. }
  split; [exact Hs'|]. clear Hs' Hnn Hcur'.
  unfold runWork. destruct l as [| |g qr|g|g|]; cbn [runStep] in Hstep.
  - destruct (rs_cur s) eqn:Ec; [discriminate|].
    destruct (rs_todo s) as [|q rest] eqn:Et; [discriminate|].
    injection Hstep as <-. cbn [rs_cur rs_todo rs_go rs_i map].
    unfold len, sumZ. cbn [length fold_right]. lia.
  - destruct (rs_cur s) as [query|] eqn:Ec; [|discriminate].
    destruct (rs_i s <? iterations a); [|discriminate].
    destruct (rs_sem s <? concurrency a); [|discriminate].
    injection Hstep as <-. cbn [rs_cur rs_todo rs_go rs_i].
    rewrite map_app, sumZ_app. unfold sumZ at 2. cbn [map phaseWork fold_right]. lia.
  - destruct (nth_error (rs_go s) g) as [[| | |]|] eqn:Eg; try discriminate.
    injection Hstep as <-. cbn [rs_cur rs_todo rs_go rs_i].
    destruct (rs_cur s) eqn:Ec.
    + rewrite (phaseWork_update _ _ _ _ Eg). cbn [phaseWork]. lia.
    + (* no goroutine is running between two queries *)
      exfalso. specialize (Hnone eq_refl).
      pose proof (forallb_nth_error _ _ _ _ Hnone Eg). discriminate.
  - destruct (nth_error (rs_go s) g) as [[|qr'| |]|] eqn:Eg; try discriminate.
    destruct (rs_cur s) as [query|] eqn:Ec; [|discriminate].
    injection Hstep as <-. cbn [rs_cur rs_todo rs_go rs_i].
    rewrite (phaseWork_update _ _ _ _ Eg). cbn [phaseWork]. lia.
  - destruct (nth_error (rs_go s) g) as [[| | |]|] eqn:Eg; try discriminate.
    injection Hstep as <-. cbn [rs_cur rs_todo rs_go rs_i].
    destruct (rs_cur s) eqn:Ec.
    + rewrite (phaseWork_update _ _ _ _ Eg). cbn [phaseWork]. lia.
    + exfalso. specialize (Hnone eq_refl).
      pose proof (forallb_nth_error _ _ _ _ Hnone Eg). discriminate.
  - destruct (rs_cur s) as [query|] eqn:Ec; [|discriminate].
    destruct (Z.geb_spec (rs_i s) (iterations a)); [|discriminate].
    destruct (forallb (fun p => negb (holdsSlot p)) (rs_go s)) eqn:Ef; [|discriminate].
    cbn [andb] in Hstep.
    destruct (finalizeRun (rs_acc s)); [|discriminate].
    injection Hstep as <-. cbn [rs_cur rs_todo rs_go rs_i].
    destruct Hcur as (cs & _ & _ & _ & Hi).
    pose proof (phaseWork_nonneg (rs_go s)). lia.
Qed.

Lemma runTrace_work a ls s s' :
  runInv a s -> runResultsInv a s -> runTrace a s ls = Some s' ->
  ls = [] \/ (0 <= runWork a s' /\ len ls + runWork a s' <= runWork a s).
Proof.
  revert s. induction ls as [|l ls IH]; intros s Hi Hr Htr; [now left|right].
  cbn [runTrace] in Htr. destruct (runStep a s l) as [s1|] eqn:E; [|discriminate].
  pose proof (runWork_step a s l s1 Hi Hr E) as Hw.
  destruct (IH s1 (runInv_step _ _ _ _ Hi E) (runResultsInv_step _ _ _ _ Hr E) Htr)
    as [->|[H0 Hle]].
  - cbn [runTrace] in Htr. injection Htr as <-. rewrite len_one. lia.
  - unfold len in *. cbn [length]. lia.
Qed.

(** [Run] terminates: whatever the goroutines do and in whatever order, it
    takes at most [4 * iterations + 2] steps per query (a spawn, a return, a
    merge and a release per execution, and the start and the end of the
    query). *)
Theorem Run_terminates (a : Analyzer) (ls : list RunLabel) (s : RunState) :
  runTrace a (runInit a) ls = Some s ->
  len ls <= len (queries a) * (4 * Z.max 0 (iterations a) + 2).
Proof.
  intros Htr.
  destruct (runTrace_work a ls _ _ (runInv_init a) (runResultsInv_init a) Htr)
    as [->|[H0 Hle]].
  - rewrite len_nil. pose proof (len_nonneg (queries a)). nia.
  - unfold runWork at 2 in Hle. cbn [runInit rs_todo rs_cur] in Hle. lia.
Qed.

Lemma Run_terminates_witness :
  let a := mkAnalyzer [sampleQuery] 1 1 (30 * Second) false in
  len [RNext; RSpawn; RReturn 0 (okRun 10); RMerge 0; RRelease 0; RWait] <=
  len (queries a) * (4 * Z.max 0 (iterations a) + 2).
Proof.
  cbv zeta. eapply Run_terminates. vm_compute. reflexivity.
Defined.

(** ** What [ExecuteBatch] returns *)

Lemma Forall_update {A : Type} (P : A -> Prop) (l : list A) (k : nat) (x : A) :
  Forall P l -> P x -> Forall P (update l k x).
Proof.
  intros Hl Hx. revert k. induction Hl as [|y t Hy Ht IH]; intros k; [constructor|].
  destruct k; cbn [update]; constructor; auto.
Qed.

Lemma Forall_nth_error {A : Type} (P : A -> Prop) (l : list A) (k : nat) (x : A) :
  Forall P l -> nth_error l k = Some x -> P x.
Proof.
  intros Hl Hk. rewrite Forall_forall in Hl. apply Hl. eapply nth_error_In; eassumption.
Qed.

Lemma map_update_same {A B : Type} (f : A -> B) (l : list A) (k : nat) (old x : A) :
  nth_error l k = Some old -> f x = f old -> map f (update l k x) = map f l.
Proof.
  revert k. induction l as [|y t IH]; intros k Hk Hf; destruct k; try discriminate.
  - injection Hk as ->. cbn [update map]. now rewrite Hf.
  - cbn [nth_error] in Hk. cbn [update map]. now rewrite (IH k Hk Hf).
Qed.

Lemma batchResultsInv_init iters qs : batchResultsInv iters qs (batchInit qs).
Proof.
  unfold batchResultsInv, batchInit. cbn [bs_workers]. split.
  - rewrite map_map. cbn [w_query]. apply map_id.
  - apply Forall_forall. intros w Hw. apply in_map_iff in Hw.
    destruct Hw as (q & <- & _). unfold workerInv. cbn [w_phase w_result w_query w_iter].
    exists []. cbn. repeat split; try lia; try discriminate.
Qed.

Lemma batchResultsInv_step qe iters qs s l s' :
  batchResultsInv iters qs s -> batchStep qe iters s l = Some s' ->
  batchResultsInv iters qs s'.
Proof.
  intros (Hqs & Hall) Hstep. unfold batchResultsInv.
  destruct l as [k|k e|k|k|k]; cbn [batchStep] in Hstep;
    destruct (nth_error (bs_workers s) k) as [w|] eqn:Ek; try discriminate;
    pose proof (Forall_nth_error _ _ _ _ Hall Ek) as Hw; unfold workerInv in Hw;
    destruct (w_phase w) eqn:Ep; try discriminate.
  - destruct (Z.ltb_spec (w_iter w) iters); [|discriminate].
    destruct (bs_sem s <? qe_concurrency qe); [|discriminate].
    cbn [andb] in Hstep.
    injection Hstep as <-. unfold setWorker. cbn [bs_workers].
    split; [rewrite (map_update_same _ _ _ _ _ Ek); auto|].
    apply Forall_update; [exact Hall|]. unfold workerInv. cbn [w_phase w_result w_query w_iter].
    destruct Hw as (es & Hr & Hl & Hi & _). exists es. repeat split; auto.
  - injection Hstep as <-. unfold setWorker. cbn [bs_workers].
    split; [rewrite (map_update_same _ _ _ _ _ Ek); auto|].
    apply Forall_update; [exact Hall|]. unfold workerInv. cbn [w_phase w_result w_query w_iter].
    destruct Hw as (es & Hr & Hl & Hi & Hb). exists es. repeat split; auto.
    intros _. apply Hb. unfold busy. now rewrite Ep.
  - injection Hstep as <-. unfold setWorker. cbn [bs_workers].
    split; [rewrite (map_update_same _ _ _ _ _ Ek); auto|].
    apply Forall_update; [exact Hall|]. unfold workerInv. cbn [w_phase w_result w_query w_iter].
    destruct Hw as (es & Hr & Hl & Hi & Hb). exists es. repeat split; auto.
    intros _. apply Hb. unfold busy. now rewrite Ep.
  - injection Hstep as <-. unfold setWorker. cbn [bs_workers].
    split; [rewrite (map_update_same _ _ _ _ _ Ek); auto|].
    apply Forall_update; [exact Hall|]. unfold workerInv. cbn [w_phase w_result w_query w_iter].
    destruct Hw as (es & Hr & Hl & Hi & Hb).
    assert (w_iter w < iters) by (apply Hb; unfold busy; now rewrite Ep).
    exists (es ++ [e]). rewrite fold_left_app, <- Hr, len_app, len_one. cbn [fold_left].
    repeat split; try lia. unfold busy. cbn [w_phase]. discriminate.
  - destruct (Z.geb_spec (w_iter w) iters); [|discriminate].
    destruct (finalizeBatch (w_result w)) as [result|] eqn:Efin; [|discriminate].
    injection Hstep as <-. unfold setWorker. cbn [bs_workers].
    split; [rewrite (map_update_same _ _ _ _ _ Ek); auto|].
    apply Forall_update; [exact Hall|]. unfold workerInv. cbn [w_phase w_result w_query w_iter].
    destruct Hw as (es & Hr & Hl & Hi & _).
    exists es. pose proof (len_nonneg es). split; [lia|].
    unfold batchQuery. now rewrite <- Hr.
Qed.

Lemma batchResultsInv_trace qe iters qs ls s s' :
  batchResultsInv iters qs s -> batchTrace qe iters s ls = Some s' ->
  batchResultsInv iters qs s'.
Proof.
  revert s. induction ls as [|l ls IH]; intros s Hinv Htr; cbn [batchTrace] in Htr.
  - injection Htr as <-. exact Hinv.
  - destruct (batchStep qe iters s l) as [s1|] eqn:E; [|discriminate].
    eapply IH; [eapply batchResultsInv_step; eassumption|exact Htr].
Qed.

Lemma nth_error_update_other {A : Type} (l : list A) (k k' : nat) (x : A) :
  k <> k' -> nth_error (update l k x) k' = nth_error l k'.
Proof.
  revert k k'. induction l as [|y t IH]; intros k k' Hne; [reflexivity|].
  destruct k, k'; cbn [update nth_error]; try reflexivity; try congruence.
  apply IH. congruence.
Qed.

Lemma batchReturns_snoc k ls l :
  batchReturns k (ls ++ [l]) = batchReturns k ls ++ batchReturned l k.
Proof.
  unfold batchReturns. rewrite flat_map_app. cbn [flat_map]. now rewrite app_nil_r.
Qed.

Lemma batchTiedInv_init iters qs : batchTiedInv iters qs [] (batchInit qs).
Proof.
  unfold batchTiedInv, batchInit. cbn [bs_workers]. split.
  - rewrite map_map. cbn [w_query]. apply map_id.
  - intros k w Hk. apply nth_error_In, in_map_iff in Hk.
    destruct Hk as (q & <- & _). unfold workerTied. cbn. repeat split; lia.
Qed.

(** A step of a goroutine other than [k], or a step of [k] that returns
    nothing, leaves what was returned to [k] as it is. *)
Lemma batchTied_other iters ls l (ws : list worker) k w' :
  (forall k' w, nth_error ws k' = Some w -> workerTied iters (batchReturns k' ls) w) ->
  (forall k', k' <> k -> batchReturned l k' = []) ->
  workerTied iters (batchReturns k (ls ++ [l])) w' ->
  forall k' w, nth_error (update ws k w') k' = Some w ->
    workerTied iters (batchReturns k' (ls ++ [l])) w.
Proof.
  intros Hall Hother Hnew k' w Hk'.
  destruct (Nat.eq_dec k k') as [<-|Hne].
  - destruct (nth_error ws k) as [old|] eqn:Eold.
    + rewrite (nth_error_update _ _ _ _ Eold) in Hk'. injection Hk' as <-. exact Hnew.
    + exfalso. revert Hk' Eold. clear. revert k.
      induction ws as [|y t IH]; intros k; destruct k; cbn [update nth_error];
        try discriminate. apply IH.
  - rewrite nth_error_update_other in Hk' by assumption.
    rewrite batchReturns_snoc, (Hother k') by congruence.
    rewrite app_nil_r. apply Hall. exact Hk'.
Qed.

Lemma batchReturned_other k e k' : k' <> k -> batchReturned (BReturn k e) k' = [].
Proof.
  intros Hne. cbn [batchReturned]. destruct (Nat.eqb_spec k' k); [contradiction|reflexivity].
Qed.

Lemma batchTiedInv_step qe iters qs ls s l s' :
  batchTiedInv iters qs ls s -> batchStep qe iters s l = Some s' ->
  batchTiedInv iters qs (ls ++ [l]) s'.
Proof.
  intros (Hqs & Hall) Hstep. unfold batchTiedInv.
  destruct l as [k|k e|k|k|k]; cbn [batchStep] in Hstep;
    destruct (nth_error (bs_workers s) k) as [w|] eqn:Ek; try discriminate;
    pose proof (Hall k w Ek) as Hw; unfold workerTied in Hw;
    destruct (w_phase w) eqn:Ep; try discriminate.
  - destruct (Z.ltb_spec (w_iter w) iters); [|discriminate].
    destruct (bs_sem s <? qe_concurrency qe); [|discriminate].
    cbn [andb] in Hstep. injection Hstep as <-. unfold setWorker. cbn [bs_workers].
    split; [rewrite (map_update_same _ _ _ _ _ Ek); auto|].
    apply (batchTied_other iters ls (BAcquire k) (bs_workers s) k); auto.
    rewrite batchReturns_snoc. cbn [batchReturned]. rewrite app_nil_r.
    unfold workerTied. cbn [w_phase w_result w_query w_iter].
    destruct Hw as (Hr & Hl & Hi). auto.
  - injection Hstep as <-. unfold setWorker. cbn [bs_workers].
    split; [rewrite (map_update_same _ _ _ _ _ Ek); auto|].
    apply (batchTied_other iters ls (BReturn k e) (bs_workers s) k); auto.
    + intros k' Hne. now apply batchReturned_other.
    + rewrite batchReturns_snoc. cbn [batchReturned]. rewrite Nat.eqb_refl.
      unfold workerTied. cbn [w_phase w_result w_query w_iter].
      destruct Hw as (Hr & Hl & Hi). exists (batchReturns k ls). auto.
  - injection Hstep as <-. unfold setWorker. cbn [bs_workers].
    split; [rewrite (map_update_same _ _ _ _ _ Ek); auto|].
    apply (batchTied_other iters ls (BRelease k) (bs_workers s) k); auto.
    rewrite batchReturns_snoc. cbn [batchReturned]. rewrite app_nil_r.
    unfold workerTied. cbn [w_phase w_result w_query w_iter]. exact Hw.
  - injection Hstep as <-. unfold setWorker. cbn [bs_workers].
    split; [rewrite (map_update_same _ _ _ _ _ Ek); auto|].
    apply (batchTied_other iters ls (BMerge k) (bs_workers s) k); auto.
    rewrite batchReturns_snoc. cbn [batchReturned]. rewrite app_nil_r.
    unfold workerTied. cbn [w_phase w_result w_query w_iter].
    destruct Hw as (merged & Hret & Hr & Hl & Hi).
    rewrite Hret, fold_left_app, <- Hr, len_app, len_one. cbn [fold_left].
    repeat split; lia.
  - destruct (Z.geb_spec (w_iter w) iters); [|discriminate].
    destruct (finalizeBatch (w_result w)) as [result|] eqn:Efin; [|discriminate].
    injection Hstep as <-. unfold setWorker. cbn [bs_workers].
    split; [rewrite (map_update_same _ _ _ _ _ Ek); auto|].
    apply (batchTied_other iters ls (BFinish k) (bs_workers s) k); auto.
    rewrite batchReturns_snoc. cbn [batchReturned]. rewrite app_nil_r.
    unfold workerTied. cbn [w_phase w_result w_query w_iter].
    destruct Hw as (Hr & Hl & Hi).
    pose proof (len_nonneg (batchReturns k ls)). split; [lia|].
    unfold batchQuery. now rewrite <- Hr.
Qed.

Lemma batchTiedInv_trace qe iters qs ls pre s s' :
  batchTiedInv iters qs pre s -> batchTrace qe iters s ls = Some s' ->
  batchTiedInv iters qs (pre ++ ls) s'.
Proof.
  revert pre s. induction ls as [|l ls IH]; intros pre s Hinv Htr; cbn [batchTrace] in Htr.
  - injection Htr as <-. now rewrite app_nil_r.
  - destruct (batchStep qe iters s l) as [s1|] eqn:E; [|discriminate].
    change (l :: ls) with ([l] ++ ls). rewrite app_assoc.
    eapply IH; [eapply batchTiedInv_step; eassumption|exact Htr].
Qed.

(** When every goroutine of [ExecuteBatch] has finished, [results] holds
    one result per query, at the index of the query: the merge, in the
    order of their return, of the executions that [ExecuteQuery] returned
    to the goroutine of this query, of which there are exactly
    [iterations].  No execution is lost, merged twice or merged into the
    result of another query, whatever the interleaving. *)
Theorem ExecuteBatch_returns_one_result_per_query (qe : QueryExecutor) (iters : Z)
  (qs : list Query.t) (ls : list BatchLabel) (s : BatchState) :
  0 <= iters -> 0 <= qe_concurrency qe ->
  batchTrace qe iters (batchInit qs) ls = Some s ->
  forallb finished (bs_workers s) = true ->
  len (bs_workers s) = len qs /\
  forall k query, nth_error qs k = Some query ->
    exists w,
      nth_error (bs_workers s) k = Some w /\
      len (batchReturns k ls) = iters /\
      batchQuery query (batchReturns k ls) = Some (w_result w).
Proof.
  intros Hit _ Htr Hfin.
  destruct (batchTiedInv_trace qe iters qs ls [] _ _ (batchTiedInv_init iters qs) Htr)
    as (Hqs & Hall).
  cbn [app] in Hall.
  split; [rewrite <- Hqs; now rewrite len_map|].
  intros k query Hk. rewrite <- Hqs in Hk.
  destruct (nth_error (bs_workers s) k) as [w|] eqn:Ew.
  - rewrite (map_nth_error _ _ _ Ew) in Hk. injection Hk as <-.
    exists w. split; [reflexivity|].
    pose proof (Hall k w Ew) as Hw. unfold workerTied in Hw.
    pose proof (forallb_nth_error _ _ _ _ Hfin Ew) as Hf. unfold finished in Hf.
    destruct (w_phase w); try discriminate.
    destruct Hw as [Hl Hr]. split; [lia|exact Hr].
  - apply nth_error_None in Ew.
    assert (nth_error (map w_query (bs_workers s)) k = None)
      by (apply nth_error_None; now rewrite length_map).
    congruence.
Qed.

Lemma ExecuteBatch_returns_one_result_per_query_witness :
  let qe := mkQueryExecutor (30 * Second) false 2 in
  let q2 := Query.mk "select-two" EmptyString "SELECT 2" 1 in
  let ls :=
    [BAcquire 0; BAcquire 1; BReturn 1 (failExec 30 "timeout"); BReturn 0 (okExec 10);
     BRelease 0; BMerge 0; BRelease 1; BFinish 0; BMerge 1; BFinish 1] in
  exists s,
    batchTrace qe 1 (batchInit [sampleQuery; q2]) ls = Some s /\
    len (bs_workers s) = len [sampleQuery; q2] /\
    forall k query, nth_error [sampleQuery; q2] k = Some query ->
      exists w,
        nth_error (bs_workers s) k = Some w /\
        len (batchReturns k ls) = 1 /\
        batchQuery query (batchReturns k ls) = Some (w_result w).
Proof.
  cbv zeta. eexists. split; [vm_compute; reflexivity|].
  apply (ExecuteBatch_returns_one_result_per_query
           (mkQueryExecutor (30 * Second) false 2) 1
           [sampleQuery; Query.mk "select-two" EmptyString "SELECT 2" 1]
           [BAcquire 0; BAcquire 1; BReturn 1 (failExec 30 "timeout"); BReturn 0 (okExec 10);
            BRelease 0; BMerge 0; BRelease 1; BFinish 0; BMerge 1; BFinish 1]);
    [lia|cbn; lia|vm_compute; reflexivity|vm_compute; reflexivity].
Defined.



(** ** [ExecuteBatch] terminates *)

Lemma sumZ_map_update {A : Type} (f : A -> Z) (l : list A) (k : nat) (old x : A) :
  nth_error l k = Some old ->
  sumZ (map f (update l k x)) = sumZ (map f l) - f old + f x.
Proof.
  revert k. induction l as [|y t IH]; intros k Hk; destruct k; try discriminate.
  - injection Hk as ->. unfold sumZ. cbn [update map fold_right]. lia.
  - cbn [nth_error] in Hk. specialize (IH k Hk). unfold sumZ in *.
    cbn [update map fold_right]. lia.
Qed.

Lemma workerWork_nonneg iters w : workerInv iters w -> 0 <= workerWork iters w.
Proof.
  unfold workerInv, workerWork, busy.
  destruct (w_phase w); intros H; try lia;
    destruct H as (es & _ & _ & Hi & Hb); try specialize (Hb eq_refl); lia.
Qed.

Lemma batchWork_nonneg iters ws :
  Forall (workerInv iters) ws -> 0 <= sumZ (map (workerWork iters) ws).
Proof.
  induction 1 as [|w t Hw Ht IH]; unfold sumZ in *; cbn [map fold_right]; [lia|].
  pose proof (workerWork_nonneg iters w Hw). lia.
Qed.

Lemma batchWork_init iters qs :
  batchWork iters (batchInit qs) = len qs * (4 * Z.max 0 iters + 1).
Proof.
  unfold batchWork, batchInit. cbn [bs_workers]. rewrite map_map.
  unfold workerWork. cbn [w_phase w_iter].
  induction qs as [|q t IH]; [reflexivity|].
  unfold sumZ, len in *. cbn [map fold_right length]. rewrite IH. lia.
Qed.

Lemma batchWork_step qe iters qs s l s' :
  batchResultsInv iters qs s -> batchStep qe iters s l = Some s' ->
  batchWork iters s' < batchWork iters s.
Proof.
  intros (_ & Hall) Hstep. unfold batchWork.
  destruct l as [k|k e|k|k|k]; cbn [batchStep] in Hstep;
    destruct (nth_error (bs_workers s) k) as [w|] eqn:Ek; try discriminate;
    pose proof (Forall_nth_error _ _ _ _ Hall Ek) as Hw; unfold workerInv in Hw;
    destruct (w_phase w) eqn:Ep; try discriminate.
  - destruct ((w_iter w <? iters) && (bs_sem s <? qe_concurrency qe)); [|discriminate].
    injection Hstep as <-. unfold setWorker. cbn [bs_workers].
    rewrite (sumZ_map_update _ _ _ _ _ Ek). unfold workerWork.
    cbn [w_phase w_iter]. rewrite Ep. lia.
  - injection Hstep as <-. unfold setWorker. cbn [bs_workers].
    rewrite (sumZ_map_update _ _ _ _ _ Ek). unfold workerWork.
    cbn [w_phase w_iter]. rewrite Ep. lia.
  - injection Hstep as <-. unfold setWorker. cbn [bs_workers].
    rewrite (sumZ_map_update _ _ _ _ _ Ek). unfold workerWork.
    cbn [w_phase w_iter]. rewrite Ep. lia.
  - injection Hstep as <-. unfold setWorker. cbn [bs_workers].
    rewrite (sumZ_map_update _ _ _ _ _ Ek). unfold workerWork.
    cbn [w_phase w_iter]. rewrite Ep. lia.
  - destruct (w_iter w >=? iters); [|discriminate].
    destruct (finalizeBatch (w_result w)); [|discriminate].
    injection Hstep as <-. unfold setWorker. cbn [bs_workers].
    rewrite (sumZ_map_update _ _ _ _ _ Ek). unfold workerWork.
    cbn [w_phase w_iter]. rewrite Ep.
    destruct Hw as (es & _ & _ & Hi & _). lia.
Qed.

Lemma batchTrace_work qe iters qs ls s s' :
  batchResultsInv iters qs s -> batchTrace qe iters s ls = Some s' ->
  len ls + batchWork iters s' <= batchWork iters s.
Proof.
  revert s. induction ls as [|l ls IH]; intros s Hr Htr; cbn [batchTrace] in Htr.
  - injection Htr as <-. rewrite len_nil. lia.
  - destruct (batchStep qe iters s l) as [s1|] eqn:E; [|discriminate].
    pose proof (batchWork_step _ _ _ _ _ _ Hr E).
    pose proof (IH s1 (batchResultsInv_step _ _ _ _ _ _ Hr E) Htr).
    change (l :: ls) with ([l] ++ ls). rewrite len_app, len_one. lia.
Qed.

(** Every execution of [ExecuteBatch] is finite: no interleaving of its
    goroutines takes more than four steps per iteration and one more per
    query. *)
Theorem ExecuteBatch_terminates (qe : QueryExecutor) (iters : Z) (qs : list Query.t)
  (ls : list BatchLabel) (s : BatchState) :
  batchTrace qe iters (batchInit qs) ls = Some s ->
  len ls <= len qs * (4 * Z.max 0 iters + 1).
Proof.
  intros Htr.
  pose proof (batchTrace_work _ _ qs _ _ _ (batchResultsInv_init iters qs) Htr) as Hw.
  destruct (batchResultsInv_trace qe iters qs ls _ _ (batchResultsInv_init iters qs) Htr)
    as (_ & Hall).
  pose proof (batchWork_nonneg iters _ Hall) as Hnn. fold (batchWork iters s) in Hnn.
  rewrite batchWork_init in Hw. lia.
Qed.

Lemma ExecuteBatch_terminates_witness :
  let qe := mkQueryExecutor (30 * Second) false 1 in
  len [BAcquire 0; BReturn 0 (okExec 10); BRelease 0; BMerge 0; BFinish 0] <=
  len [sampleQuery] * (4 * Z.max 0 1 + 1).
Proof.
  cbv zeta.
  eapply (ExecuteBatch_terminates (mkQueryExecutor (30 * Second) false 1)).
  vm_compute. reflexivity.
Defined.

(** ** [CalculatePercentile] at its edges *)

(** [CalculatePercentile] on a non-empty slice: the answer does not depend
    on the order of the durations; the call panics exactly when the index it
    computes is negative; an answer is one of the durations; and the
    percentile 0 is the smallest duration. *)
Theorem CalculatePercentile_edges (D D' : list Duration) (p : float64) :
  D <> [] -> len D < 2 ^ 45 -> Permutation D D' ->
  CalculatePercentile D p = CalculatePercentile D' p /\
  (CalculatePercentile D p = None <-> pctIdx (len D) p < 0) /\
  (forall d, CalculatePercentile D p = Some d -> In d D) /\
  (exists d,
      CalculatePercentile D (f64_of_int 0) = Some d /\ In d D /\
      forall x, In x D -> d <= x).
Proof.
  intros Hne Hlen Hperm.
  assert (Hn : 1 <= len D).
  { destruct D; [congruence|unfold len; cbn [length]; lia]. }
  assert (Hin : forall i x, index (sort_Slice D) i = Some x -> In x D).
  { intros i x Hi. eapply Permutation_in; [apply Permutation_sym, sort_Slice_perm|].
    eapply index_In; eassumption. }
  assert (Hcp : forall q,
             CalculatePercentile D q =
             index (sort_Slice D)
               (if pctIdx (len D) q >=? len D then len D - 1 else pctIdx (len D) q)).
  { intros q. unfold CalculatePercentile.
    destruct (Z.eqb_spec (len D) 0); [lia|].
    rewrite len_sort_Slice. reflexivity. }
  repeat split.
  - unfold CalculatePercentile.
    assert (Hl : len D' = len D)
      by (unfold len; now rewrite (Permutation_length Hperm)).
    rewrite !len_sort_Slice, Hl, (sort_Slice_perm_eq _ _ Hperm). reflexivity.
  - rewrite Hcp. intros Hnone.
    destruct (Z.lt_ge_cases (pctIdx (len D) p) 0) as [|Hge]; [assumption|exfalso].
    destruct (index_in_range (sort_Slice D)
                (if pctIdx (len D) p >=? len D then len D - 1 else pctIdx (len D) p))
      as [d Hd]; [|congruence].
    rewrite len_sort_Slice. destruct (Z.geb_spec (pctIdx (len D) p) (len D)); lia.
  - rewrite Hcp. intros Hneg.
    destruct (Z.geb_spec (pctIdx (len D) p) (len D)); [lia|].
    unfold index. destruct (Z.ltb_spec (pctIdx (len D) p) 0); [reflexivity|lia].
  - intros d. rewrite Hcp. apply Hin.
  - assert (H53 : 2 ^ 45 < 2 ^ 53) by reflexivity.
    destruct (index_in_range (sort_Slice D) 0) as [d Hd];
      [rewrite len_sort_Slice; lia|].
    exists d. rewrite Hcp, pctIdx_zero by lia.
    destruct (Z.geb_spec 0 (len D)); [lia|].
    repeat split; [exact Hd|eapply Hin; exact Hd|].
    intros x Hx.
    apply (Permutation_in _ (sort_Slice_perm D)) in Hx.
    apply In_nth_error in Hx. destruct Hx as [k Hk].
    assert (Hk' : index (sort_Slice D) (Z.of_nat k) = Some x).
    { unfold index. destruct (Z.ltb_spec (Z.of_nat k) 0); [lia|]. now rewrite Nat2Z.id. }
    apply (sorted_index_mono _ 0 (Z.of_nat k) _ _ (sort_Slice_strongly_sorted D));
      [lia|assumption..].
Qed.

Lemma CalculatePercentile_edges_witness :
  CalculatePercentile [30; 10; 20] (f64_of_int 50) =
    CalculatePercentile [10; 20; 30] (f64_of_int 50) /\
  (CalculatePercentile [30; 10; 20] (f64_of_int 50) = None <->
   pctIdx (len [30; 10; 20]) (f64_of_int 50) < 0) /\
  (forall d, CalculatePercentile [30; 10; 20] (f64_of_int 50) = Some d ->
             In d [30; 10; 20]) /\
  (exists d,
      CalculatePercentile [30; 10; 20] (f64_of_int 0) = Some d /\ In d [30; 10; 20] /\
      forall x, In x [30; 10; 20] -> d <= x).
Proof.
  apply (CalculatePercentile_edges [30; 10; 20] [10; 20; 30] (f64_of_int 50)).
  - discriminate.
  - reflexivity.
  - apply perm_trans with (10 :: 30 :: 20 :: nil); [apply perm_swap|].
    apply perm_skip, perm_swap.
Defined.
